(** * atm.c: a shallow embedding of the ATM simulation and its specification

    The program keeps one [ATMData] record (balance, PIN, a ten-slot array of
    transactions and a counter), reads its commands from standard input with
    [scanf], writes its messages with [printf], and stores the record in the
    text file [atm_data.txt] with [fprintf]/[fscanf].

    The embedding follows the C text function by function:
    - a [double] is a binary64 float ([PrimFloat.float]), with its NaN,
      infinities and rounding;
    - a C string is a [string] (the bytes before the terminating NUL), and a
      [char buf[n]] holds a string of fewer than [n] characters: a longer one
      is a write past the buffer, which is undefined behaviour;
    - an [int] is a [Z];
    - [Transaction txs[MAX_TX]] is a list, read and written by index, where an
      index outside the list is undefined behaviour;
    - the functions are computations in a state monad over the record and
      the environment (standard input and output, the data file), whose
      outcome is a return, undefined behaviour, or a loop that does not end;
    - the conversions [%lf], [%s], [%d] and [%.2f] work on the characters;
    - the menu loop of [main] is run round by round, and ends within one
      round more than there are characters of input ([Input.main_ends]).

    After the functions come the notions the statements use, lemmas on the
    text, on doubles and on each function, then the claims C1 to C10, and
    further properties of the functions, X1 to X23. *)

From Stdlib Require Import ZArith Zpower Lia Bool List Ascii String Floats.
From Stdlib Require Import Decimal DecimalString DecimalN DecimalPos.
From stdpp Require Import base list.

Local Open Scope string_scope.
Local Open Scope Z_scope.

(** ** Constants of the program *)

Definition MAX_TX : Z := 10.
Definition PIN_LENGTH : Z := 6.
(** [char type[10]] of [Transaction] and of the local of [load_data]. *)
Definition TYPE_LENGTH : Z := 10.
Definition INT_MIN : Z := - 2 ^ 31.
Definition INT_MAX : Z := 2 ^ 31 - 1.

(** ** Text: characters, numerals *)

Module Text.

Definition nl : string := String (ascii_of_nat 10) EmptyString.

(** [isspace] in the C locale: space, and the controls 9 to 13. *)
Definition isspace (c : ascii) : bool :=
  let n := nat_of_ascii c in
  Nat.eqb n 32 || (Nat.leb 9 n && Nat.leb n 13).

Definition eq_ascii (a b : ascii) : bool := Ascii.eqb a b.

(** Lower-case of a letter, for the case-insensitive words of [strtod]. *)
Definition tolower (c : ascii) : ascii :=
  let n := nat_of_ascii c in
  if Nat.leb 65 n && Nat.leb n 90 then ascii_of_nat (n + 32) else c.

Definition digit_of (c : ascii) : option (Decimal.uint -> Decimal.uint) :=
  match c with
  | "0" => Some Decimal.D0 | "1" => Some Decimal.D1 | "2" => Some Decimal.D2
  | "3" => Some Decimal.D3 | "4" => Some Decimal.D4 | "5" => Some Decimal.D5
  | "6" => Some Decimal.D6 | "7" => Some Decimal.D7 | "8" => Some Decimal.D8
  | "9" => Some Decimal.D9 | _ => None
  end%char.

Definition is_digit (c : ascii) : bool :=
  match digit_of c with Some _ => true | None => false end.

Definition hexdigit_of (c : ascii) : option N :=
  let n := N_of_ascii (tolower c) in
  if (48 <=? n)%N && (n <=? 57)%N then Some (n - 48)%N
  else if (97 <=? n)%N && (n <=? 102)%N then Some (n - 87)%N
  else None.

(** The decimal numeral of a natural number, as [printf] writes it. *)
Definition digits (n : N) : string := NilEmpty.string_of_uint (N.to_uint n).

(** [%d] *)
Definition fmt_d (n : Z) : string :=
  match n with
  | Zneg p => "-" ++ digits (Npos p)
  | _ => digits (Z.to_N n)
  end.

(** [q] rounded to the nearest integer, ties to even, for [q = num / den]
    with [0 <= num] and [0 < den]. *)
Definition round_half_even (num den : Z) : Z :=
  let q := num / den in
  let r := num mod den in
  match 2 * r ?= den with
  | Lt => q
  | Gt => q + 1
  | Eq => if Z.even q then q else q + 1
  end.

(** The hundredths in [m * 2^e], rounded to nearest-even: what [%.2f] prints
    of a finite non-zero double, without its sign and its point. *)
Definition cents_of (m : positive) (e : Z) : N :=
  if 0 <=? e then Z.to_N (Zpos m * 2 ^ e * 100)
  else Z.to_N (round_half_even (Zpos m * 100) (2 ^ (- e))).

Definition sign_text (neg : bool) : string := if neg then "-" else "".

Definition two_digits (n : N) : string :=
  digits (n / 10 mod 10) ++ digits (n mod 10).

Definition fmt_cents (neg : bool) (c : N) : string :=
  sign_text neg ++ digits (c / 100) ++ "." ++ two_digits (c mod 100).

(** [%.2f]. The sign of a NaN is not part of [PrimFloat.float]; it is
    printed without one. *)
Definition fmt_2f (x : float) : string :=
  match Prim2SF x with
  | S754_nan => "nan"
  | S754_infinity s => sign_text s ++ "inf"
  | S754_zero s => fmt_cents s 0
  | S754_finite s m e => fmt_cents s (cents_of m e)
  end.

End Text.
(** ** Reading: the conversions of [scanf] and [fscanf]

    A conversion reads from the front of the stream. It either stores a value
    and leaves the rest of the stream ([Conv]), or fails and stores nothing
    ([NoConv], with the stream as the failed conversion leaves it), or writes
    outside its object ([Overrun]: a [%s] token that does not fit the buffer,
    a [%d] numeral outside [int]), which is undefined behaviour. *)

Inductive conv (A : Type) : Type :=
| Conv (v : A) (rest : string)
| NoConv (rest : string)
| Overrun.
Arguments Conv {A} v rest.
Arguments NoConv {A} rest.
Arguments Overrun {A}.

Module Scan.
Import Text.

Fixpoint skip_ws (s : string) : string :=
  match s with
  | String c r => if isspace c then skip_ws r else s
  | EmptyString => s
  end.

(** The longest run of non-space characters at the front. *)
Fixpoint span_token (s : string) : string * string :=
  match s with
  | String c r =>
      if isspace c then (EmptyString, s)
      else let (t, r') := span_token r in (String c t, r')
  | EmptyString => (EmptyString, s)
  end.

(** [%s] into [char buf[cap]]. *)
Definition scan_s (cap : Z) (s : string) : conv string :=
  let (t, r) := span_token (skip_ws s) in
  match t with
  | EmptyString => NoConv r
  | _ => if cap <=? Z.of_nat (String.length t) then Overrun else Conv t r
  end.

(** The longest run of decimal digits at the front, as a numeral. *)
Fixpoint scan_digits (s : string) : Decimal.uint * string :=
  match s with
  | String c r =>
      match digit_of c with
      | Some d => let (u, r') := scan_digits r in (d u, r')
      | None => (Decimal.Nil, s)
      end
  | EmptyString => (Decimal.Nil, s)
  end.

Definition scan_sign (s : string) : bool * string :=
  match s with
  | String "-" r => (true, r)
  | String "+" r => (false, r)
  | _ => (false, s)
  end.

Definition signed (neg : bool) (n : Z) : Z := if neg then - n else n.

(** [%d]: an optional sign and a non-empty run of digits. *)
Definition scan_d (s : string) : conv Z :=
  let (neg, r1) := scan_sign (skip_ws s) in
  let (u, r2) := scan_digits r1 in
  match u with
  | Decimal.Nil => NoConv r2
  | _ =>
      let n := signed neg (Z.of_N (N.of_uint u)) in
      if (INT_MIN <=? n) && (n <=? INT_MAX) then Conv n r2 else Overrun
  end.

(** *** [%lf]: the subject sequence of [strtod] *)

(** [prec = 53] and [emax = 1024] are those of binary64, from [FloatOps]. *)

(** The double nearest to [(-1)^neg * m * 10^e] (ties to even). *)
Definition double_of_decimal (neg : bool) (m : N) (e : Z) : float :=
  match m with
  | N0 => SF2Prim (S754_zero neg)
  | Npos p =>
      if 0 <=? e
      then SF2Prim (binary_normalize prec emax (signed neg (Zpos p * 10 ^ e)) 0 neg)
      else SF2Prim (SFdiv prec emax (S754_finite neg p 0)
                      (S754_finite false (Z.to_pos (10 ^ (- e))) 0))
  end.

(** The double nearest to [(-1)^neg * m * 2^e]. *)
Definition double_of_binary (neg : bool) (m : N) (e : Z) : float :=
  SF2Prim (binary_normalize prec emax (signed neg (Z.of_N m)) e neg).

(** An exponent part: the letter [mark], an optional sign, digits. No
    exponent part reads as exponent 0; a letter with no digit after it is a
    prefix of a numeral and no numeral, so the conversion fails. *)
Definition scan_exponent (mark : ascii) (s : string) : conv Z :=
  match s with
  | String c r =>
      if eq_ascii (tolower c) mark then
        let (neg, r1) := scan_sign r in
        let (u, r2) := scan_digits r1 in
        match u with
        | Decimal.Nil => NoConv r2
        | _ => Conv (signed neg (Z.of_N (N.of_uint u))) r2
        end
      else Conv 0 s
  | EmptyString => Conv 0 s
  end.

Definition scan_decimal (neg : bool) (s : string) : conv float :=
  let (ip, r1) := scan_digits s in
  let (fp, r2) :=
    match r1 with
    | String "." r => scan_digits r
    | _ => (Decimal.Nil, r1)
    end in
  match ip, fp with
  | Decimal.Nil, Decimal.Nil => NoConv r2
  | _, _ =>
      let k := Decimal.nb_digits fp in
      let m := (N.of_uint ip * 10 ^ N.of_nat k + N.of_uint fp)%N in
      match scan_exponent "e" r2 with
      | Conv ex r3 => Conv (double_of_decimal neg m (ex - Z.of_nat k)) r3
      | NoConv r3 => NoConv r3
      | Overrun => Overrun
      end
  end.

(** The longest run of hexadecimal digits: its value and its length. *)
Fixpoint scan_hexdigits (acc : N) (n : nat) (s : string) : N * nat * string :=
  match s with
  | String c r =>
      match hexdigit_of c with
      | Some d => scan_hexdigits (16 * acc + d)%N (S n) r
      | None => (acc, n, s)
      end
  | EmptyString => (acc, n, s)
  end.

Definition scan_hex (neg : bool) (s : string) : conv float :=
  let '(ip, ni, r1) := scan_hexdigits 0%N O s in
  let '(m, nf, r2) :=
    match r1 with
    | String "." r => scan_hexdigits ip O r
    | _ => (ip, O, r1)
    end in
  match ni, nf with
  | O, O => NoConv r2
  | _, _ =>
      match scan_exponent "p" r2 with
      | Conv ex r3 => Conv (double_of_binary neg m (ex - 4 * Z.of_nat nf)) r3
      | NoConv r3 => NoConv r3
      | Overrun => Overrun
      end
  end.

(** [w] at the front of [s], letters compared without case: whether all of
    [w] was there, and the stream after the part that was. *)
Fixpoint scan_word (w s : string) : bool * string :=
  match w with
  | EmptyString => (true, s)
  | String a w' =>
      match s with
      | String c r => if eq_ascii (tolower c) a then scan_word w' r else (false, s)
      | EmptyString => (false, s)
      end
  end.

Definition is_nchar (c : ascii) : bool :=
  let n := nat_of_ascii (tolower c) in
  is_digit c || (Nat.leb 97 n && Nat.leb n 122) || Nat.eqb n 95.

Fixpoint skip_nchars (s : string) : string :=
  match s with
  | String c r => if is_nchar c then skip_nchars r else s
  | EmptyString => s
  end.

Definition starts_with (a : ascii) (s : string) : bool :=
  match s with
  | String c _ => eq_ascii (tolower c) a
  | EmptyString => false
  end.

Definition scan_inf (neg : bool) (s : string) : conv float :=
  match scan_word "inf" s with
  | (true, r) =>
      let v := if neg then neg_infinity else infinity in
      if starts_with "i" r then
        match scan_word "inity" r with
        | (true, r') => Conv v r'
        | (false, r') => NoConv r'
        end
      else Conv v r
  | (false, r) => NoConv r
  end.

Definition scan_nan (s : string) : conv float :=
  match scan_word "nan" s with
  | (true, r) =>
      match r with
      | String "(" r1 =>
          match skip_nchars r1 with
          | String ")" r2 => Conv nan r2
          | r2 => NoConv r2
          end
      | _ => Conv nan r
      end
  | (false, r) => NoConv r
  end.

(** [%lf]: white space, an optional sign, then a decimal or hexadecimal
    numeral, [inf], [infinity] or [nan]. *)
Definition scan_lf (s : string) : conv float :=
  let (neg, r) := scan_sign (skip_ws s) in
  if starts_with "i" r then scan_inf neg r
  else if starts_with "n" r then scan_nan r
  else
    match r with
    | String "0" (String c r') =>
        if eq_ascii (tolower c) "x" then scan_hex neg r' else scan_decimal neg r
    | _ => scan_decimal neg r
    end.

End Scan.

Import Text Scan.

(** ** The data of the program *)

Record Transaction : Type := mkTransaction {
  type : string;      (* "Deposit" or "Withdraw" *)
  amount : float
}.

Record ATMData : Type := mkATMData {
  balance : float;
  pin : string;
  txs : list Transaction;
  tx_count : Z        (* total transactions stored *)
}.

(** What the program reads and writes beside its record: the characters
    left on standard input, the characters written to standard output, the
    contents of [DATA_FILE] ([None]: [fopen] for reading fails), and whether
    [fopen] for writing succeeds. *)
Record Env : Type := mkEnv {
  stdin : string;
  stdout : string;
  disk : option string;
  writable : bool
}.

(** ** Computations

    A call either returns a value with the record and the environment as it
    leaves them, or has undefined behaviour, or never returns ([getchar]
    at the end of input inside [while (getchar() != '\n');]). *)

Inductive outcome (A : Type) : Type :=
| Ret (v : A) (atm : ATMData) (e : Env)
| Undef
| Hang (atm : ATMData) (e : Env).
Arguments Ret {A} v atm e.
Arguments Undef {A}.
Arguments Hang {A} atm e.

Definition M (A : Type) : Type := ATMData -> Env -> outcome A.

Definition ret {A} (v : A) : M A := fun atm e => Ret v atm e.

Definition bind {A B} (m : M A) (k : A -> M B) : M B :=
  fun atm e =>
    match m atm e with
    | Ret v atm' e' => k v atm' e'
    | Undef => Undef
    | Hang atm' e' => Hang atm' e'
    end.

Notation "x <- m ;; k" := (bind m (fun x => k))
  (at level 100, m at next level, right associativity).
Notation "m ;; k" := (bind m (fun _ => k))
  (at level 100, right associativity).

Definition undefined {A} : M A := fun _ _ => Undef.

(** *** The record behind [ATMData *atm] *)

Definition get_atm : M ATMData := fun atm e => Ret atm atm e.

Definition set_balance (b : float) : M unit :=
  fun atm e => Ret tt (mkATMData b (pin atm) (txs atm) (tx_count atm)) e.

Definition set_tx_count (n : Z) : M unit :=
  fun atm e => Ret tt (mkATMData (balance atm) (pin atm) (txs atm) n) e.

Definition set_txs (l : list Transaction) : M unit :=
  fun atm e => Ret tt (mkATMData (balance atm) (pin atm) l (tx_count atm)) e.

(** [strcpy(atm->pin, s)] *)
Definition strcpy_pin (s : string) : M unit :=
  fun atm e =>
    if PIN_LENGTH <=? Z.of_nat (String.length s) then Undef
    else Ret tt (mkATMData (balance atm) s (txs atm) (tx_count atm)) e.

(** [l[i]] *)
Definition slot (i : Z) (l : list Transaction) : option Transaction :=
  if i <? 0 then None else l !! Z.to_nat i.

(** [atm->txs[i]], read *)
Definition read_tx (i : Z) : M Transaction :=
  fun atm e =>
    match slot i (txs atm) with
    | Some t => Ret t atm e
    | None => Undef
    end.

(** [atm->txs[i] = t] *)
Definition write_tx (i : Z) (t : Transaction) : M unit :=
  atm <- get_atm ;;
  match slot i (txs atm) with
  | Some _ => set_txs (<[Z.to_nat i := t]> (txs atm))
  | None => undefined
  end.

(** [strcpy(atm->txs[i].type, ty); atm->txs[i].amount = amt;] *)
Definition store_tx (i : Z) (ty : string) (amt : float) : M unit :=
  if TYPE_LENGTH <=? Z.of_nat (String.length ty) then undefined
  else write_tx i (mkTransaction ty amt).

(** *** Standard input and output, the data file *)

Definition printf (s : string) : M unit :=
  fun atm e => Ret tt atm (mkEnv (stdin e) (stdout e ++ s) (disk e) (writable e)).

(** [scanf] with one conversion: [None] when it does not return 1. *)
Definition scanf {A} (c : string -> conv A) : M (option A) :=
  fun atm e =>
    match c (stdin e) with
    | Conv v r => Ret (Some v) atm (mkEnv r (stdout e) (disk e) (writable e))
    | NoConv r => Ret None atm (mkEnv r (stdout e) (disk e) (writable e))
    | Overrun => Undef
    end.

(** What follows the first newline. *)
Fixpoint after_newline (s : string) : option string :=
  match s with
  | String c r => if eq_ascii c (ascii_of_nat 10) then Some r else after_newline r
  | EmptyString => None
  end.

(** [while (getchar() != '\n');] At the end of input [getchar] returns
    [EOF] for ever and the loop does not end. *)
Definition drain_line : M unit :=
  fun atm e =>
    match after_newline (stdin e) with
    | Some r => Ret tt atm (mkEnv r (stdout e) (disk e) (writable e))
    | None => Hang atm (mkEnv EmptyString (stdout e) (disk e) (writable e))
    end.

(** [fopen(DATA_FILE, "w")]: empties the file when it succeeds. *)
Definition fopen_w : M bool :=
  fun atm e =>
    if writable e
    then Ret true atm (mkEnv (stdin e) (stdout e) (Some EmptyString) (writable e))
    else Ret false atm e.

(** [fprintf(f, ...)] on the file opened by [fopen_w]. *)
Definition fprintf (s : string) : M unit :=
  fun atm e =>
    let old := match disk e with Some d => d | None => EmptyString end in
    Ret tt atm (mkEnv (stdin e) (stdout e) (Some (old ++ s)) (writable e)).

(** ** The functions of atm.c *)

Definition init_default : M unit :=
  fun atm e => Ret tt (mkATMData 1000 "1234" (txs atm) 0) e.

(** The body of [for (int i = 0; i < atm->tx_count && i < MAX_TX; ++i)] in
    [save_data], over the values [idx] that [i] takes below [MAX_TX]. *)
Fixpoint save_txs (idx : list Z) : M unit :=
  match idx with
  | [] => ret tt
  | i :: idx' =>
      atm <- get_atm ;;
      if i <? tx_count atm then
        t <- read_tx i ;;
        fprintf (type t ++ " " ++ fmt_2f (amount t) ++ nl) ;;
        save_txs idx'
      else ret tt
  end.

Definition save_data : M unit :=
  f <- fopen_w ;;
  if negb f then printf ("Warning: Could not save data." ++ nl)
  else
    atm <- get_atm ;;
    fprintf (fmt_2f (balance atm) ++ " " ++ pin atm ++ " "
             ++ fmt_d (tx_count atm) ++ nl) ;;
    save_txs (seqZ 0 MAX_TX).

(** The body of [for (int i = 1; i < MAX_TX; ++i) atm->txs[i - 1] = atm->txs[i];] *)
Fixpoint shift_left (idx : list Z) : M unit :=
  match idx with
  | [] => ret tt
  | i :: idx' => t <- read_tx i ;; write_tx (i - 1) t ;; shift_left idx'
  end.

Definition add_transaction (ty : string) (amt : float) : M unit :=
  atm <- get_atm ;;
  if tx_count atm <? MAX_TX then
    store_tx (tx_count atm) ty amt ;;
    set_tx_count (tx_count atm + 1)
  else
    (* shift left and append to end (keep last MAX_TX) *)
    shift_left (seqZ 1 (MAX_TX - 1)) ;;
    store_tx (MAX_TX - 1) ty amt.

Definition deposit : M unit :=
  printf "Enter amount to deposit: " ;;
  r <- scanf scan_lf ;;
  match r with
  | None => printf ("Invalid amount." ++ nl) ;; drain_line
  | Some amt =>
      if (amt <=? 0)%float then printf ("Invalid amount." ++ nl) ;; drain_line
      else
        atm <- get_atm ;;
        set_balance (balance atm + amt)%float ;;
        add_transaction "Deposit" amt ;;
        printf ("Deposited " ++ fmt_2f amt ++ " successfully." ++ nl) ;;
        save_data
  end.

Definition withdraw : M unit :=
  printf "Enter amount to withdraw: " ;;
  r <- scanf scan_lf ;;
  match r with
  | None => printf ("Invalid amount." ++ nl) ;; drain_line
  | Some amt =>
      if (amt <=? 0)%float then printf ("Invalid amount." ++ nl) ;; drain_line
      else
        atm <- get_atm ;;
        if (balance atm <? amt)%float then
          printf ("Insufficient funds. Current balance: "
                  ++ fmt_2f (balance atm) ++ nl)
        else
          set_balance (balance atm - amt)%float ;;
          add_transaction "Withdraw" amt ;;
          printf ("Withdrawn " ++ fmt_2f amt ++ " successfully." ++ nl) ;;
          save_data
  end.

(** [fscanf(f, "%lf %s %d", &atm->balance, atm->pin, &atm->tx_count)] on the
    stream [f]: each conversion stores as soon as it succeeds. The result is
    the number of items stored and the stream after them ([EOF], which the
    caller does not tell from 0, is given as 0). *)
Definition fscanf_header (f : string) : M (Z * string) :=
  match scan_lf f with
  | Conv b f1 =>
      set_balance b ;;
      match scan_s PIN_LENGTH (skip_ws f1) with
      | Conv p f2 =>
          strcpy_pin p ;;
          match scan_d (skip_ws f2) with
          | Conv n f3 => set_tx_count n ;; ret (3, f3)
          | NoConv f3 => ret (2, f3)
          | Overrun => undefined
          end
      | NoConv f2 => ret (1, f2)
      | Overrun => undefined
      end
  | NoConv f1 => ret (0, f1)
  | Overrun => undefined
  end.

(** The loop [for (int i = 0; i < atm->tx_count && i < MAX_TX; ++i)] of
    [load_data] over the values [idx] that [i] takes below [MAX_TX], reading
    [fscanf(f, "%s %lf", type, &amount)] from the stream [f]. *)
Fixpoint load_txs (idx : list Z) (f : string) : M unit :=
  match idx with
  | [] => ret tt
  | i :: idx' =>
      atm <- get_atm ;;
      if i <? tx_count atm then
        match scan_s TYPE_LENGTH f with
        | Conv ty f1 =>
            match scan_lf (skip_ws f1) with
            | Conv amt f2 => store_tx i ty amt ;; load_txs idx' f2
            | NoConv _ => ret tt              (* break *)
            | Overrun => undefined
            end
        | NoConv _ => ret tt                  (* break *)
        | Overrun => undefined
        end
      else ret tt
  end.

Definition load_data : M Z :=
  fun atm e =>
    match disk e with
    | None => Ret 0 atm e                     (* file doesn't exist *)
    | Some f =>
        (r <- fscanf_header f ;;
         if negb (fst r =? 3) then ret 0
         else
           (* read transactions *)
           load_txs (seqZ 0 MAX_TX) (snd r) ;;
           ret 1) atm e
    end.

Fixpoint verify_pin_tries (tries : nat) : M Z :=
  match tries with
  | O => ret 0
  | S tries' =>
      printf "Enter PIN: " ;;
      r <- scanf (scan_s PIN_LENGTH) ;;
      match r with
      | None => ret 0
      | Some input =>
          atm <- get_atm ;;
          if String.eqb input (pin atm) then ret 1
          else
            printf ("Incorrect PIN. " ++ fmt_d (Z.of_nat tries')
                    ++ " attempt(s) left." ++ nl) ;;
            verify_pin_tries tries'
      end
  end.

Definition verify_pin : M Z := verify_pin_tries 3.

Definition check_balance : M unit :=
  atm <- get_atm ;;
  printf ("Your current balance: " ++ fmt_2f (balance atm) ++ nl).

(** The body of [for (int i = 0; i < atm->tx_count; ++i)] in
    [mini_statement]. *)
Fixpoint print_txs (idx : list Z) : M unit :=
  match idx with
  | [] => ret tt
  | i :: idx' =>
      t <- read_tx i ;;
      printf (fmt_d (i + 1) ++ ". " ++ type t ++ " : "
              ++ fmt_2f (amount t) ++ nl) ;;
      print_txs idx'
  end.

Definition mini_statement : M unit :=
  atm <- get_atm ;;
  printf ("----- Mini Statement (last " ++ fmt_d (tx_count atm)
          ++ ") -----" ++ nl) ;;
  print_txs (seqZ 0 (tx_count atm)) ;;
  if tx_count atm =? 0 then printf ("No transactions yet." ++ nl) else ret tt.

Definition change_pin : M unit :=
  printf "Enter current PIN: " ;;
  r <- scanf (scan_s PIN_LENGTH) ;;
  match r with
  | None => ret tt
  | Some oldpin =>
      atm <- get_atm ;;
      if negb (String.eqb oldpin (pin atm)) then
        printf ("PIN does not match." ++ nl)
      else
        printf "Enter new PIN: " ;;
        r <- scanf (scan_s PIN_LENGTH) ;;
        match r with
        | None => ret tt
        | Some newpin =>
            printf "Confirm new PIN: " ;;
            r <- scanf (scan_s PIN_LENGTH) ;;
            match r with
            | None => ret tt
            | Some confirm =>
                if negb (String.eqb newpin confirm) then
                  printf ("PINs do not match. Aborting." ++ nl)
                else
                  strcpy_pin newpin ;;
                  save_data ;;
                  printf ("PIN changed successfully." ++ nl)
            end
        end
  end.

(** The first statement of [main]: the record is loaded, or set to its
    defaults and saved when there is nothing to load. The record [main]
    declares is not initialised: any [ATMData] may be there. *)
Definition main_startup : M unit :=
  ok <- load_data ;;
  if ok =? 0 then init_default ;; save_data else ret tt.

(** One round of [while (1)] in [main]: [Some 0] when [main] returns,
    [None] when the loop goes round again. *)
Definition menu_once : M (option Z) :=
  printf (nl ++ "--- ATM Menu ---" ++ nl) ;;
  printf ("1. Check Balance" ++ nl) ;;
  printf ("2. Deposit" ++ nl) ;;
  printf ("3. Withdraw" ++ nl) ;;
  printf ("4. Mini Statement" ++ nl) ;;
  printf ("5. Change PIN" ++ nl) ;;
  printf ("6. Exit" ++ nl) ;;
  printf "Enter choice: " ;;
  r <- scanf scan_d ;;
  match r with
  | None => printf ("Invalid input. Exiting." ++ nl) ;; ret (Some 0)
  | Some choice =>
      match choice with
      | 1 => check_balance ;; ret None
      | 2 => deposit ;; ret None
      | 3 => withdraw ;; ret None
      | 4 => mini_statement ;; ret None
      | 5 => change_pin ;; ret None
      | 6 => printf ("Thank you. Goodbye." ++ nl) ;; ret (Some 0)
      | _ => printf ("Invalid choice. Try again." ++ nl) ;; ret None
      end
  end.

(** The loop, for at most [rounds] rounds: [None] when they do not end it. *)
Fixpoint menu (rounds : nat) (atm : ATMData) (e : Env) : option (outcome Z) :=
  match rounds with
  | O => None
  | S rounds' =>
      match menu_once atm e with
      | Ret (Some v) atm' e' => Some (Ret v atm' e')
      | Ret None atm' e' => menu rounds' atm' e'
      | Undef => Some Undef
      | Hang atm' e' => Some (Hang atm' e')
      end
  end.

(** [main]. Every round of the menu reads a character or more of the
    input, so one round more than there are characters ends the loop. *)
Definition main (atm : ATMData) (e : Env) : option (outcome Z) :=
  match (main_startup ;;
         printf ("Welcome to Simple ATM Simulation" ++ nl) ;;
         verify_pin) atm e with
  | Ret ok atm' e' =>
      if ok =? 0
      then Some ((printf ("Too many incorrect attempts. Exiting." ++ nl) ;; ret 0) atm' e')
      else menu (S (String.length (stdin e'))) atm' e'
  | Undef => Some Undef
  | Hang atm' e' => Some (Hang atm' e')
  end.


(** ** Notions used in the statements *)

(** [Transaction txs[MAX_TX]]: the array has its ten slots. *)
Definition array_ok (atm : ATMData) : Prop :=
  length (txs atm) = Z.to_nat MAX_TX.

(** The ledger: the records [mini_statement] lists, the first [tx_count]
    slots, oldest first. *)
Definition ledger (atm : ATMData) : list Transaction :=
  take (Z.to_nat (tx_count atm)) (txs atm).

(** [t] is pushed on the ledger of [atm], giving that of [atm']: appended
    below the capacity; at the capacity the oldest record leaves, the others
    move one slot down in their order, and [t] takes the last slot. *)
Definition pushed (atm : ATMData) (t : Transaction) (atm' : ATMData) : Prop :=
  (tx_count atm < MAX_TX ->
   tx_count atm' = tx_count atm + 1 /\
   ledger atm' = (ledger atm ++ [t])%list) /\
  (tx_count atm = MAX_TX ->
   tx_count atm' = MAX_TX /\
   ledger atm' = (drop 1 (ledger atm) ++ [t])%list /\
   length (ledger atm') = 10%nat).

(** A double that is zero or above: a zero, a positive number, [+inf]. *)
Definition nonneg (x : spec_float) : bool :=
  match x with
  | S754_zero _ => true
  | S754_infinity s => negb s
  | S754_finite s _ _ => negb s
  | S754_nan => false
  end.


(** [P] holds of the record a call ends with, whether it returns or stays
    in its loop, and the call has no undefined behaviour. *)
Definition ends_with {A} (P : ATMData -> Prop) (o : outcome A) : Prop :=
  match o with
  | Ret _ atm _ => P atm
  | Hang atm _ => P atm
  | Undef => False
  end.

(** *** The text of the data file *)

Definition header_line (atm : ATMData) : string :=
  fmt_2f (balance atm) ++ " " ++ pin atm ++ " " ++ fmt_d (tx_count atm) ++ nl.

Definition tx_line (t : Transaction) : string :=
  type t ++ " " ++ fmt_2f (amount t) ++ nl.

Fixpoint tx_lines (l : list Transaction) : string :=
  match l with
  | [] => ""
  | t :: l' => tx_line t ++ tx_lines l'
  end.

(** The records [save_data] writes: those of the ledger that the array
    holds. *)
Definition saved_txs (atm : ATMData) : list Transaction :=
  take (Z.to_nat (Z.min (tx_count atm) MAX_TX)) (txs atm).

Definition file_text (atm : ATMData) : string :=
  header_line atm ++ tx_lines (saved_txs atm).

(** The records that [k] rounds of [fscanf(f, "%s %lf", type, &amount)] read
    from [f], up to the first round that does not return 2; [None] when a
    token overruns [type]. *)
Fixpoint parse_txs (k : nat) (f : string) : option (list Transaction) :=
  match k with
  | O => Some []
  | S k' =>
      match scan_s TYPE_LENGTH f with
      | Conv ty f1 =>
          match scan_lf (skip_ws f1) with
          | Conv amt f2 =>
              match parse_txs k' f2 with
              | Some l => Some (mkTransaction ty amt :: l)
              | None => None
              end
          | NoConv _ => Some []
          | Overrun => None
          end
      | NoConv _ => Some []
      | Overrun => None
      end
  end.

(** [recs] written over the slots of [l] from slot [i] on. *)
Definition overwrite (i : nat) (recs l : list Transaction) : list Transaction :=
  (take i l ++ recs ++ drop (i + length recs) l)%list.

(** The characters [save_data] puts after a field: a space, a newline. *)
Definition is_sep (c : ascii) : Prop := c = " "%char \/ c = ascii_of_nat 10.

Fixpoint no_space (t : string) : bool :=
  match t with
  | String c r => negb (isspace c) && no_space r
  | EmptyString => true
  end.

(** A field that [%s] writes and reads back whole: not empty, without white
    space, short enough for [char buf[cap]]. *)
Definition is_token (cap : Z) (t : string) : bool :=
  match t with
  | EmptyString => false
  | _ => no_space t && (Z.of_nat (String.length t) <? cap)
  end.

(** A record whose fields [save_data] writes as whole tokens: the PIN and
    the types of the saved records, with a count that is an [int]. *)
Definition storable (atm : ATMData) : bool :=
  is_token PIN_LENGTH (pin atm)
  && forallb (fun t => is_token TYPE_LENGTH (type t)) (saved_txs atm)
  && (INT_MIN <=? tx_count atm) && (tx_count atm <=? INT_MAX).

(** The double that [%lf] reads from the [%.2f] text of [x]: [x] rounded to
    hundredths, and that decimal rounded to a double. *)
Definition dec2 (x : float) : float :=
  match Prim2SF x with
  | S754_nan => nan
  | S754_infinity s => if s then neg_infinity else infinity
  | S754_zero s => double_of_decimal s 0 (-2)
  | S754_finite s m e => double_of_decimal s (cents_of m e) (-2)
  end.

Definition round_tx (t : Transaction) : Transaction :=
  mkTransaction (type t) (dec2 (amount t)).

(** The numeral of the two digits after the point. *)
Definition fraction_numeral (n : N) : Decimal.uint :=
  fst (scan_digits (two_digits n)).

(** *** PIN attempts *)

(** The next [n] tokens of [s], as far as there are any, are all [c] and
    fit a PIN buffer: what [verify_pin] reads when every attempt is [c]. *)
Fixpoint attempts_are (c : string) (n : nat) (s : string) : bool :=
  match n with
  | O => true
  | S n' =>
      match scan_s PIN_LENGTH s with
      | Conv t r => String.eqb t c && attempts_are c n' r
      | NoConv _ => true
      | Overrun => false
      end
  end.

(** The next [n] tokens of [s], as far as there are any, fit a PIN buffer. *)
Fixpoint tokens_fit (n : nat) (s : string) : bool :=
  match n with
  | O => true
  | S n' =>
      match scan_s PIN_LENGTH s with
      | Conv _ r => tokens_fit n' r
      | NoConv _ => true
      | Overrun => false
      end
  end.

(** *** The capacity of the ledger *)

(** The array has its slots and the count is one of 0 to [MAX_TX]: what
    [init_default] and [add_transaction] keep. *)
Definition in_capacity (atm : ATMData) : Prop :=
  array_ok atm /\ 0 <= tx_count atm <= MAX_TX.

(** [P] holds of the record a call ends with, when the call has no
    undefined behaviour. *)
Definition unless_undefined {A} (P : ATMData -> Prop) (o : outcome A) : Prop :=
  match o with
  | Ret _ atm _ => P atm
  | Hang atm _ => P atm
  | Undef => True
  end.

(** [add_transaction] called for each record of [l] in turn. *)
Fixpoint add_all (l : list Transaction) : M unit :=
  match l with
  | [] => ret tt
  | t :: l' => add_transaction (type t) (amount t) ;; add_all l'
  end.

(** The last [k] elements of [l]. *)
Definition last_n (k : nat) (l : list Transaction) : list Transaction :=
  drop (length l - k) l.

(** The lines [mini_statement] prints for the records [l], the first of
    them numbered [i + 1]. *)
Fixpoint statement_lines (i : Z) (l : list Transaction) : string :=
  match l with
  | [] => ""
  | t :: l' =>
      fmt_d (i + 1) ++ ". " ++ type t ++ " : " ++ fmt_2f (amount t) ++ nl
      ++ statement_lines (i + 1) l'
  end.

(** The record is within its capacity and its balance is not below zero. *)
Definition sound (atm : ATMData) : Prop :=
  in_capacity atm /\ (balance atm <? 0)%float = false.

(** What [save_data] leaves of the environment: the file rewritten, or the
    warning printed. *)
Definition saved (atm : ATMData) (e : Env) : Env :=
  if writable e
  then mkEnv (stdin e) (stdout e) (Some (file_text atm)) true
  else mkEnv (stdin e) (stdout e ++ "Warning: Could not save data." ++ nl)
         (disk e) false.

(** What [main] prints before it reads a choice. *)
Definition menu_text : string :=
  (nl ++ "--- ATM Menu ---" ++ nl)
  ++ ("1. Check Balance" ++ nl)
  ++ ("2. Deposit" ++ nl)
  ++ ("3. Withdraw" ++ nl)
  ++ ("4. Mini Statement" ++ nl)
  ++ ("5. Change PIN" ++ nl)
  ++ ("6. Exit" ++ nl)
  ++ "Enter choice: ".

(** *** The input of a call *)

(** The stream a conversion leaves is no longer than the one it read. *)
Definition rest_le {A} (c : conv A) (s : string) : Prop :=
  match c with
  | Conv _ r => (String.length r <= String.length s)%nat
  | NoConv r => (String.length r <= String.length s)%nat
  | Overrun => True
  end.

(** A call that returns leaves no more input than it found. *)
Definition keeps_input {A} (m : M A) : Prop :=
  forall atm e v atm' e',
    m atm e = Ret v atm' e' ->
    (String.length (stdin e') <= String.length (stdin e))%nat.

(** *** Example data *)

(** Ten slots that hold nothing yet. *)
Definition empty_slots : list Transaction := replicate 10 (mkTransaction "" 0).

(** The record after [init_default]. *)
Definition default_atm : ATMData := mkATMData 1000 "1234" empty_slots 0.

(** A record as [main] may find it before [load_data]: whatever was there. *)
Definition stale_atm : ATMData :=
  mkATMData 7 "0000" (replicate 10 (mkTransaction "Stale" 1)) 10.

(** Standard input [s], nothing written yet, no data file, a directory
    that can be written. *)
Definition typed (s : string) : Env := mkEnv s "" None true.

(** The data file holds [f]; nothing is typed. *)
Definition on_disk (f : string) : Env := mkEnv "" "" (Some f) true.

(** ** The conversions on known cases *)

Module TextExamples.

Example fmt_2f_whole : fmt_2f 1000 = "1000.00".
Proof. reflexivity. Qed.

Example fmt_2f_tie_down : fmt_2f 0.125 = "0.12".
Proof. reflexivity. Qed.

Example fmt_2f_tie_up : fmt_2f 0.375 = "0.38".
Proof. reflexivity. Qed.

Example fmt_2f_small_negative : fmt_2f (-0x1p-10) = "-0.00".
Proof. reflexivity. Qed.

Example fmt_2f_large : fmt_2f 0x1p70 = "1180591620717411303424.00".
Proof. reflexivity. Qed.

Example fmt_2f_infinite : fmt_2f neg_infinity = "-inf".
Proof. reflexivity. Qed.

Example fmt_d_negative : fmt_d (-15) = "-15".
Proof. reflexivity. Qed.

Example scan_lf_tenth : scan_lf " 0.1 " = Conv 0x1.999999999999ap-4%float " ".
Proof. reflexivity. Qed.

Example scan_lf_exponent : scan_lf "1.5e3x" = Conv 1500%float "x".
Proof. reflexivity. Qed.

Example scan_lf_halfway : scan_lf "9007199254740993" = Conv 9007199254740992%float "".
Proof. reflexivity. Qed.

Example scan_lf_overflow : scan_lf "1e400" = Conv infinity "".
Proof. reflexivity. Qed.

Example scan_lf_hex : scan_lf "0x1.8p1" = Conv 3%float "".
Proof. reflexivity. Qed.

Example scan_lf_nan : scan_lf ("nan" ++ nl) = Conv nan nl.
Proof. reflexivity. Qed.

Example scan_lf_word : scan_lf "abc" = NoConv "abc".
Proof. reflexivity. Qed.

Example scan_lf_no_exponent_digits : scan_lf "1ex" = NoConv "x".
Proof. reflexivity. Qed.

Example scan_d_stops : scan_d " -12a" = Conv (-12) "a".
Proof. reflexivity. Qed.

Example scan_d_out_of_int : scan_d "2147483648" = Overrun.
Proof. reflexivity. Qed.

Example scan_s_fits_pin : scan_s PIN_LENGTH "  12345 x" = Conv "12345" " x".
Proof. reflexivity. Qed.

Example scan_s_overruns_pin : scan_s PIN_LENGTH "123456" = Overrun.
Proof. reflexivity. Qed.

Example scan_s_end_of_input : scan_s PIN_LENGTH "  " = NoConv "".
Proof. reflexivity. Qed.

End TextExamples.

(** ** Order of doubles *)

Module FloatOrder.

Lemma SFcompare_antisym x y :
  SFcompare y x = option_map CompOpp (SFcompare x y).
Proof.
  destruct x as [sx|sx| |sx mx ex], y as [sy|sy| |sy my ey]; simpl;
    try reflexivity;
    try (destruct sx; reflexivity); try (destruct sy; reflexivity);
    try (destruct sx, sy; reflexivity).
  destruct sx, sy; simpl; try reflexivity;
    rewrite (Z.compare_antisym ex ey); destruct (ex ?= ey)%Z; simpl;
    try reflexivity;
    change (Pos.compare_cont Eq my mx) with (my ?= mx)%positive;
    change (Pos.compare_cont Eq mx my) with (mx ?= my)%positive;
    rewrite (Pos.compare_antisym mx my); destruct (mx ?= my)%positive; reflexivity.
Qed.

(** [a > 0] excludes [a <= 0] *)
Lemma ltb_leb_false (x y : float) : (x <? y)%float = true -> (y <=? x)%float = false.
Proof.
  rewrite ltb_spec, leb_spec. unfold SFltb, SFleb.
  rewrite (SFcompare_antisym (Prim2SF x)). destruct (SFcompare (Prim2SF x) (Prim2SF y)) as [[]|]; simpl; congruence.
Qed.

Lemma leb_ltb_false (x y : float) : (x <=? y)%float = true -> (y <? x)%float = false.
Proof.
  rewrite ltb_spec, leb_spec. unfold SFltb, SFleb.
  rewrite (SFcompare_antisym (Prim2SF x)). destruct (SFcompare (Prim2SF x) (Prim2SF y)) as [[]|]; simpl; congruence.
Qed.

Lemma leb_zero_nonneg (x : float) : (0 <=? x)%float = nonneg (Prim2SF x).
Proof.
  rewrite leb_spec. change (Prim2SF 0) with (S754_zero false).
  destruct (Prim2SF x) as [s|s| |s m e]; try destruct s; reflexivity.
Qed.

Lemma shr_1_nonneg mrs : 0 <= shr_m mrs -> 0 <= shr_m (shr_1 mrs).
Proof.
  destruct mrs as [m r s]. simpl. destruct m as [|[p|p|]|p]; simpl; lia.
Qed.

Lemma iter_pos_nonneg (p : positive) : forall mrs,
  0 <= shr_m mrs -> 0 <= shr_m (SpecFloat.iter_pos shr_1 p mrs).
Proof.
  induction p as [p IH|p IH|]; intros mrs H; simpl.
  - apply IH, IH, shr_1_nonneg, H.
  - apply IH, IH, H.
  - apply shr_1_nonneg, H.
Qed.

Lemma shr_fexp_nonneg (m e : Z) (l : location) :
  0 <= m -> 0 <= shr_m (fst (shr_fexp prec emax m e l)).
Proof.
  intros H. unfold shr_fexp, shr.
  assert (H0 : 0 <= shr_m (shr_record_of_loc m l)).
  { destruct l as [|[]]; exact H. }
  destruct (fexp prec emax (Zdigits2 m + e) - e); simpl; auto.
  apply iter_pos_nonneg, H0.
Qed.

Lemma round_nearest_even_nonneg (m : Z) (l : location) :
  0 <= m -> 0 <= round_nearest_even m l.
Proof.
  intros H. destruct l as [|[]]; simpl; try lia. destruct (Z.even m); lia.
Qed.

Lemma binary_round_aux_nonneg (m e : Z) (l : location) :
  0 <= m -> nonneg (binary_round_aux prec emax false m e l) = true.
Proof.
  intros H. unfold binary_round_aux.
  pose proof (shr_fexp_nonneg m e l H) as H1.
  destruct (shr_fexp prec emax m e l) as [mrs' e']. simpl in H1.
  pose proof (shr_fexp_nonneg _ e' loc_Exact
                (round_nearest_even_nonneg _ (loc_of_shr_record mrs') H1)) as H2.
  destruct (shr_fexp prec emax _ e' loc_Exact) as [mrs'' e'']. simpl in H2.
  destruct (shr_m mrs'') as [|p|p]; [reflexivity | | lia].
  destruct (e'' <=? emax - prec); reflexivity.
Qed.

Lemma binary_normalize_nonneg (m e : Z) :
  0 <= m -> nonneg (binary_normalize prec emax m e false) = true.
Proof.
  intros H. destruct m as [|p|p]; [reflexivity | | lia].
  simpl. unfold binary_round.
  destruct (shl_align p e _) as [mz ez]. now apply binary_round_aux_nonneg.
Qed.

(** The sum of a double that is zero or above and one that is above zero is
    zero or above. *)
Lemma add_nonneg (b a : float) :
  (0 <=? b)%float = true -> (0 <? a)%float = true -> (0 <=? b + a)%float = true.
Proof.
  rewrite !leb_zero_nonneg, ltb_spec, add_spec.
  change (Prim2SF 0) with (S754_zero false). unfold SF64add.
  destruct (Prim2SF b) as [sb|sb| |sb mb eb], (Prim2SF a) as [sa|sa| |sa ma ea];
    try destruct sb; try destruct sa; intros Hb Ha;
    try discriminate Hb; try discriminate Ha; try reflexivity.
  apply binary_normalize_nonneg. simpl. lia.
Qed.

Lemma digits2_pos_bounds (m : positive) :
  2 ^ (Zpos (digits2_pos m) - 1) <= Zpos m < 2 ^ Zpos (digits2_pos m).
Proof.
  induction m as [m IH|m IH|]; cbn [digits2_pos]; [| |simpl; lia];
    rewrite Pos2Z.inj_succ;
    set (d := Zpos (digits2_pos m)) in *;
    assert (Hd : 0 < d) by (subst d; lia);
    replace (Z.succ d - 1) with (Z.succ (d - 1)) by lia;
    replace (Z.succ d) with (Z.succ (Z.succ (d - 1))) by lia;
    replace d with (Z.succ (d - 1)) in IH at 2 by lia;
    rewrite !Z.pow_succ_r in * by lia; lia.
Qed.

(** The mantissa of a valid double has at most 53 bits, and exactly 53 above
    the least exponent. *)
Lemma bounded_mantissa (m : positive) (e : Z) :
  bounded prec emax m e = true ->
  SpecFloat.emin prec emax <= e /\ Zpos m < 2 ^ 53 /\ (SpecFloat.emin prec emax < e -> 2 ^ 52 <= Zpos m).
Proof.
  unfold bounded, canonical_mantissa, fexp, SpecFloat.emin. intros H.
  apply andb_true_iff in H as [H _]. apply Z.eqb_eq in H.
  pose proof (digits2_pos_bounds m) as [Hlo Hhi].
  set (d := Zpos (digits2_pos m)) in *.
  assert (Hd : 0 < d) by (subst d; lia).
  clearbody d. change prec with 53 in *. change emax with 1024 in *.
  split; [lia|]. split.
  - assert (d <= 53) by lia.
    apply Z.lt_le_trans with (1 := Hhi). apply Z.pow_le_mono_r; lia.
  - intros He. assert (d = 53) by lia.
    replace 52 with (d - 1) by lia. exact Hlo.
Qed.

Lemma shl_align_value (m : positive) (e e' : Z) :
  e' <= e -> Zpos (fst (shl_align m e e')) = Zpos m * 2 ^ (e - e').
Proof.
  intros H. unfold shl_align. destruct (e' - e) as [|p|p] eqn:E; try lia.
  - replace (e - e') with 0 by lia. simpl. lia.
  - simpl. replace (e - e') with (Zpos p) by lia.
    change (Pos.iter xO m p) with (shift_pos p m).
    rewrite shift_pos_correct. apply Z.mul_comm.
Qed.

(** The difference of two doubles [b >= a > 0], [a] finite, is zero or
    above. *)
Lemma sub_nonneg (b a : float) :
  (0 <? a)%float = true -> (a <=? b)%float = true -> (a <? infinity)%float = true ->
  (0 <=? b - a)%float = true.
Proof.
  rewrite leb_zero_nonneg, !ltb_spec, leb_spec, sub_spec.
  change (Prim2SF 0) with (S754_zero false).
  change (Prim2SF infinity) with (S754_infinity false).
  pose proof (Prim2SF_valid b) as Vb. pose proof (Prim2SF_valid a) as Va.
  unfold SF64sub, SFltb, SFleb.
  destruct (Prim2SF b) as [sb|sb| |sb mb eb], (Prim2SF a) as [sa|sa| |sa ma ea];
    try destruct sb; try destruct sa; intros Ha Hab Hfin;
    try discriminate Ha; try discriminate Hab; try discriminate Hfin;
    try reflexivity.
  cbn [SFsub cond_Zopp]. apply binary_normalize_nonneg.
  cbn [valid_binary] in Va, Vb.
  apply bounded_mantissa in Va as (Hea & Hma & _).
  apply bounded_mantissa in Vb as (Heb & Hmb & Hnb).
  cbn [SFcompare] in Hab.
  rewrite !shl_align_value by lia.
  destruct (Z.compare_spec ea eb) as [Heq|Hlt|Hgt]; [| |discriminate Hab].
  - subst eb. rewrite Z.min_id, Z.sub_diag. simpl Z.pow.
    change (Pos.compare_cont Eq ma mb) with (ma ?= mb)%positive in Hab.
    destruct (Pos.compare_spec ma mb); try discriminate Hab; lia.
  - rewrite Z.min_r by lia. rewrite Z.sub_diag. simpl (2 ^ 0).
    assert (2 ^ 1 <= 2 ^ (eb - ea)) by (apply Z.pow_le_mono_r; lia).
    specialize (Hnb ltac:(lia)). nia.
Qed.

(** Of two doubles that are numbers, one is below the other or the other is
    at most the one. *)
Lemma not_ltb_leb (b a : float) :
  (0 <=? b)%float = true -> (0 <? a)%float = true ->
  (b <? a)%float = false -> (a <=? b)%float = true.
Proof.
  rewrite !ltb_spec, !leb_spec. change (Prim2SF 0) with (S754_zero false).
  unfold SFltb, SFleb. rewrite (SFcompare_antisym (Prim2SF b) (Prim2SF a)).
  destruct (SFcompare (Prim2SF b) (Prim2SF a)) as [[]|] eqn:E; simpl;
    try congruence.
  destruct (Prim2SF b) as [sb|sb| |sb mb eb], (Prim2SF a) as [sa|sa| |sa ma ea];
    simpl in *; congruence.
Qed.

End FloatOrder.
Import FloatOrder.

(** ** Facts about text *)

Module TextFacts.

Lemma append_assoc (a b c : string) : (a ++ b) ++ c = a ++ (b ++ c).
Proof. induction a as [|x a IH]; simpl; [reflexivity | now rewrite IH]. Qed.

Lemma append_nil_r (a : string) : a ++ "" = a.
Proof. induction a as [|x a IH]; simpl; [reflexivity | now rewrite IH]. Qed.

Lemma skip_ws_idem (s : string) : skip_ws (skip_ws s) = skip_ws s.
Proof.
  induction s as [|c s IH]; [reflexivity|]. simpl.
  destruct (isspace c) eqn:E; [exact IH|]. simpl. now rewrite E.
Qed.

Lemma scan_lf_skip_ws (s : string) : scan_lf (skip_ws s) = scan_lf s.
Proof. unfold scan_lf. now rewrite skip_ws_idem. Qed.

Lemma scan_d_skip_ws (s : string) : scan_d (skip_ws s) = scan_d s.
Proof. unfold scan_d. now rewrite skip_ws_idem. Qed.

Lemma scan_s_skip_ws (cap : Z) (s : string) : scan_s cap (skip_ws s) = scan_s cap s.
Proof. unfold scan_s. now rewrite skip_ws_idem. Qed.

Lemma scan_lf_sep (c : ascii) (s : string) :
  is_sep c -> scan_lf (String c s) = scan_lf s.
Proof. intros [-> | ->]; reflexivity. Qed.

Lemma scan_d_sep (c : ascii) (s : string) :
  is_sep c -> scan_d (String c s) = scan_d s.
Proof. intros [-> | ->]; reflexivity. Qed.

Lemma scan_s_sep (cap : Z) (c : ascii) (s : string) :
  is_sep c -> scan_s cap (String c s) = scan_s cap s.
Proof. intros [-> | ->]; reflexivity. Qed.

Lemma sep_space : is_sep " ".
Proof. now left. Qed.

Lemma sep_nl : is_sep (ascii_of_nat 10).
Proof. now right. Qed.

Lemma span_token_app (t : string) (c : ascii) (r : string) :
  no_space t = true -> isspace c = true ->
  span_token (t ++ String c r) = (t, String c r).
Proof.
  intros Ht Hc. induction t as [|a t IH]; simpl.
  - now rewrite Hc.
  - simpl in Ht. apply andb_true_iff in Ht as [Ha Ht].
    apply negb_true_iff in Ha. rewrite Ha, (IH Ht). reflexivity.
Qed.

Lemma is_sep_space (c : ascii) : is_sep c -> isspace c = true.
Proof. intros [-> | ->]; reflexivity. Qed.

Lemma scan_s_token (cap : Z) (t : string) (c : ascii) (r : string) :
  is_token cap t = true -> is_sep c ->
  scan_s cap (t ++ String c r) = Conv t (String c r).
Proof.
  intros Ht Hc. destruct t as [|a t]; [discriminate|].
  cbn [is_token] in Ht. apply andb_true_iff in Ht as [Hns Hlen].
  unfold scan_s.
  assert (Hskip : skip_ws (String a t ++ String c r) = String a t ++ String c r).
  { simpl in Hns |- *. apply andb_true_iff in Hns as [Ha _].
    apply negb_true_iff in Ha. now rewrite Ha. }
  rewrite Hskip, (span_token_app _ _ _ Hns (is_sep_space _ Hc)).
  destruct (Z.leb_spec cap (Z.of_nat (String.length (String a t)))); [|reflexivity].
  apply Z.ltb_lt in Hlen. lia.
Qed.

(** *** Numerals *)

Lemma scan_digits_numeral (u : Decimal.uint) (r : string) :
  match r with String c _ => is_digit c = false | EmptyString => True end ->
  scan_digits (NilEmpty.string_of_uint u ++ r) = (u, r).
Proof.
  intros Hr. induction u as [|u IH|u IH|u IH|u IH|u IH|u IH|u IH|u IH|u IH|u IH];
    simpl; try (rewrite IH; reflexivity).
  destruct r as [|c r]; [reflexivity|]. simpl. unfold is_digit in Hr.
  destruct (digit_of c); [discriminate | reflexivity].
Qed.

Lemma to_uint_nonnil (n : N) : N.to_uint n <> Decimal.Nil.
Proof.
  destruct n as [|p]; [discriminate|]. apply DecimalPos.Unsigned.to_uint_nonnil.
Qed.

Lemma sep_not_digit (c : ascii) (r : string) :
  is_sep c -> match String c r with String c _ => is_digit c = false | EmptyString => True end.
Proof. intros [-> | ->]; reflexivity. Qed.

(** [%d] reads back the [int] that [%d] wrote. *)
Lemma scan_d_fmt_d (n : Z) (c : ascii) (r : string) :
  INT_MIN <= n <= INT_MAX -> is_sep c ->
  scan_d (fmt_d n ++ String c r) = Conv n (String c r).
Proof.
  intros Hn Hc.
  assert (Hgen : forall (neg : bool) (m : N) s,
            scan_sign (skip_ws s) = (neg, digits m ++ String c r) ->
            signed neg (Z.of_N m) = n ->
            scan_d s = Conv n (String c r)).
  { intros neg m s Hs Hv. unfold scan_d. rewrite Hs. unfold digits.
    rewrite scan_digits_numeral by (now apply sep_not_digit).
    pose proof (to_uint_nonnil m) as Hnn.
    rewrite DecimalN.Unsigned.of_to, Hv.
    destruct (N.to_uint m); [contradiction| ..];
      (destruct (Z.leb_spec INT_MIN n); [|lia]);
      (destruct (Z.leb_spec n INT_MAX); [|lia]); reflexivity. }
  assert (Hfirst : forall m, exists d t, digits m = String d t /\ is_digit d = true).
  { intros m. unfold digits. pose proof (to_uint_nonnil m).
    destruct (N.to_uint m); [contradiction| ..]; simpl; eexists _, _; split; reflexivity. }
  destruct n as [|p|p].
  - apply (Hgen false 0%N); reflexivity.
  - apply (Hgen false (Npos p)); [|reflexivity].
    cbn [fmt_d Z.to_N]. destruct (Hfirst (Npos p)) as (d & t & -> & Hd).
    cbn [append]. revert Hd. clear.
    destruct d as [[] [] [] [] [] [] [] []]; intros Hd; try discriminate Hd; reflexivity.
  - apply (Hgen true (Npos p)); reflexivity.
Qed.
Lemma scan_s_fits (cap : Z) (s t r : string) :
  scan_s cap s = Conv t r -> Z.of_nat (String.length t) < cap.
Proof.
  unfold scan_s. destruct (span_token (skip_ws s)) as [t' r'].
  destruct t'; [discriminate|].
  destruct (Z.leb_spec cap (Z.of_nat (String.length (String a t')))); [discriminate|].
  intros [= <- _]. assumption.
Qed.

Lemma is_digit_cases (d : ascii) :
  is_digit d = true ->
  d = "0"%char \/ d = "1"%char \/ d = "2"%char \/ d = "3"%char \/ d = "4"%char \/
  d = "5"%char \/ d = "6"%char \/ d = "7"%char \/ d = "8"%char \/ d = "9"%char.
Proof.
  destruct d as [[] [] [] [] [] [] [] []]; intros H; try discriminate H; auto 20.
Qed.

(** A numeral that starts with a digit, is not the [0x] of a hexadecimal
    one, and has an optional sign in front, is read as a decimal one. *)
Lemma scan_lf_decimal (neg : bool) (d : ascii) (t : string) :
  is_digit d = true ->
  match t with String c _ => eq_ascii (tolower c) "x" = false | EmptyString => True end ->
  scan_lf (sign_text neg ++ String d t) = scan_decimal neg (String d t).
Proof.
  intros Hd Ht.
  destruct (is_digit_cases d Hd) as [->|[->|[->|[->|[->|[->|[->|[->|[->| ->]]]]]]]]];
    destruct neg; try reflexivity;
    destruct t as [|c t]; try reflexivity;
    unfold scan_lf; cbn [sign_text append skip_ws isspace scan_sign starts_with];
    simpl; rewrite Ht; reflexivity.
Qed.

Lemma scan_two_digits (n : N) (c : ascii) (r : string) :
  (n < 100)%N -> is_sep c ->
  scan_digits (two_digits n ++ String c r) = (fraction_numeral n, String c r) /\
  Decimal.nb_digits (fraction_numeral n) = 2%nat /\
  N.of_uint (fraction_numeral n) = n.
Proof.
  intros Hn Hc.
  replace n with (N.of_nat (N.to_nat n)) by lia.
  assert (Hk : (N.to_nat n < 100)%nat) by lia.
  revert Hk. generalize (N.to_nat n). clear Hn n. intros k Hk.
  destruct Hc as [-> | ->];
    do 100 (destruct k as [|k]; [vm_compute; repeat split|]); lia.
Qed.

Lemma scan_decimal_cents (neg : bool) (q n : N) (c : ascii) (r : string) :
  (n < 100)%N -> is_sep c ->
  scan_decimal neg (digits q ++ "." ++ two_digits n ++ String c r) =
  Conv (double_of_decimal neg (q * 100 + n) (-2)) (String c r).
Proof.
  intros Hn Hc. unfold scan_decimal, digits.
  rewrite scan_digits_numeral by reflexivity.
  cbn [append].
  destruct (scan_two_digits n c r Hn Hc) as (-> & Hnb & Hval).
  pose proof (to_uint_nonnil q) as Hq.
  rewrite Hnb, Hval, DecimalN.Unsigned.of_to.
  assert (Hex : scan_exponent "e" (String c r) = Conv 0 (String c r)).
  { destruct Hc as [-> | ->]; reflexivity. }
  rewrite Hex.
  destruct (N.to_uint q); [contradiction| ..]; reflexivity.
Qed.

Lemma digits_first (q : N) :
  exists d t, digits q = String d t /\ is_digit d = true /\
    match t ++ "." with String c _ => eq_ascii (tolower c) "x" = false | EmptyString => True end.
Proof.
  unfold digits. pose proof (to_uint_nonnil q) as Hq.
  destruct (N.to_uint q) as [|u|u|u|u|u|u|u|u|u|u]; [contradiction| ..];
    cbn [NilEmpty.string_of_uint]; eexists _, _; (split; [reflexivity|]);
    (split; [reflexivity|]); destruct u; reflexivity.
Qed.

Lemma scan_lf_cents (neg : bool) (n : N) (c : ascii) (r : string) :
  is_sep c ->
  scan_lf (fmt_cents neg n ++ String c r) =
  Conv (double_of_decimal neg n (-2)) (String c r).
Proof.
  intros Hc. unfold fmt_cents.
  assert (Hn : (n = n / 100 * 100 + n mod 100)%N).
  { rewrite N.mul_comm. apply N.div_mod. discriminate. }
  assert (Hr : (n mod 100 < 100)%N) by (apply N.mod_lt; discriminate).
  rewrite Hn at 3.
  rewrite <- (scan_decimal_cents neg (n / 100) (n mod 100) c r Hr Hc).
  destruct (digits_first (n / 100)) as (d & t & Hd & Hdig & Hx).
  rewrite !append_assoc. rewrite Hd. cbn [append].
  rewrite <- (scan_lf_decimal neg d _ Hdig); [reflexivity|].
  destruct t; [reflexivity | exact Hx].
Qed.

(** [%lf] reads back the double of the two decimals that [%.2f] wrote. *)
Lemma scan_lf_fmt_2f (x : float) (c : ascii) (r : string) :
  is_sep c ->
  scan_lf (fmt_2f x ++ String c r) = Conv (dec2 x) (String c r).
Proof.
  intros Hc. unfold fmt_2f, dec2.
  destruct (Prim2SF x) as [s|s| |s m e].
  - apply scan_lf_cents, Hc.
  - destruct s, Hc as [-> | ->]; reflexivity.
  - destruct Hc as [-> | ->]; reflexivity.
  - apply scan_lf_cents, Hc.
Qed.

End TextFacts.
Import TextFacts.

(** ** Facts about the functions *)

Module Steps.

Lemma slot_Some (i : Z) (l : list Transaction) :
  0 <= i < Z.of_nat (length l) -> exists t, slot i l = Some t /\ l !! Z.to_nat i = Some t.
Proof.
  intros H. unfold slot. destruct (Z.ltb_spec i 0); [lia|].
  destruct (lookup_lt_is_Some_2 l (Z.to_nat i)) as [t Ht]; [lia|]. eauto.
Qed.

Lemma save_txs_spec (k : nat) : forall (i : Z) (atm : ATMData) sin sout d w,
  0 <= i -> i + Z.of_nat k <= Z.of_nat (length (txs atm)) ->
  save_txs (seqZ i (Z.of_nat k)) atm (mkEnv sin sout (Some d) w) =
  Ret tt atm
    (mkEnv sin sout
       (Some (d ++ tx_lines
                     (take (Z.to_nat (Z.min (tx_count atm - i) (Z.of_nat k)))
                        (drop (Z.to_nat i) (txs atm)))))
       w).
Proof.
  induction k as [|k IH]; intros i atm sin sout d w Hi Hlen.
  - simpl. unfold ret. replace (Z.to_nat _) with 0%nat by lia.
    simpl. now rewrite append_nil_r.
  - rewrite Nat2Z.inj_succ, seqZ_cons by lia.
    replace (Z.pred (Z.succ (Z.of_nat k))) with (Z.of_nat k) by lia.
    cbn [save_txs]. unfold bind at 1. unfold get_atm at 1.
    destruct (Z.ltb_spec i (tx_count atm)) as [Hlt|Hge].
    + destruct (slot_Some i (txs atm)) as (t & Hs & Hl); [lia|].
      unfold bind at 1. unfold read_tx at 1. rewrite Hs.
      unfold bind at 1. unfold fprintf at 1. cbn [disk stdin stdout writable].
      rewrite IH by lia. f_equal. f_equal. f_equal.
      rewrite append_assoc. f_equal.
      replace (Z.to_nat (Z.min (tx_count atm - i) (Z.succ (Z.of_nat k))))
        with (S (Z.to_nat (Z.min (tx_count atm - Z.succ i) (Z.of_nat k)))) by lia.
      rewrite (drop_S _ t (Z.to_nat i)) by exact Hl.
      cbn [take tx_lines].
      replace (S (Z.to_nat i)) with (Z.to_nat (Z.succ i)) by lia.
      reflexivity.
    + unfold ret. replace (Z.to_nat _) with 0%nat by lia.
      simpl. now rewrite append_nil_r.
Qed.

Lemma save_data_spec (atm : ATMData) (e : Env) :
  array_ok atm ->
  save_data atm e =
  Ret tt atm
    (if writable e
     then mkEnv (stdin e) (stdout e) (Some (file_text atm)) true
     else mkEnv (stdin e) (stdout e ++ "Warning: Could not save data." ++ nl)
            (disk e) false).
Proof.
  intros Hok. unfold save_data, bind at 1, fopen_w.
  destruct (writable e) eqn:Hw; cbn [negb].
  - unfold bind at 1, get_atm at 1, bind at 1, fprintf at 1.
    cbn [disk stdin stdout writable].
    change MAX_TX with (Z.of_nat 10).
    rewrite save_txs_spec; [|lia|rewrite Hok; unfold MAX_TX; lia].
    unfold file_text, saved_txs, header_line. simpl drop.
    rewrite Z.sub_0_r. reflexivity.
  - unfold printf. now rewrite Hw.
Qed.

Lemma write_tx_spec (i : Z) (t : Transaction) (atm : ATMData) (e : Env) :
  0 <= i < Z.of_nat (length (txs atm)) ->
  write_tx i t atm e =
  Ret tt (mkATMData (balance atm) (pin atm) (<[Z.to_nat i := t]> (txs atm)) (tx_count atm)) e.
Proof.
  intros H. unfold write_tx, bind, get_atm.
  destruct (slot_Some i (txs atm) H) as (t0 & -> & _). reflexivity.
Qed.

Lemma add_transaction_below (ty : string) (amt : float) (atm : ATMData) (e : Env) :
  Z.of_nat (String.length ty) < TYPE_LENGTH ->
  0 <= tx_count atm < Z.of_nat (length (txs atm)) ->
  tx_count atm < MAX_TX ->
  add_transaction ty amt atm e =
  Ret tt
    (mkATMData (balance atm) (pin atm)
       (<[Z.to_nat (tx_count atm) := mkTransaction ty amt]> (txs atm))
       (tx_count atm + 1)) e.
Proof.
  intros Hty Hn Hlt. unfold add_transaction, bind at 1, get_atm at 1.
  destruct (Z.ltb_spec (tx_count atm) MAX_TX); [|lia].
  unfold bind, store_tx. destruct (Z.leb_spec TYPE_LENGTH (Z.of_nat (String.length ty))); [lia|].
  rewrite write_tx_spec by lia. reflexivity.
Qed.

Lemma add_transaction_full (ty : string) (amt : float) (atm : ATMData) (e : Env) :
  Z.of_nat (String.length ty) < TYPE_LENGTH ->
  array_ok atm ->
  MAX_TX <= tx_count atm ->
  add_transaction ty amt atm e =
  Ret tt
    (mkATMData (balance atm) (pin atm)
       (drop 1 (txs atm) ++ [mkTransaction ty amt])%list
       (tx_count atm)) e.
Proof.
  intros Hty Hok Hge. unfold add_transaction, bind at 1, get_atm at 1.
  destruct (Z.ltb_spec (tx_count atm) MAX_TX); [lia|].
  destruct atm as [b p l n]. unfold array_ok in Hok. cbn [txs] in Hok.
  do 10 (destruct l as [|? l]; [discriminate Hok|]).
  destruct l; [|discriminate Hok].
  unfold store_tx. destruct (Z.leb_spec TYPE_LENGTH (Z.of_nat (String.length ty))); [lia|].
  reflexivity.
Qed.

Lemma add_transaction_pushed (ty : string) (amt : float) (atm : ATMData) (e : Env) :
  Z.of_nat (String.length ty) < TYPE_LENGTH ->
  array_ok atm -> 0 <= tx_count atm ->
  exists atm',
    add_transaction ty amt atm e = Ret tt atm' e /\
    balance atm' = balance atm /\ pin atm' = pin atm /\ array_ok atm' /\
    pushed atm (mkTransaction ty amt) atm'.
Proof.
  intros Hty Hok Hn. pose proof Hok as Hlen. unfold array_ok in Hlen.
  destruct (Z.lt_ge_cases (tx_count atm) MAX_TX) as [Hlt|Hge].
  - eexists. split; [apply add_transaction_below; unfold MAX_TX in *; lia|].
    cbn [balance pin]. split; [reflexivity|]. split; [reflexivity|]. split.
    { unfold array_ok. cbn [txs]. now rewrite length_insert. }
    split; [|lia]. intros _. split; [reflexivity|].
    unfold ledger. cbn [txs tx_count].
    replace (Z.to_nat (tx_count atm + 1)) with (S (Z.to_nat (tx_count atm))) by lia.
    rewrite (take_S_r _ _ (mkTransaction ty amt)).
    + rewrite take_insert_ge by lia. reflexivity.
    + apply list_lookup_insert_eq. unfold MAX_TX in *. lia.
  - eexists. split; [apply add_transaction_full; assumption|].
    cbn [balance pin]. split; [reflexivity|]. split; [reflexivity|].
    assert (Hlen' : length (drop 1 (txs atm) ++ [mkTransaction ty amt])%list = 10%nat).
    { rewrite length_app, length_drop, Hlen. reflexivity. }
    split; [exact Hlen'|].
    split; [lia|]. intros Heq. cbn [tx_count]. split; [exact Heq|].
    unfold ledger. cbn [txs tx_count]. rewrite Heq.
    rewrite !take_ge; [auto| rewrite Hlen; reflexivity | rewrite Hlen'; reflexivity].
Qed.

Lemma parse_txs_length (k : nat) : forall f l,
  parse_txs k f = Some l -> (length l <= k)%nat.
Proof.
  induction k as [|k IH]; intros f l; simpl.
  - intros [= <-]. simpl. lia.
  - destruct (scan_s TYPE_LENGTH f) as [ty f1|?|]; [|intros [= <-]; simpl; lia|discriminate].
    destruct (scan_lf (skip_ws f1)) as [amt f2|?|]; [|intros [= <-]; simpl; lia|discriminate].
    destruct (parse_txs k f2) as [l'|] eqn:E; [|discriminate].
    intros [= <-]. simpl. apply IH in E. lia.
Qed.

Lemma overwrite_nil i l : overwrite i [] l = l.
Proof. unfold overwrite. simpl. rewrite Nat.add_0_r. apply take_drop. Qed.

Lemma overwrite_cons i t recs l :
  (i < length l)%nat ->
  overwrite (S i) recs (<[i := t]> l) = overwrite i (t :: recs) l.
Proof.
  intros Hi. unfold overwrite.
  rewrite (take_S_r _ _ t) by (now apply list_lookup_insert_eq).
  rewrite take_insert_ge by lia. rewrite drop_insert_lt by lia.
  replace (i + length (t :: recs))%nat with (S i + length recs)%nat by (simpl; lia).
  rewrite <- app_assoc. reflexivity.
Qed.

Lemma load_txs_spec (k : nat) : forall (i : Z) (f : string) (atm : ATMData) (e : Env),
  0 <= i -> i + Z.of_nat k <= Z.of_nat (length (txs atm)) ->
  load_txs (seqZ i (Z.of_nat k)) f atm e =
  match parse_txs (Z.to_nat (Z.min (tx_count atm - i) (Z.of_nat k))) f with
  | Some recs =>
      Ret tt (mkATMData (balance atm) (pin atm)
                (overwrite (Z.to_nat i) recs (txs atm)) (tx_count atm)) e
  | None => Undef
  end.
Proof.
  induction k as [|k IH]; intros i f atm e Hi Hlen.
  - replace (Z.to_nat _) with 0%nat by lia. simpl. rewrite overwrite_nil.
    destruct atm; reflexivity.
  - rewrite Nat2Z.inj_succ, seqZ_cons by lia.
    replace (Z.pred (Z.succ (Z.of_nat k))) with (Z.of_nat k) by lia.
    cbn [load_txs]. unfold bind at 1. unfold get_atm at 1.
    destruct (Z.ltb_spec i (tx_count atm)) as [Hlt|Hge].
    + replace (Z.to_nat (Z.min (tx_count atm - i) (Z.succ (Z.of_nat k))))
        with (S (Z.to_nat (Z.min (tx_count atm - Z.succ i) (Z.of_nat k)))) by lia.
      cbn [parse_txs].
      destruct (scan_s TYPE_LENGTH f) as [ty f1|?|] eqn:Hty;
        [| rewrite overwrite_nil; destruct atm; reflexivity | reflexivity].
      destruct (scan_lf (skip_ws f1)) as [amt f2|?|];
        [| rewrite overwrite_nil; destruct atm; reflexivity | reflexivity].
      apply scan_s_fits in Hty.
      unfold bind at 1, store_tx.
      destruct (Z.leb_spec TYPE_LENGTH (Z.of_nat (String.length ty))); [lia|].
      rewrite write_tx_spec by lia.
      rewrite IH; cbn [txs tx_count balance pin]; [| lia | rewrite length_insert; lia].
      destruct (parse_txs _ f2) as [recs|]; [|reflexivity].
      replace (Z.to_nat (Z.succ i)) with (S (Z.to_nat i)) by lia.
      rewrite overwrite_cons by lia. reflexivity.
    + replace (Z.to_nat _) with 0%nat by lia. simpl. rewrite overwrite_nil.
      destruct atm; reflexivity.
Qed.

Lemma load_data_parsed
    (atm : ATMData) (e : Env) (f f1 f2 f3 : string)
    (b : float) (p : string) (n : Z) (recs : list Transaction) :
  array_ok atm ->
  disk e = Some f ->
  scan_lf f = Conv b f1 ->
  scan_s PIN_LENGTH (skip_ws f1) = Conv p f2 ->
  scan_d (skip_ws f2) = Conv n f3 ->
  parse_txs (Z.to_nat (Z.min n MAX_TX)) f3 = Some recs ->
  load_data atm e = Ret 1 (mkATMData b p (overwrite 0 recs (txs atm)) n) e.
Proof.
  intros Hok Hd Hb Hp Hn Hrecs.
  unfold load_data. rewrite Hd. unfold fscanf_header. rewrite Hb.
  unfold bind at 1, bind at 1, set_balance at 1. rewrite Hp.
  unfold bind at 1, strcpy_pin at 1.
  apply scan_s_fits in Hp.
  destruct (Z.leb_spec PIN_LENGTH (Z.of_nat (String.length p))); [lia|].
  rewrite Hn. unfold bind at 1, set_tx_count at 1, ret at 1.
  cbn [fst snd Z.eqb negb Pos.eqb]. unfold bind at 1.
  change MAX_TX with (Z.of_nat 10).
  rewrite load_txs_spec; cbn [txs tx_count balance pin];
    [| lia | rewrite Hok; unfold MAX_TX; lia].
  rewrite Z.sub_0_r. change (Z.of_nat 10) with MAX_TX. rewrite Hrecs. reflexivity.
Qed.

Lemma verify_pin_accepts (atm : ATMData) (e : Env) (r : string) :
  scan_s PIN_LENGTH (stdin e) = Conv (pin atm) r ->
  verify_pin atm e = Ret 1 atm (mkEnv r (stdout e ++ "Enter PIN: ") (disk e) (writable e)).
Proof.
  intros H. unfold verify_pin. cbn [verify_pin_tries].
  unfold bind, printf, scanf, get_atm. cbn [stdin stdout disk writable].
  rewrite H, String.eqb_refl. reflexivity.
Qed.

Lemma verify_pin_tries_rejects (c : string) (n : nat) : forall (atm : ATMData) (e : Env),
  c <> pin atm ->
  attempts_are c n (stdin e) = true ->
  exists e', verify_pin_tries n atm e = Ret 0 atm e'.
Proof.
  induction n as [|n IH]; intros atm e Hne Hall.
  - eexists. reflexivity.
  - cbn [verify_pin_tries attempts_are] in *.
    unfold bind at 1, printf at 1, bind at 1, scanf at 1. cbn [stdin stdout disk writable].
    destruct (scan_s PIN_LENGTH (stdin e)) as [t r| |]; [| eexists; reflexivity | discriminate].
    apply andb_true_iff in Hall as [Ht Hall]. apply String.eqb_eq in Ht. subst t.
    unfold bind at 1, get_atm at 1.
    destruct (String.eqb_spec c (pin atm)) as [|_]; [contradiction|].
    unfold bind at 1, printf at 1.
    match goal with |- context [verify_pin_tries n atm ?x] =>
      destruct (IH atm x Hne) as (e' & ->); [exact Hall|] end.
    eexists. reflexivity.
Qed.

(** The lines of [recs], after the newline that ends the line before them,
    read back as [recs] with their amounts rounded. *)
Lemma parse_txs_lines (recs : list Transaction) :
  forallb (fun t => is_token TYPE_LENGTH (type t)) recs = true ->
  parse_txs (length recs) (nl ++ tx_lines recs) = Some (map round_tx recs).
Proof.
  induction recs as [|t recs IH]; intros Hok; [reflexivity|].
  cbn [forallb] in Hok. apply andb_true_iff in Hok as [Ht Hok].
  cbn [length parse_txs tx_lines map]. unfold nl at 1. cbn [append].
  rewrite (scan_s_sep _ _ _ sep_nl). unfold tx_line.
  rewrite !append_assoc. cbn [append].
  rewrite (scan_s_token _ _ _ _ Ht sep_space).
  rewrite scan_lf_skip_ws, (scan_lf_sep _ _ sep_space).
  unfold nl at 1. cbn [append].
  rewrite (scan_lf_fmt_2f _ _ _ sep_nl).
  change (String (ascii_of_nat 10) (tx_lines recs)) with (nl ++ tx_lines recs).
  rewrite (IH Hok). reflexivity.
Qed.

Lemma saved_txs_length (atm : ATMData) :
  array_ok atm ->
  length (saved_txs atm) = Z.to_nat (Z.min (tx_count atm) MAX_TX).
Proof.
  intros Hok. unfold saved_txs. rewrite length_take, Hok. unfold MAX_TX. lia.
Qed.

Lemma ledger_overwrite (atm atm0 : ATMData) (recs : list Transaction) :
  array_ok atm -> array_ok atm0 ->
  length recs = length (saved_txs atm) ->
  take (Z.to_nat (tx_count atm)) (overwrite 0 recs (txs atm0)) =
  take (Z.to_nat (tx_count atm)) recs.
Proof.
  intros Hok Hok0 Hlen. rewrite (saved_txs_length _ Hok) in Hlen.
  unfold overwrite. rewrite take_0. cbn [app Nat.add].
  destruct (Z.le_gt_cases (tx_count atm) MAX_TX) as [Hle|Hgt].
  - unfold array_ok, MAX_TX in *. rewrite take_app_le by lia. reflexivity.
  - unfold array_ok, MAX_TX in *. rewrite drop_ge by lia.
    now rewrite app_nil_r.
Qed.

(** *** The paths of [deposit] and [withdraw] *)

Lemma deposit_invalid (atm : ATMData) (e : Env) (a : float) (rest : string) :
  scan_lf (stdin e) = Conv a rest ->
  (a <=? 0)%float = true ->
  deposit atm e =
    (let out := stdout e ++ "Enter amount to deposit: " ++ "Invalid amount." ++ nl in
     match after_newline rest with
     | Some r => Ret tt atm (mkEnv r out (disk e) (writable e))
     | None => Hang atm (mkEnv "" out (disk e) (writable e))
     end).
Proof.
  intros Hscan Hle. unfold deposit, bind, printf, scanf, drain_line.
  cbn [stdin stdout disk writable]. rewrite Hscan, Hle.
  cbn [stdin stdout disk writable]. rewrite append_assoc.
  destruct (after_newline rest); reflexivity.
Qed.

Lemma withdraw_invalid (atm : ATMData) (e : Env) (a : float) (rest : string) :
  scan_lf (stdin e) = Conv a rest ->
  (a <=? 0)%float = true ->
  withdraw atm e =
    (let out := stdout e ++ "Enter amount to withdraw: " ++ "Invalid amount." ++ nl in
     match after_newline rest with
     | Some r => Ret tt atm (mkEnv r out (disk e) (writable e))
     | None => Hang atm (mkEnv "" out (disk e) (writable e))
     end).
Proof.
  intros Hscan Hle. unfold withdraw, bind, printf, scanf, drain_line.
  cbn [stdin stdout disk writable]. rewrite Hscan, Hle.
  cbn [stdin stdout disk writable]. rewrite append_assoc.
  destruct (after_newline rest); reflexivity.
Qed.

Lemma withdraw_insufficient (atm : ATMData) (e : Env) (a : float) (rest : string) :
  scan_lf (stdin e) = Conv a rest ->
  (a <=? 0)%float = false ->
  (balance atm <? a)%float = true ->
  withdraw atm e =
  Ret tt atm
    (mkEnv rest
       (stdout e ++ "Enter amount to withdraw: "
        ++ "Insufficient funds. Current balance: " ++ fmt_2f (balance atm) ++ nl)
       (disk e) (writable e)).
Proof.
  intros Hscan Hpos Hgt.
  unfold withdraw, bind, printf, scanf, get_atm. cbn [stdin stdout disk writable].
  rewrite Hscan, Hpos, Hgt. cbn [stdin stdout disk writable].
  now rewrite append_assoc.
Qed.

(** Past its test [amount <= 0], [deposit] commits. *)
Lemma deposit_commits (atm : ATMData) (e : Env) (a : float) (rest : string) :
  array_ok atm -> 0 <= tx_count atm ->
  scan_lf (stdin e) = Conv a rest ->
  (a <=? 0)%float = false ->
  exists atm' e',
    deposit atm e = Ret tt atm' e' /\
    balance atm' = (balance atm + a)%float /\
    pushed atm (mkTransaction "Deposit" a) atm'.
Proof.
  intros Hok Hn Hscan Hpos.
  unfold deposit, bind at 1, printf at 1, bind at 1, scanf at 1.
  cbn [stdin stdout disk writable]. rewrite Hscan, Hpos.
  unfold bind at 1, get_atm at 1, bind at 1, set_balance at 1, bind at 1.
  match goal with |- context [add_transaction ?ty ?amt ?s ?x] =>
    destruct (add_transaction_pushed ty amt s x)
      as (atm' & -> & Hb & Hp & Hok' & Hpush);
      [vm_compute; reflexivity | exact Hok | exact Hn |] end.
  unfold bind at 1, printf at 1. rewrite save_data_spec by exact Hok'.
  eexists _, _. split; [reflexivity|]. split; [exact Hb | exact Hpush].
Qed.

(** Past its tests [amount <= 0] and [amount > atm->balance], [withdraw]
    commits. *)
Lemma withdraw_commits (atm : ATMData) (e : Env) (a : float) (rest : string) :
  array_ok atm -> 0 <= tx_count atm ->
  scan_lf (stdin e) = Conv a rest ->
  (a <=? 0)%float = false ->
  (balance atm <? a)%float = false ->
  exists atm' e',
    withdraw atm e = Ret tt atm' e' /\
    balance atm' = (balance atm - a)%float /\
    pushed atm (mkTransaction "Withdraw" a) atm'.
Proof.
  intros Hok Hn Hscan Hpos Hle.
  unfold withdraw, bind at 1, printf at 1, bind at 1, scanf at 1.
  cbn [stdin stdout disk writable]. rewrite Hscan, Hpos.
  unfold bind at 1, get_atm at 1. rewrite Hle.
  unfold bind at 1, set_balance at 1, bind at 1.
  match goal with |- context [add_transaction ?ty ?amt ?s ?x] =>
    destruct (add_transaction_pushed ty amt s x)
      as (atm' & -> & Hb & Hp & Hok' & Hpush);
      [vm_compute; reflexivity | exact Hok | exact Hn |] end.
  unfold bind at 1, printf at 1. rewrite save_data_spec by exact Hok'.
  eexists _, _. split; [reflexivity|]. split; [exact Hb | exact Hpush].
Qed.

(** From a balance that is zero or above, an amount that is a number (not
    a NaN) leaves the balance zero or above: [deposit] always, [withdraw]
    when the amount is finite. What is left out is the NaN that
    [amount <= 0] lets through, and [inf - inf]. *)
Lemma number_keeps_balance (atm : ATMData) (e : Env) (a : float) (rest : string) :
  array_ok atm -> 0 <= tx_count atm ->
  (0 <=? balance atm)%float = true ->
  scan_lf (stdin e) = Conv a rest ->
  (a <=? 0)%float = true \/ (0 <? a)%float = true ->
  ends_with (fun atm' => (0 <=? balance atm')%float = true) (deposit atm e) /\
  ((a <? infinity)%float = true ->
   ends_with (fun atm' => (0 <=? balance atm')%float = true) (withdraw atm e)).
Proof.
  intros Hok Hn Hb Hscan [Hle|Hpos].
  - rewrite (deposit_invalid _ _ _ _ Hscan Hle), (withdraw_invalid _ _ _ _ Hscan Hle).
    cbn zeta. destruct (after_newline rest); split; intros; exact Hb.
  - pose proof (ltb_leb_false _ _ Hpos) as Hnle. split.
    + destruct (deposit_commits atm e a rest Hok Hn Hscan Hnle)
        as (atm' & e' & -> & Hbal & _).
      cbn [ends_with]. rewrite Hbal. now apply add_nonneg.
    + intros Hfin. destruct (balance atm <? a)%float eqn:Hlt.
      * rewrite (withdraw_insufficient _ _ _ _ Hscan Hnle Hlt). exact Hb.
      * destruct (withdraw_commits atm e a rest Hok Hn Hscan Hnle Hlt)
          as (atm' & e' & -> & Hbal & _).
        cbn [ends_with]. rewrite Hbal.
        apply sub_nonneg; [exact Hpos | now apply not_ltb_leb | exact Hfin].
Qed.

End Steps.
Import Steps.

(** ** The input only gets shorter *)

Module Input.

Lemma skip_ws_le (s : string) : (String.length (skip_ws s) <= String.length s)%nat.
Proof.
  induction s as [|c s IH]; simpl; [lia|]. destruct (isspace c); simpl; lia.
Qed.

Lemma span_token_le (s : string) :
  (String.length (snd (span_token s)) <= String.length s)%nat.
Proof.
  induction s as [|c s IH]; simpl; [lia|].
  destruct (isspace c); simpl; [lia|].
  destruct (span_token s); simpl in *; lia.
Qed.

Lemma scan_digits_le (s : string) :
  (String.length (snd (scan_digits s)) <= String.length s)%nat /\
  (fst (scan_digits s) <> Decimal.Nil ->
   (String.length (snd (scan_digits s)) < String.length s)%nat).
Proof.
  induction s as [|c s [IH _]]; simpl; [split; [lia | congruence]|].
  destruct (digit_of c); simpl; [|split; [lia | congruence]].
  destruct (scan_digits s); simpl in *. split; intros; lia.
Qed.

Lemma scan_sign_le (s : string) :
  (String.length (snd (scan_sign s)) <= String.length s)%nat.
Proof.
  destruct s as [|c s]; simpl; [lia|].
  destruct c as [[] [] [] [] [] [] [] []]; simpl; lia.
Qed.

Lemma scan_s_le (cap : Z) (s : string) : rest_le (scan_s cap s) s.
Proof.
  unfold scan_s. pose proof (skip_ws_le s). pose proof (span_token_le (skip_ws s)).
  destruct (span_token (skip_ws s)) as [t r]. simpl in *.
  destruct t; simpl; [lia|]. destruct (cap <=? _); simpl; [exact I | lia].
Qed.

(** A [%d] that stores has read a digit. *)
Lemma scan_d_lt (s : string) :
  match scan_d s with
  | Conv _ r => (String.length r < String.length s)%nat
  | NoConv r => (String.length r <= String.length s)%nat
  | Overrun => True
  end.
Proof.
  unfold scan_d. pose proof (skip_ws_le s). pose proof (scan_sign_le (skip_ws s)).
  destruct (scan_sign (skip_ws s)) as [neg r1]. simpl in *.
  pose proof (scan_digits_le r1) as [Hle Hlt].
  destruct (scan_digits r1) as [u r2]. simpl in *.
  destruct u; [lia| ..];
    (destruct (_ && _); [specialize (Hlt ltac:(discriminate)); lia | exact I]).
Qed.

Lemma rest_le_trans {A} (c : conv A) (s s' : string) :
  rest_le c s -> (String.length s <= String.length s')%nat -> rest_le c s'.
Proof. destruct c; simpl; intros; lia || exact I. Qed.

Lemma scan_exponent_le (mark : ascii) (s : string) : rest_le (scan_exponent mark s) s.
Proof.
  unfold scan_exponent. destruct s as [|c s]; simpl; [lia|].
  destruct (eq_ascii (tolower c) mark); simpl; [|lia].
  pose proof (scan_sign_le s). destruct (scan_sign s) as [neg r1]. simpl in *.
  pose proof (scan_digits_le r1) as [Hle _].
  destruct (scan_digits r1) as [u r2]. simpl in *. destruct u; simpl; lia.
Qed.

Lemma scan_decimal_le (neg : bool) (s : string) : rest_le (scan_decimal neg s) s.
Proof.
  unfold scan_decimal. pose proof (scan_digits_le s) as [H1 _].
  destruct (scan_digits s) as [ip r1]. simpl in H1.
  assert (H2 : forall fp r2,
            (match r1 with
             | String "." r => scan_digits r
             | _ => (Decimal.Nil, r1)
             end) = (fp, r2) -> (String.length r2 <= String.length s)%nat).
  { intros fp r2 E. destruct r1 as [|c r]; [injection E as _ <-; lia|].
    assert (Hc : (String.length r <= String.length (String c r))%nat) by (simpl; lia).
    pose proof (scan_digits_le r) as [H _].
    destruct c as [[] [] [] [] [] [] [] []];
      try (injection E as _ <-; lia);
      rewrite E in H; simpl in *; lia. }
  destruct (match r1 with String "." r => scan_digits r | _ => (Decimal.Nil, r1) end)
    as [fp r2] eqn:E.
  specialize (H2 fp r2 eq_refl).
  pose proof (scan_exponent_le "e" r2) as H3.
  destruct ip, fp; simpl; try lia;
    (destruct (scan_exponent "e" r2); simpl in *; lia || exact I).
Qed.

Lemma scan_hexdigits_le (s : string) : forall acc n,
  (String.length (snd (scan_hexdigits acc n s)) <= String.length s)%nat.
Proof.
  induction s as [|c s IH]; intros acc n; simpl; [lia|].
  destruct (hexdigit_of c); simpl; [|lia]. specialize (IH (16 * acc + n0)%N (S n)). lia.
Qed.

Lemma scan_hex_le (neg : bool) (s : string) : rest_le (scan_hex neg s) s.
Proof.
  unfold scan_hex. pose proof (scan_hexdigits_le s 0%N O) as H1.
  destruct (scan_hexdigits 0 0 s) as [[ip ni] r1]. simpl in H1.
  assert (H2 : forall m nf r2,
            (match r1 with
             | String "." r => scan_hexdigits ip O r
             | _ => (ip, O, r1)
             end) = (m, nf, r2) -> (String.length r2 <= String.length s)%nat).
  { intros m nf r2 E. destruct r1 as [|c r]; [injection E as _ _ <-; lia|].
    pose proof (scan_hexdigits_le r ip O) as H.
    destruct c as [[] [] [] [] [] [] [] []];
      try (injection E as _ _ <-; lia);
      rewrite E in H; simpl in *; lia. }
  destruct (match r1 with String "." r => scan_hexdigits ip O r | _ => (ip, O, r1) end)
    as [[m nf] r2] eqn:E.
  specialize (H2 m nf r2 eq_refl).
  pose proof (scan_exponent_le "p" r2) as H3.
  destruct ni, nf; simpl; try lia;
    (destruct (scan_exponent "p" r2); simpl in *; lia || exact I).
Qed.

Lemma scan_word_le (w : string) : forall s,
  (String.length (snd (scan_word w s)) <= String.length s)%nat.
Proof.
  induction w as [|a w IH]; intros s; simpl; [lia|].
  destruct s as [|c s]; simpl; [lia|].
  destruct (eq_ascii (tolower c) a); simpl; [|lia]. specialize (IH s). lia.
Qed.

Lemma skip_nchars_le (s : string) :
  (String.length (skip_nchars s) <= String.length s)%nat.
Proof.
  induction s as [|c s IH]; simpl; [lia|]. destruct (is_nchar c); simpl; lia.
Qed.

Lemma scan_inf_le (neg : bool) (s : string) : rest_le (scan_inf neg s) s.
Proof.
  unfold scan_inf. pose proof (scan_word_le "inf" s) as H1.
  destruct (scan_word "inf" s) as [[] r]; simpl in H1; [|simpl; lia].
  destruct (starts_with "i" r); [|simpl; lia].
  pose proof (scan_word_le "inity" r) as H2.
  destruct (scan_word "inity" r) as [[] r']; simpl in *; lia.
Qed.

Lemma scan_nan_le (s : string) : rest_le (scan_nan s) s.
Proof.
  unfold scan_nan. pose proof (scan_word_le "nan" s) as H1.
  destruct (scan_word "nan" s) as [[] r]; simpl in H1; [|simpl; lia].
  destruct r as [|c r1]; [simpl; lia|].
  pose proof (skip_nchars_le r1) as H2.
  destruct c as [[] [] [] [] [] [] [] []]; try (simpl in *; lia).
  destruct (skip_nchars r1) as [|c2 r2]; [simpl in *; lia|].
  destruct c2 as [[] [] [] [] [] [] [] []]; simpl in *; lia.
Qed.

Lemma scan_lf_le (s : string) : rest_le (scan_lf s) s.
Proof.
  unfold scan_lf. pose proof (skip_ws_le s). pose proof (scan_sign_le (skip_ws s)).
  destruct (scan_sign (skip_ws s)) as [neg r]. simpl in *.
  assert (Hr : (String.length r <= String.length s)%nat) by lia.
  destruct (starts_with "i" r); [exact (rest_le_trans _ _ _ (scan_inf_le neg r) Hr)|].
  destruct (starts_with "n" r); [exact (rest_le_trans _ _ _ (scan_nan_le r) Hr)|].
  destruct r as [|c0 r0]; [exact (rest_le_trans _ _ _ (scan_decimal_le neg _) Hr)|].
  destruct r0 as [|c1 r1];
    [destruct c0 as [[] [] [] [] [] [] [] []];
       exact (rest_le_trans _ _ _ (scan_decimal_le neg _) Hr)|].
  destruct (eq_ascii (tolower c1) "x") eqn:Ex.
  - destruct c0 as [[] [] [] [] [] [] [] []];
      try exact (rest_le_trans _ _ _ (scan_decimal_le neg _) Hr).
    apply (rest_le_trans _ r1); [apply scan_hex_le | simpl in *; lia].
  - destruct c0 as [[] [] [] [] [] [] [] []];
      exact (rest_le_trans _ _ _ (scan_decimal_le neg _) Hr).
Qed.


Lemma keeps_ret {A} (v : A) : keeps_input (ret v).
Proof. intros atm e v' atm' e' [= _ _ <-]. lia. Qed.

Lemma keeps_bind {A B} (m : M A) (k : A -> M B) :
  keeps_input m -> (forall x, keeps_input (k x)) -> keeps_input (bind m k).
Proof.
  intros Hm Hk atm e v atm' e' H. unfold bind in H.
  destruct (m atm e) as [x atm1 e1| |] eqn:E; try discriminate.
  specialize (Hm _ _ _ _ _ E). specialize (Hk x _ _ _ _ _ H). lia.
Qed.

Lemma keeps_same {A} (m : M A) :
  (forall atm e v atm' e', m atm e = Ret v atm' e' -> stdin e' = stdin e) ->
  keeps_input m.
Proof. intros H atm e v atm' e' E. rewrite (H _ _ _ _ _ E). lia. Qed.

Lemma keeps_printf (s : string) : keeps_input (printf s).
Proof. apply keeps_same. intros atm e v atm' e' [= _ _ <-]. reflexivity. Qed.

Lemma keeps_get_atm : keeps_input get_atm.
Proof. apply keeps_same. intros atm e v atm' e' [= _ _ <-]. reflexivity. Qed.

Lemma keeps_set_balance (b : float) : keeps_input (set_balance b).
Proof. apply keeps_same. intros atm e v atm' e' [= _ _ <-]. reflexivity. Qed.

Lemma keeps_set_tx_count (n : Z) : keeps_input (set_tx_count n).
Proof. apply keeps_same. intros atm e v atm' e' [= _ _ <-]. reflexivity. Qed.

Lemma keeps_set_txs (l : list Transaction) : keeps_input (set_txs l).
Proof. apply keeps_same. intros atm e v atm' e' [= _ _ <-]. reflexivity. Qed.

Lemma keeps_undefined {A} : keeps_input (@undefined A).
Proof. intros atm e v atm' e' H. discriminate H. Qed.

Lemma keeps_strcpy_pin (s : string) : keeps_input (strcpy_pin s).
Proof.
  apply keeps_same. intros atm e v atm' e'. unfold strcpy_pin.
  destruct (_ <=? _); [discriminate|]. intros [= _ _ <-]. reflexivity.
Qed.

Lemma keeps_read_tx (i : Z) : keeps_input (read_tx i).
Proof.
  apply keeps_same. intros atm e v atm' e'. unfold read_tx.
  destruct (slot i (txs atm)); [|discriminate]. intros [= _ _ <-]. reflexivity.
Qed.

Lemma keeps_write_tx (i : Z) (t : Transaction) : keeps_input (write_tx i t).
Proof.
  unfold write_tx. apply keeps_bind; [apply keeps_get_atm|]. intros atm.
  destruct (slot i (txs atm)); [apply keeps_set_txs | apply keeps_undefined].
Qed.

Lemma keeps_store_tx (i : Z) (ty : string) (amt : float) :
  keeps_input (store_tx i ty amt).
Proof.
  unfold store_tx. destruct (_ <=? _); [apply keeps_undefined | apply keeps_write_tx].
Qed.

Lemma keeps_fopen_w : keeps_input fopen_w.
Proof.
  apply keeps_same. intros atm e v atm' e'. unfold fopen_w.
  destruct (writable e); intros [= _ _ <-]; reflexivity.
Qed.

Lemma keeps_fprintf (s : string) : keeps_input (fprintf s).
Proof. apply keeps_same. intros atm e v atm' e' [= _ _ <-]. reflexivity. Qed.

Lemma keeps_scanf {A} (c : string -> conv A) :
  (forall s, rest_le (c s) s) -> keeps_input (scanf c).
Proof.
  intros Hc atm e v atm' e'. unfold scanf. specialize (Hc (stdin e)).
  destruct (c (stdin e)); try discriminate; intros [= _ _ <-]; exact Hc.
Qed.

Lemma after_newline_le (s r : string) :
  after_newline s = Some r -> (String.length r <= String.length s)%nat.
Proof.
  revert r. induction s as [|c s IH]; intros r; simpl; [discriminate|].
  destruct (eq_ascii c _); [intros [= <-]; lia|]. intros H. specialize (IH _ H). lia.
Qed.

Lemma keeps_drain_line : keeps_input drain_line.
Proof.
  intros atm e v atm' e'. unfold drain_line.
  destruct (after_newline (stdin e)) eqn:E; [|discriminate].
  intros [= _ _ <-]. simpl. now apply after_newline_le.
Qed.

Create HintDb keeps.
#[local] Hint Resolve keeps_ret keeps_printf keeps_get_atm keeps_set_balance
  keeps_set_tx_count keeps_set_txs keeps_undefined keeps_strcpy_pin
  keeps_read_tx keeps_write_tx keeps_store_tx keeps_fopen_w keeps_fprintf
  keeps_drain_line : keeps.

(** Splits a computation at its [bind]s, [if]s and [match]es. *)
Ltac keeps :=
  repeat first
    [ apply keeps_bind; [|intros ?]
    | solve [auto with keeps]
    | match goal with
      | |- keeps_input (if ?b then _ else _) => destruct b
      | |- keeps_input (match ?x with _ => _ end) => destruct x
      end ].

Lemma keeps_save_txs (idx : list Z) : keeps_input (save_txs idx).
Proof. induction idx; cbn [save_txs]; keeps. Qed.

Lemma keeps_save_data : keeps_input save_data.
Proof. unfold save_data. pose proof keeps_save_txs. keeps. Qed.

Lemma keeps_shift_left (idx : list Z) : keeps_input (shift_left idx).
Proof. induction idx; cbn [shift_left]; keeps. Qed.

Lemma keeps_add_transaction (ty : string) (amt : float) :
  keeps_input (add_transaction ty amt).
Proof. unfold add_transaction. pose proof keeps_shift_left. keeps. Qed.

Lemma keeps_scanf_lf : keeps_input (scanf scan_lf).
Proof. apply keeps_scanf, scan_lf_le. Qed.

Lemma keeps_scanf_s (cap : Z) : keeps_input (scanf (scan_s cap)).
Proof. apply keeps_scanf, scan_s_le. Qed.

Lemma keeps_deposit : keeps_input deposit.
Proof.
  unfold deposit. pose proof keeps_scanf_lf. pose proof keeps_add_transaction.
  pose proof keeps_save_data. keeps.
Qed.

Lemma keeps_withdraw : keeps_input withdraw.
Proof.
  unfold withdraw. pose proof keeps_scanf_lf. pose proof keeps_add_transaction.
  pose proof keeps_save_data. keeps.
Qed.

Lemma keeps_check_balance : keeps_input check_balance.
Proof. unfold check_balance. keeps. Qed.

Lemma keeps_print_txs (idx : list Z) : keeps_input (print_txs idx).
Proof. induction idx; cbn [print_txs]; keeps. Qed.

Lemma keeps_mini_statement : keeps_input mini_statement.
Proof. unfold mini_statement. pose proof keeps_print_txs. keeps. Qed.

Lemma keeps_change_pin : keeps_input change_pin.
Proof.
  unfold change_pin. pose proof keeps_scanf_s. pose proof keeps_save_data. keeps.
Qed.

(** A round that does not end the loop has read its choice. *)
Lemma menu_once_reads (atm : ATMData) (e : Env) (atm' : ATMData) (e' : Env) :
  menu_once atm e = Ret None atm' e' ->
  (String.length (stdin e') < String.length (stdin e))%nat.
Proof.
  unfold menu_once. do 8 (unfold bind at 1, printf at 1).
  cbn [stdin stdout disk writable].
  unfold bind at 1, scanf at 1. cbn [stdin stdout disk writable].
  pose proof (scan_d_lt (stdin e)) as Hd.
  destruct (scan_d (stdin e)) as [choice r|r|]; [| |discriminate].
  - set (e1 := mkEnv r _ _ _).
    assert (Hop : forall (m : M unit),
              keeps_input m ->
              (m ;; ret None) atm e1 = Ret (@None Z) atm' e' ->
              (String.length (stdin e') < String.length (stdin e))%nat).
    { intros m Hm H. unfold bind in H.
      destruct (m atm e1) as [x atm2 e2| |] eqn:E; try discriminate.
      injection H as <- <-. specialize (Hm _ _ _ _ _ E). subst e1. simpl in Hm. lia. }
    intros H.
    destruct choice as [|[[[p|p|]|[p|p|]|]|[[p|p|]|[p|p|]|]|]|p];
      first
        [ discriminate H
        | eapply Hop; [|exact H];
          solve [ apply keeps_printf | apply keeps_check_balance
                | apply keeps_deposit | apply keeps_withdraw
                | apply keeps_mini_statement | apply keeps_change_pin ] ].
  - unfold bind, printf. discriminate.
Qed.

(** One round more than there are characters of input ends the loop. *)
Lemma menu_ends (rounds : nat) : forall (atm : ATMData) (e : Env),
  (String.length (stdin e) < rounds)%nat ->
  exists o, menu rounds atm e = Some o.
Proof.
  induction rounds as [|rounds IH]; intros atm e Hlen; [lia|].
  cbn [menu]. destruct (menu_once atm e) as [[v|] atm' e'| |] eqn:E;
    [eexists; reflexivity | | eexists; reflexivity | eexists; reflexivity].
  apply IH. apply menu_once_reads in E. lia.
Qed.

(** [main] ends for every input: it returns, or has undefined behaviour,
    or stays in the [getchar] loop of [deposit] or [withdraw]. *)
Lemma main_ends (atm : ATMData) (e : Env) : exists o, main atm e = Some o.
Proof.
  unfold main.
  destruct ((main_startup ;; printf _ ;; verify_pin) atm e) as [ok atm' e'| |];
    [| eexists; reflexivity | eexists; reflexivity].
  destruct (ok =? 0); [eexists; reflexivity|]. apply menu_ends. lia.
Qed.

(** More rounds than needed change nothing. *)
Lemma menu_more (rounds : nat) : forall (atm : ATMData) (e : Env) (o : outcome Z),
  menu rounds atm e = Some o -> menu (S rounds) atm e = Some o.
Proof.
  induction rounds as [|rounds IH]; intros atm e o H; [discriminate H|].
  cbn [menu] in H. change (menu (S (S rounds)) atm e)
    with (match menu_once atm e with
          | Ret (Some v) atm' e' => Some (Ret v atm' e')
          | Ret None atm' e' => menu (S rounds) atm' e'
          | Undef => Some Undef
          | Hang atm' e' => Some (Hang atm' e')
          end).
  destruct (menu_once atm e) as [[v|] atm' e'| |]; try exact H.
  apply IH, H.
Qed.

End Input.

(** ** The claims *)

(** C1 (the code departs from it). The claim: from a balance [>= 0], every
    committed deposit, withdrawal or PIN change leaves the balance [>= 0].
    [deposit] refuses an amount only when [amount <= 0] holds, which a NaN
    does not satisfy: with [nan] typed at the prompt, on the default record
    (balance 1000), the deposit is committed, the balance becomes NaN and
    [balance >= 0] no longer holds; so it goes in a run of [main] with the
    PIN, the choice 2, [nan] and the choice 6 typed. [withdraw] meets the
    same end from an infinite balance, where [inf - inf] is NaN. *)
Theorem deposit_nan_breaks_balance :
  (0 <=? balance default_atm)%float = true /\
  (exists e',
     deposit default_atm (typed ("nan" ++ nl)) =
       Ret tt (mkATMData nan "1234"
                 (<[0%nat := mkTransaction "Deposit" nan]> empty_slots) 1) e') /\
  (0 <=? nan)%float = false /\
  (exists atm' e',
     main stale_atm
       (typed ("1234" ++ nl ++ "2" ++ nl ++ "nan" ++ nl ++ "6" ++ nl)) =
       Some (Ret 0 atm' e') /\
     (0 <=? balance atm')%float = false) /\
  (exists atm' e',
     withdraw (mkATMData infinity "1234" empty_slots 0) (typed ("inf" ++ nl)) =
       Ret tt atm' e' /\
     (0 <=? balance atm')%float = false).
Proof.
  split; [reflexivity|]. split; [eexists; vm_compute; reflexivity|].
  split; [reflexivity|].
  split; eexists _, _; (split; [vm_compute; reflexivity | reflexivity]).
Qed.

(** C2, as amended: for every record and every amount [a] typed at the
    prompt with [a > 0] and [a > balance], [withdraw] reports insufficient
    funds and returns with the record as it was (balance, ledger and the
    rest), the data file untouched. *)
Theorem insufficient_funds_rejected
    (atm : ATMData) (e : Env) (a : float) (rest : string) :
  scan_lf (stdin e) = Conv a rest ->
  (0 <? a)%float = true ->
  (balance atm <? a)%float = true ->
  withdraw atm e =
  Ret tt atm
    (mkEnv rest
       (stdout e ++ "Enter amount to withdraw: "
        ++ "Insufficient funds. Current balance: " ++ fmt_2f (balance atm) ++ nl)
       (disk e) (writable e)).
Proof.
  intros Hscan Hpos Hgt.
  apply (withdraw_insufficient atm e a rest Hscan (ltb_leb_false _ _ Hpos) Hgt).
Qed.

(** C2, an instance: 2000 asked of a balance of 1500. *)
Lemma insufficient_funds_rejected_witness :
  withdraw (mkATMData 1500 "1234" empty_slots 0) (typed ("2000" ++ nl)) =
  Ret tt (mkATMData 1500 "1234" empty_slots 0)
    (mkEnv nl
       ("Enter amount to withdraw: "
        ++ "Insufficient funds. Current balance: " ++ "1500.00" ++ nl)
       None true).
Proof.
  apply (insufficient_funds_rejected (mkATMData 1500 "1234" empty_slots 0)
           (typed ("2000" ++ nl)) 2000%float nl); vm_compute; reflexivity.
Defined.

(** C2 as stated fails: a data file with the balance -5.00 is loaded, and
    -1 is typed. The amount is above the balance, and [withdraw] says
    "Invalid amount.", since the test [amount <= 0] comes first. *)
Lemma insufficient_funds_counterexample :
  load_data default_atm (on_disk ("-5.00 1234 0" ++ nl)) =
    Ret 1 (mkATMData (-5) "1234" empty_slots 0) (on_disk ("-5.00 1234 0" ++ nl)) /\
  scan_lf (stdin (typed ("-1" ++ nl))) = Conv (-1)%float nl /\
  (balance (mkATMData (-5) "1234" empty_slots 0) <? -1)%float = true /\
  withdraw (mkATMData (-5) "1234" empty_slots 0) (typed ("-1" ++ nl)) =
  Ret tt (mkATMData (-5) "1234" empty_slots 0)
    (mkEnv "" ("Enter amount to withdraw: " ++ "Invalid amount." ++ nl) None true).
Proof. vm_compute. repeat split. Qed.

(** C3: for every amount [a <= 0] typed at the prompt, [deposit] and
    [withdraw] both report an invalid amount and leave the record (balance,
    ledger and the rest) and the data file as they were. The call then skips
    the rest of the line: it returns after the newline, or stays in its loop
    when the input ends before one. *)
Theorem invalid_amount_rejected
    (atm : ATMData) (e : Env) (a : float) (rest : string) :
  scan_lf (stdin e) = Conv a rest ->
  (a <=? 0)%float = true ->
  deposit atm e =
    (let out := stdout e ++ "Enter amount to deposit: " ++ "Invalid amount." ++ nl in
     match after_newline rest with
     | Some r => Ret tt atm (mkEnv r out (disk e) (writable e))
     | None => Hang atm (mkEnv "" out (disk e) (writable e))
     end) /\
  withdraw atm e =
    (let out := stdout e ++ "Enter amount to withdraw: " ++ "Invalid amount." ++ nl in
     match after_newline rest with
     | Some r => Ret tt atm (mkEnv r out (disk e) (writable e))
     | None => Hang atm (mkEnv "" out (disk e) (writable e))
     end).
Proof.
  intros Hscan Hle. split.
  - apply (deposit_invalid atm e a rest Hscan Hle).
  - apply (withdraw_invalid atm e a rest Hscan Hle).
Qed.

(** C3, instances: -5 typed on the default record, with and without the
    newline after it. *)
Lemma invalid_amount_rejected_witness :
  (deposit default_atm (typed ("-5" ++ nl)) =
     Ret tt default_atm
       (mkEnv "" ("Enter amount to deposit: " ++ "Invalid amount." ++ nl) None true) /\
   withdraw default_atm (typed ("-5" ++ nl)) =
     Ret tt default_atm
       (mkEnv "" ("Enter amount to withdraw: " ++ "Invalid amount." ++ nl) None true)) /\
  (deposit default_atm (typed "0") =
     Hang default_atm
       (mkEnv "" ("Enter amount to deposit: " ++ "Invalid amount." ++ nl) None true) /\
   withdraw default_atm (typed "0") =
     Hang default_atm
       (mkEnv "" ("Enter amount to withdraw: " ++ "Invalid amount." ++ nl) None true)).
Proof.
  split.
  - apply (invalid_amount_rejected default_atm (typed ("-5" ++ nl)) (-5)%float nl);
      reflexivity.
  - apply (invalid_amount_rejected default_atm (typed "0") 0%float "");
      reflexivity.
Defined.




(** C5 (the code departs from it). The claim: the ledger length [tx_count]
    never exceeds the capacity 10, an initial load included. [load_data]
    stores the count of the header as it reads it: a data file whose header
    says 15 is loaded with [tx_count = 15], above [MAX_TX], and
    [mini_statement] then reads past the ten slots of the array; so it goes
    in a run of [main] with the PIN and the choice 4 typed. *)
Theorem load_count_above_capacity :
  (exists atm',
     load_data stale_atm (on_disk ("0.00 1234 15" ++ nl)) =
       Ret 1 atm' (on_disk ("0.00 1234 15" ++ nl)) /\
     main_startup stale_atm (on_disk ("0.00 1234 15" ++ nl)) =
       Ret tt atm' (on_disk ("0.00 1234 15" ++ nl)) /\
     tx_count atm' = 15 /\
     MAX_TX < tx_count atm' /\
     mini_statement atm' (on_disk ("0.00 1234 15" ++ nl)) = Undef) /\
  main stale_atm
    (mkEnv ("1234" ++ nl ++ "4" ++ nl) "" (Some ("0.00 1234 15" ++ nl)) true) =
    Some Undef.
Proof.
  split; [|vm_compute; reflexivity].
  eexists. split; [vm_compute; reflexivity|].
  repeat split; vm_compute; reflexivity.
Qed.

(** C6, as amended: for every record that [save_data] writes as whole
    tokens (a PIN and record types without white space, a count that is an
    [int]), saved where the file can be written and loaded from the file as
    written, into any record: [load_data] returns 1 with the same PIN, the
    same count, and the ledger in the same order with the same types, and
    with the balance and each amount rounded to two decimals ([dec2]: the
    double nearest to the [%.2f] text). An amount is read back identical
    only when it is the double of a two-decimal numeral. *)
Theorem save_then_load (atm atm0 : ATMData) (e : Env) :
  array_ok atm -> array_ok atm0 ->
  storable atm = true ->
  writable e = true ->
  exists e1 atm',
    save_data atm e = Ret tt atm e1 /\
    disk e1 = Some (file_text atm) /\
    load_data atm0 e1 = Ret 1 atm' e1 /\
    balance atm' = dec2 (balance atm) /\
    pin atm' = pin atm /\
    tx_count atm' = tx_count atm /\
    ledger atm' = map round_tx (ledger atm).
Proof.
  intros Hok Hok0 Hst Hw. unfold storable in Hst.
  apply andb_true_iff in Hst as [Hst Hmax]. apply andb_true_iff in Hst as [Hst Hmin].
  apply andb_true_iff in Hst as [Hpin Hty].
  apply Z.leb_le in Hmin, Hmax.
  rewrite (save_data_spec atm e Hok), Hw.
  eexists _, _. split; [reflexivity|]. split; [reflexivity|].
  assert (Htext : file_text atm =
            fmt_2f (balance atm) ++ String " " (pin atm ++ String " "
              (fmt_d (tx_count atm)
               ++ String (ascii_of_nat 10) (tx_lines (saved_txs atm))))).
  { unfold file_text, header_line, nl. rewrite !append_assoc. reflexivity. }
  assert (Hload : load_data atm0
                    (mkEnv (stdin e) (stdout e) (Some (file_text atm)) true) =
                  Ret 1 (mkATMData (dec2 (balance atm)) (pin atm)
                           (overwrite 0 (map round_tx (saved_txs atm)) (txs atm0))
                           (tx_count atm))
                    (mkEnv (stdin e) (stdout e) (Some (file_text atm)) true)).
  { eapply (load_data_parsed atm0 _ (file_text atm)); [exact Hok0 | reflexivity | ..].
    - rewrite Htext. apply scan_lf_fmt_2f, sep_space.
    - rewrite scan_s_skip_ws, (scan_s_sep _ _ _ sep_space).
      apply (scan_s_token _ _ _ _ Hpin sep_space).
    - rewrite scan_d_skip_ws, (scan_d_sep _ _ sep_space).
      apply scan_d_fmt_d; [lia | apply sep_nl].
    - rewrite <- (saved_txs_length _ Hok). apply (parse_txs_lines _ Hty). }
  split; [exact Hload|]. cbn [balance pin tx_count].
  split; [reflexivity|]. split; [reflexivity|]. split; [reflexivity|].
  unfold ledger. cbn [txs tx_count].
  rewrite (ledger_overwrite atm atm0) by (assumption || now rewrite length_map).
  rewrite <- (fmap_take round_tx). change (fmap round_tx) with (map round_tx). f_equal.
  unfold saved_txs. rewrite take_take.
  unfold array_ok, MAX_TX in *.
  destruct (Z.le_gt_cases (tx_count atm) 10) as [Hle|Hgt].
  - f_equal. lia.
  - rewrite !take_ge by lia. reflexivity.
Qed.

(** C6, an instance: the default record after a deposit of 500 and a
    withdrawal of 300, saved and loaded over a record that held something
    else. *)
Lemma save_then_load_witness :
  exists e1 atm',
    save_data
      (mkATMData 1200 "1234"
         (<[1%nat := mkTransaction "Withdraw" 300]>
            (<[0%nat := mkTransaction "Deposit" 500]> empty_slots)) 2)
      (typed "") =
    Ret tt
      (mkATMData 1200 "1234"
         (<[1%nat := mkTransaction "Withdraw" 300]>
            (<[0%nat := mkTransaction "Deposit" 500]> empty_slots)) 2) e1 /\
    disk e1 =
      Some ("1200.00 1234 2" ++ nl ++ "Deposit 500.00" ++ nl
            ++ "Withdraw 300.00" ++ nl) /\
    load_data stale_atm e1 = Ret 1 atm' e1 /\
    balance atm' = 1200%float /\
    pin atm' = "1234" /\
    tx_count atm' = 2 /\
    ledger atm' = [mkTransaction "Deposit" 500; mkTransaction "Withdraw" 300].
Proof.
  destruct (save_then_load
              (mkATMData 1200 "1234"
                 (<[1%nat := mkTransaction "Withdraw" 300]>
                    (<[0%nat := mkTransaction "Deposit" 500]> empty_slots)) 2)
              stale_atm (typed ""))
    as (e1 & atm' & Hsave & Hdisk & Hload & Hb & Hp & Hn & Hl);
    [reflexivity | reflexivity | reflexivity | reflexivity |].
  exists e1, atm'. split; [exact Hsave|]. split; [exact Hdisk|].
  split; [exact Hload|]. split; [rewrite Hb; vm_compute; reflexivity|].
  split; [exact Hp|]. split; [exact Hn|]. rewrite Hl. vm_compute. reflexivity.
Defined.

(** C6 as stated fails on the ledger: 0.125 deposited on the default
    record is saved as "0.12", and the ledger loaded from that file is not
    the ledger that was saved. *)
Lemma save_then_load_counterexample :
  exists atm1 e1 atm2,
    deposit default_atm (typed ("0.125" ++ nl)) = Ret tt atm1 e1 /\
    disk e1 = Some ("1000.12 1234 1" ++ nl ++ "Deposit 0.12" ++ nl) /\
    load_data atm1 e1 = Ret 1 atm2 e1 /\
    ledger atm1 = [mkTransaction "Deposit" 0.125] /\
    ledger atm2 = [mkTransaction "Deposit" (dec2 0.125)] /\
    (dec2 0.125 =? 0.125)%float = false /\
    ledger atm2 <> ledger atm1.
Proof.
  eexists _, _, _. split; [vm_compute; reflexivity|].
  split; [reflexivity|]. split; [vm_compute; reflexivity|].
  split; [reflexivity|]. split; [vm_compute; reflexivity|].
  split; [vm_compute; reflexivity|].
  intros H. apply (f_equal (fun l => match l with
                                     | t :: _ => (amount t =? 0.125)%float
                                     | [] => true
                                     end)) in H.
  vm_compute in H. discriminate H.
Qed.

(** C7 (the code departs from it). The claim: a transaction line that does
    not parse stops the read, the load succeeds, and the ledger in memory
    holds exactly the records parsed before that line. With a header that
    says 3 and a second line that does not parse, [load_data] returns 1 and
    has stored one record, and [tx_count] is still 3: the ledger lists the
    record read and two slots that hold what was there before the load. A
    run of [main] with the PIN and the choices 4 and 6 typed prints them. *)
Theorem load_truncated_keeps_count :
  (exists atm',
     load_data stale_atm
       (on_disk ("100.00 1234 3" ++ nl ++ "Deposit 5.00" ++ nl ++ "Withdraw x" ++ nl)) =
       Ret 1 atm'
         (on_disk ("100.00 1234 3" ++ nl ++ "Deposit 5.00" ++ nl ++ "Withdraw x" ++ nl)) /\
     parse_txs 3 (nl ++ "Deposit 5.00" ++ nl ++ "Withdraw x" ++ nl) =
       Some [mkTransaction "Deposit" 5] /\
     tx_count atm' = 3 /\
     ledger atm' =
       [mkTransaction "Deposit" 5; mkTransaction "Stale" 1; mkTransaction "Stale" 1]) /\
  (exists atm' e',
     main stale_atm
       (mkEnv ("1234" ++ nl ++ "4" ++ nl ++ "6" ++ nl) ""
          (Some ("100.00 1234 3" ++ nl ++ "Deposit 5.00" ++ nl ++ "Withdraw x" ++ nl))
          true) = Some (Ret 0 atm' e') /\
     ledger atm' =
       [mkTransaction "Deposit" 5; mkTransaction "Stale" 1; mkTransaction "Stale" 1]).
Proof.
  split.
  - eexists. split; [vm_compute; reflexivity|].
    repeat split; vm_compute; reflexivity.
  - eexists _, _. split; vm_compute; reflexivity.
Qed.

(** C8: with the PIN token [old] typed, [change_pin] says
    "PIN does not match." when [old] is not the stored PIN; when it is, and
    the tokens [new] and [confirm] follow, it says
    "PINs do not match. Aborting." when [new] is not [confirm]; the record is
    as it was in both cases. Otherwise it returns with [new] as the stored
    PIN; after that, [verify_pin] returns 1 on [new], and returns 0 when
    every attempt is [old] (and [old] is not [new]). *)
Theorem change_pin_cases (atm : ATMData) (e : Env) (old r1 : string) :
  array_ok atm ->
  scan_s PIN_LENGTH (stdin e) = Conv old r1 ->
  (old <> pin atm ->
   change_pin atm e =
   Ret tt atm
     (mkEnv r1 (stdout e ++ "Enter current PIN: " ++ "PIN does not match." ++ nl)
        (disk e) (writable e))) /\
  (old = pin atm ->
   forall new confirm r2 r3 : string,
   scan_s PIN_LENGTH r1 = Conv new r2 ->
   scan_s PIN_LENGTH r2 = Conv confirm r3 ->
   (new <> confirm ->
    change_pin atm e =
    Ret tt atm
      (mkEnv r3
         (stdout e ++ "Enter current PIN: " ++ "Enter new PIN: "
          ++ "Confirm new PIN: " ++ "PINs do not match. Aborting." ++ nl)
         (disk e) (writable e))) /\
   (new = confirm ->
    let atm' := mkATMData (balance atm) new (txs atm) (tx_count atm) in
    (exists e', change_pin atm e = Ret tt atm' e') /\
    (forall e2 r, scan_s PIN_LENGTH (stdin e2) = Conv new r ->
                  exists e3, verify_pin atm' e2 = Ret 1 atm' e3) /\
    (forall e2, old <> new -> attempts_are old 3 (stdin e2) = true ->
                exists e3, verify_pin atm' e2 = Ret 0 atm' e3))).
Proof.
  intros Hok H1. split.
  - intros Hne. unfold change_pin, bind, printf, scanf, get_atm.
    cbn [stdin stdout disk writable]. rewrite H1.
    destruct (String.eqb_spec old (pin atm)) as [|_]; [contradiction|].
    cbn [negb stdin stdout disk writable]. now rewrite append_assoc.
  - intros Heq new confirm r2 r3 H2 H3. split.
    + intros Hne. unfold change_pin, bind, printf, scanf, get_atm.
      cbn [stdin stdout disk writable]. rewrite H1.
      destruct (String.eqb_spec old (pin atm)) as [_|]; [|contradiction].
      cbn [negb stdin stdout disk writable]. rewrite H2.
      cbn [stdin stdout disk writable]. rewrite H3.
      destruct (String.eqb_spec new confirm) as [|_]; [contradiction|].
      cbn [negb stdin stdout disk writable]. now rewrite !append_assoc.
    + intros Hnc atm'. split; [|split].
      * unfold change_pin, bind at 1, printf at 1, bind at 1, scanf at 1.
        cbn [stdin stdout disk writable]. rewrite H1.
        unfold bind at 1, get_atm at 1.
        destruct (String.eqb_spec old (pin atm)) as [_|]; [|contradiction].
        cbn [negb]. unfold bind at 1, printf at 1, bind at 1, scanf at 1.
        cbn [stdin stdout disk writable]. rewrite H2.
        unfold bind at 1, printf at 1, bind at 1, scanf at 1.
        cbn [stdin stdout disk writable]. rewrite H3.
        destruct (String.eqb_spec new confirm) as [_|]; [|contradiction].
        cbn [negb]. unfold bind at 1, strcpy_pin at 1.
        apply scan_s_fits in H2.
        destruct (Z.leb_spec PIN_LENGTH (Z.of_nat (String.length new))); [lia|].
        unfold bind at 1. rewrite save_data_spec by exact Hok.
        eexists. reflexivity.
      * intros e2 r Hr. eexists. apply (verify_pin_accepts atm' e2 r). exact Hr.
      * intros e2 Hne Hall.
        apply (verify_pin_tries_rejects old 3 atm' e2); assumption.
Qed.

(** C8, the scenario: [change_pin] with 1234, 5678, 5678 typed on the
    default record succeeds; then [verify_pin] returns 0 when 1234 is typed
    (once, or at each of the three attempts) and 1 when 5678 is typed. A
    wrong old PIN, 4321, is refused. *)
Lemma change_pin_cases_witness :
  (exists e',
     change_pin default_atm (typed ("1234" ++ nl ++ "5678" ++ nl ++ "5678" ++ nl)) =
     Ret tt (mkATMData 1000 "5678" empty_slots 0) e') /\
  (exists e3,
     verify_pin (mkATMData 1000 "5678" empty_slots 0) (typed ("5678" ++ nl)) =
     Ret 1 (mkATMData 1000 "5678" empty_slots 0) e3) /\
  (exists e3,
     verify_pin (mkATMData 1000 "5678" empty_slots 0) (typed ("1234" ++ nl)) =
     Ret 0 (mkATMData 1000 "5678" empty_slots 0) e3) /\
  (exists e3,
     verify_pin (mkATMData 1000 "5678" empty_slots 0)
       (typed ("1234" ++ nl ++ "1234" ++ nl ++ "1234" ++ nl)) =
     Ret 0 (mkATMData 1000 "5678" empty_slots 0) e3) /\
  change_pin default_atm (typed ("4321" ++ nl)) =
    Ret tt default_atm
      (mkEnv nl ("Enter current PIN: " ++ "PIN does not match." ++ nl) None true).
Proof.
  destruct (change_pin_cases default_atm
              (typed ("1234" ++ nl ++ "5678" ++ nl ++ "5678" ++ nl))
              "1234" (nl ++ "5678" ++ nl ++ "5678" ++ nl))
    as (_ & Hok); [reflexivity | reflexivity |].
  destruct (Hok eq_refl "5678" "5678" (nl ++ "5678" ++ nl) nl eq_refl eq_refl)
    as (_ & Hsame).
  destruct (Hsame eq_refl) as (Hchange & Hnew & Hold).
  split; [exact Hchange|]. split; [|split; [|split]].
  - apply (Hnew (typed ("5678" ++ nl)) nl). reflexivity.
  - apply (Hold (typed ("1234" ++ nl))); [discriminate | reflexivity].
  - apply (Hold (typed ("1234" ++ nl ++ "1234" ++ nl ++ "1234" ++ nl)));
      [discriminate | reflexivity].
  - apply (change_pin_cases default_atm (typed ("4321" ++ nl)) "4321" nl);
      [reflexivity | reflexivity | discriminate].
Defined.

(** C9: for every data file whose header parses as (balance, pin, count),
    and whose transaction lines overrun no buffer, [load_data] returns 1
    with [tx_count] the count of the header, unclamped, having read the
    records [recs] of at most [min(count, 10)] lines over the first slots;
    so with a count above 10 the record has a [tx_count] above the capacity,
    which is not the number of records read. *)
Theorem load_keeps_header_count
    (atm : ATMData) (e : Env) (f f1 f2 f3 : string)
    (b : float) (p : string) (n : Z) (recs : list Transaction) :
  array_ok atm ->
  disk e = Some f ->
  scan_lf f = Conv b f1 ->
  scan_s PIN_LENGTH (skip_ws f1) = Conv p f2 ->
  scan_d (skip_ws f2) = Conv n f3 ->
  parse_txs (Z.to_nat (Z.min n MAX_TX)) f3 = Some recs ->
  exists atm',
    load_data atm e = Ret 1 atm' e /\
    balance atm' = b /\ pin atm' = p /\
    tx_count atm' = n /\
    txs atm' = overwrite 0 recs (txs atm) /\
    Z.of_nat (length recs) <= Z.max 0 (Z.min n MAX_TX) /\
    (MAX_TX < n ->
     MAX_TX < tx_count atm' /\ Z.of_nat (length recs) <> tx_count atm').
Proof.
  intros Hok Hd Hb Hp Hn Hrecs.
  pose proof (parse_txs_length _ _ _ Hrecs) as Hlen.
  eexists. split; [eapply load_data_parsed; eassumption|].
  cbn [balance pin tx_count txs]. unfold MAX_TX in *.
  do 4 (split; [reflexivity|]). split; [lia|]. intros Hgt. split; lia.
Qed.

(** C9, an instance: a header that says 15, followed by two lines. *)
Lemma load_keeps_header_count_witness :
  exists atm',
    load_data stale_atm
      (on_disk ("100.00 1234 15" ++ nl ++ "Deposit 5.00" ++ nl ++ "Withdraw 7" ++ nl)) =
      Ret 1 atm'
        (on_disk ("100.00 1234 15" ++ nl ++ "Deposit 5.00" ++ nl ++ "Withdraw 7" ++ nl)) /\
    balance atm' = 100%float /\ pin atm' = "1234" /\
    tx_count atm' = 15 /\
    txs atm' =
      overwrite 0 [mkTransaction "Deposit" 5; mkTransaction "Withdraw" 7]
        (txs stale_atm) /\
    Z.of_nat (length [mkTransaction "Deposit" 5; mkTransaction "Withdraw" 7])
      <= Z.max 0 (Z.min 15 MAX_TX) /\
    (MAX_TX < 15 ->
     MAX_TX < tx_count atm' /\
     Z.of_nat (length [mkTransaction "Deposit" 5; mkTransaction "Withdraw" 7])
       <> tx_count atm').
Proof.
  apply (load_keeps_header_count stale_atm
           (on_disk ("100.00 1234 15" ++ nl ++ "Deposit 5.00" ++ nl ++ "Withdraw 7" ++ nl))
           ("100.00 1234 15" ++ nl ++ "Deposit 5.00" ++ nl ++ "Withdraw 7" ++ nl)
           (" 1234 15" ++ nl ++ "Deposit 5.00" ++ nl ++ "Withdraw 7" ++ nl)
           (" 15" ++ nl ++ "Deposit 5.00" ++ nl ++ "Withdraw 7" ++ nl)
           (nl ++ "Deposit 5.00" ++ nl ++ "Withdraw 7" ++ nl)
           100%float "1234" 15);
    vm_compute; reflexivity.
Defined.

(** C10: [change_pin], whatever is typed (tokens that fit the PIN
    buffers), returns with the balance, the array of transactions and the
    count as they were: whether it refuses the old PIN, refuses the
    confirmation, runs out of input, or changes the PIN. *)
Theorem change_pin_frame (atm : ATMData) (e : Env) :
  array_ok atm ->
  tokens_fit 3 (stdin e) = true ->
  exists atm' e',
    change_pin atm e = Ret tt atm' e' /\
    balance atm' = balance atm /\
    txs atm' = txs atm /\
    tx_count atm' = tx_count atm.
Proof.
  intros Hok Hfit. cbn [tokens_fit] in Hfit.
  unfold change_pin, bind at 1, printf at 1, bind at 1, scanf at 1.
  cbn [stdin stdout disk writable].
  destruct (scan_s PIN_LENGTH (stdin e)) as [old r1| |];
    [| eexists _, _; split; [reflexivity | auto] | discriminate].
  unfold bind at 1, get_atm at 1.
  destruct (String.eqb old (pin atm)); cbn [negb];
    [| eexists _, _; split; [reflexivity | auto]].
  unfold bind at 1, printf at 1, bind at 1, scanf at 1.
  cbn [stdin stdout disk writable].
  destruct (scan_s PIN_LENGTH r1) as [new r2| |] eqn:H2;
    [| eexists _, _; split; [reflexivity | auto] | discriminate].
  unfold bind at 1, printf at 1, bind at 1, scanf at 1.
  cbn [stdin stdout disk writable].
  destruct (scan_s PIN_LENGTH r2) as [confirm r3| |];
    [| eexists _, _; split; [reflexivity | auto] | discriminate].
  destruct (String.eqb new confirm); cbn [negb];
    [| eexists _, _; split; [reflexivity | auto]].
  unfold bind at 1, strcpy_pin at 1.
  apply scan_s_fits in H2.
  destruct (Z.leb_spec PIN_LENGTH (Z.of_nat (String.length new))); [lia|].
  unfold bind at 1. rewrite save_data_spec by exact Hok.
  eexists _, _. split; [reflexivity | auto].
Qed.

(** C10, instances: a PIN changed, a wrong old PIN, a confirmation that
    differs, each on a record with a ledger. *)
Lemma change_pin_frame_witness :
  (exists atm' e',
     change_pin stale_atm (typed ("0000 4321 4321" ++ nl)) = Ret tt atm' e' /\
     balance atm' = balance stale_atm /\
     txs atm' = txs stale_atm /\
     tx_count atm' = tx_count stale_atm) /\
  (exists atm' e',
     change_pin stale_atm (typed ("9999 4321 4321" ++ nl)) = Ret tt atm' e' /\
     balance atm' = balance stale_atm /\
     txs atm' = txs stale_atm /\
     tx_count atm' = tx_count stale_atm) /\
  (exists atm' e',
     change_pin stale_atm (typed ("0000 4321 1234" ++ nl)) = Ret tt atm' e' /\
     balance atm' = balance stale_atm /\
     txs atm' = txs stale_atm /\
     tx_count atm' = tx_count stale_atm).
Proof.
  split; [|split]; apply change_pin_frame; reflexivity.
Defined.

(** ** Further properties of the functions

    Lemmas on each function first, then the properties X1 to X23. *)

Import Input.

(** *** Doubles that are not below zero *)

Module Doubles.

(** A double that is not below zero: zero or above, or a NaN. *)
Lemma ltb_zero_false (x : float) :
  (x <? 0)%float = false <->
  (nonneg (Prim2SF x) = true \/ Prim2SF x = S754_nan).
Proof.
  rewrite ltb_spec. change (Prim2SF 0) with (S754_zero false). unfold SFltb.
  destruct (Prim2SF x) as [s|s| |s m e]; try destruct s; simpl;
    intuition congruence.
Qed.

Lemma add_not_below (b a : float) :
  (b <? 0)%float = false -> (a <=? 0)%float = false ->
  (b + a <? 0)%float = false.
Proof.
  rewrite !ltb_zero_false, leb_spec, add_spec.
  change (Prim2SF 0) with (S754_zero false). unfold SF64add.
  destruct (Prim2SF b) as [sb|sb| |sb mb eb], (Prim2SF a) as [sa|sa| |sa ma ea];
    try destruct sb; try destruct sa; intros [Hb|Hb] Ha;
    try discriminate Hb; try discriminate Ha;
    try (left; reflexivity); try (right; reflexivity).
  left. apply binary_normalize_nonneg. simpl. lia.
Qed.

Lemma sub_not_below (b a : float) :
  (b <? 0)%float = false -> (a <=? 0)%float = false -> (b <? a)%float = false ->
  (b - a <? 0)%float = false.
Proof.
  intros Hb Ha Hba.
  destruct (0 <? a)%float eqn:Hpos, (a <? infinity)%float eqn:Hfin,
           (0 <=? b)%float eqn:Hb0;
    try (apply leb_ltb_false, sub_nonneg;
         [exact Hpos | now apply not_ltb_leb | exact Hfin]);
    apply ltb_zero_false; apply ltb_zero_false in Hb;
    rewrite ?leb_zero_nonneg in Hb0;
    rewrite ltb_spec in Hpos, Hfin, Hba; rewrite leb_spec in Ha;
    rewrite sub_spec;
    change (Prim2SF 0) with (S754_zero false) in *;
    change (Prim2SF infinity) with (S754_infinity false) in *;
    unfold SF64sub;
    destruct (Prim2SF b) as [sb|sb| |sb mb eb], (Prim2SF a) as [sa|sa| |sa ma ea];
    try destruct sb; try destruct sa; destruct Hb as [Hb|Hb];
    try discriminate; try (left; reflexivity); try (right; reflexivity).
Qed.

(** A finite double less itself is zero. *)
Lemma sub_diag (x : float) :
  (0 <? x)%float = true -> (x <? infinity)%float = true -> (x - x)%float = 0%float.
Proof.
  intros Hpos Hfin. apply Prim2SF_inj. rewrite sub_spec.
  rewrite ltb_spec in Hpos, Hfin.
  change (Prim2SF 0) with (S754_zero false) in *.
  change (Prim2SF infinity) with (S754_infinity false) in *.
  unfold SF64sub.
  destruct (Prim2SF x) as [s|s| |s m e]; try destruct s; try discriminate.
  cbn [SFsub]. rewrite Z.sub_diag. reflexivity.
Qed.

End Doubles.
Import Doubles.

(** *** [%lf] stores a double or nothing *)

Module NoOverrun.

Lemma scan_exponent_stores (mark : ascii) (s : string) : scan_exponent mark s <> Overrun.
Proof.
  unfold scan_exponent. destruct s as [|c s]; [discriminate|].
  destruct (eq_ascii (tolower c) mark); [|discriminate].
  destruct (scan_sign s) as [neg r1]. destruct (scan_digits r1) as [u r2].
  destruct u; discriminate.
Qed.

Lemma scan_decimal_stores (neg : bool) (s : string) : scan_decimal neg s <> Overrun.
Proof.
  unfold scan_decimal. destruct (scan_digits s) as [ip r1].
  destruct (match r1 with String "." r => scan_digits r | _ => (Decimal.Nil, r1) end)
    as [fp r2].
  pose proof (scan_exponent_stores "e" r2) as H.
  destruct ip, fp; try discriminate;
    (destruct (scan_exponent "e" r2); [discriminate | discriminate | now contradiction H]).
Qed.

Lemma scan_hex_stores (neg : bool) (s : string) : scan_hex neg s <> Overrun.
Proof.
  unfold scan_hex. destruct (scan_hexdigits 0 0 s) as [[ip ni] r1].
  destruct (match r1 with String "." r => scan_hexdigits ip O r | _ => (ip, O, r1) end)
    as [[m nf] r2].
  pose proof (scan_exponent_stores "p" r2) as H.
  destruct ni, nf; try discriminate;
    (destruct (scan_exponent "p" r2); [discriminate | discriminate | now contradiction H]).
Qed.

Lemma scan_inf_stores (neg : bool) (s : string) : scan_inf neg s <> Overrun.
Proof.
  unfold scan_inf. destruct (scan_word "inf" s) as [[] r]; [|discriminate].
  destruct (starts_with "i" r); [|discriminate].
  destruct (scan_word "inity" r) as [[] r']; discriminate.
Qed.

Lemma scan_nan_stores (s : string) : scan_nan s <> Overrun.
Proof.
  unfold scan_nan. destruct (scan_word "nan" s) as [[] r]; [|discriminate].
  destruct r as [|c r1]; [discriminate|].
  destruct c as [[] [] [] [] [] [] [] []]; try discriminate.
  destruct (skip_nchars r1) as [|c2 r2]; [discriminate|].
  destruct c2 as [[] [] [] [] [] [] [] []]; discriminate.
Qed.

(** [%lf] writes a double and nothing else: it never overruns. *)
Lemma scan_lf_stores (s : string) : scan_lf s <> Overrun.
Proof.
  unfold scan_lf. destruct (scan_sign (skip_ws s)) as [neg r].
  destruct (starts_with "i" r); [apply scan_inf_stores|].
  destruct (starts_with "n" r); [apply scan_nan_stores|].
  destruct r as [|c0 r0]; [apply scan_decimal_stores|].
  destruct r0 as [|c1 r1];
    [destruct c0 as [[] [] [] [] [] [] [] []]; apply scan_decimal_stores|].
  destruct (eq_ascii (tolower c1) "x");
    destruct c0 as [[] [] [] [] [] [] [] []];
    apply scan_decimal_stores || apply scan_hex_stores.
Qed.

End NoOverrun.
Import NoOverrun.

(** *** Every path of [deposit] and [withdraw] *)

Module Paths.

Lemma deposit_unread (atm : ATMData) (e : Env) (rest : string) :
  scan_lf (stdin e) = NoConv rest ->
  deposit atm e =
    (let out := stdout e ++ "Enter amount to deposit: " ++ "Invalid amount." ++ nl in
     match after_newline rest with
     | Some r => Ret tt atm (mkEnv r out (disk e) (writable e))
     | None => Hang atm (mkEnv "" out (disk e) (writable e))
     end).
Proof.
  intros Hscan. unfold deposit, bind, printf, scanf, drain_line.
  cbn [stdin stdout disk writable]. rewrite Hscan.
  cbn [stdin stdout disk writable]. rewrite append_assoc.
  destruct (after_newline rest); reflexivity.
Qed.

Lemma withdraw_unread (atm : ATMData) (e : Env) (rest : string) :
  scan_lf (stdin e) = NoConv rest ->
  withdraw atm e =
    (let out := stdout e ++ "Enter amount to withdraw: " ++ "Invalid amount." ++ nl in
     match after_newline rest with
     | Some r => Ret tt atm (mkEnv r out (disk e) (writable e))
     | None => Hang atm (mkEnv "" out (disk e) (writable e))
     end).
Proof.
  intros Hscan. unfold withdraw, bind, printf, scanf, drain_line.
  cbn [stdin stdout disk writable]. rewrite Hscan.
  cbn [stdin stdout disk writable]. rewrite append_assoc.
  destruct (after_newline rest); reflexivity.
Qed.

Lemma deposit_saved (atm : ATMData) (e : Env) (a : float) (rest : string) :
  array_ok atm -> 0 <= tx_count atm ->
  scan_lf (stdin e) = Conv a rest ->
  (a <=? 0)%float = false ->
  exists atm',
    deposit atm e =
      Ret tt atm'
        (saved atm'
           (mkEnv rest
              (stdout e ++ "Enter amount to deposit: "
               ++ "Deposited " ++ fmt_2f a ++ " successfully." ++ nl)
              (disk e) (writable e))) /\
    balance atm' = (balance atm + a)%float /\
    pin atm' = pin atm /\ array_ok atm' /\
    pushed atm (mkTransaction "Deposit" a) atm'.
Proof.
  intros Hok Hn Hscan Hpos.
  unfold deposit, bind at 1, printf at 1, bind at 1, scanf at 1.
  cbn [stdin stdout disk writable]. rewrite Hscan, Hpos.
  unfold bind at 1, get_atm at 1, bind at 1, set_balance at 1, bind at 1.
  match goal with |- context [add_transaction ?ty ?amt ?s ?x] =>
    destruct (add_transaction_pushed ty amt s x)
      as (atm' & -> & Hb & Hp & Hok' & Hpush);
      [vm_compute; reflexivity | exact Hok | exact Hn |] end.
  unfold bind at 1, printf at 1. rewrite save_data_spec by exact Hok'.
  cbn [stdin stdout disk writable]. rewrite append_assoc.
  exists atm'. split; [reflexivity|]. auto.
Qed.

Lemma withdraw_saved (atm : ATMData) (e : Env) (a : float) (rest : string) :
  array_ok atm -> 0 <= tx_count atm ->
  scan_lf (stdin e) = Conv a rest ->
  (a <=? 0)%float = false ->
  (balance atm <? a)%float = false ->
  exists atm',
    withdraw atm e =
      Ret tt atm'
        (saved atm'
           (mkEnv rest
              (stdout e ++ "Enter amount to withdraw: "
               ++ "Withdrawn " ++ fmt_2f a ++ " successfully." ++ nl)
              (disk e) (writable e))) /\
    balance atm' = (balance atm - a)%float /\
    pin atm' = pin atm /\ array_ok atm' /\
    pushed atm (mkTransaction "Withdraw" a) atm'.
Proof.
  intros Hok Hn Hscan Hpos Hle.
  unfold withdraw, bind at 1, printf at 1, bind at 1, scanf at 1.
  cbn [stdin stdout disk writable]. rewrite Hscan, Hpos.
  unfold bind at 1, get_atm at 1. rewrite Hle.
  unfold bind at 1, set_balance at 1, bind at 1.
  match goal with |- context [add_transaction ?ty ?amt ?s ?x] =>
    destruct (add_transaction_pushed ty amt s x)
      as (atm' & -> & Hb & Hp & Hok' & Hpush);
      [vm_compute; reflexivity | exact Hok | exact Hn |] end.
  unfold bind at 1, printf at 1. rewrite save_data_spec by exact Hok'.
  cbn [stdin stdout disk writable]. rewrite append_assoc.
  exists atm'. split; [reflexivity|]. auto.
Qed.

Lemma pushed_in_capacity (atm atm' : ATMData) (t : Transaction) :
  in_capacity atm -> array_ok atm' -> pushed atm t atm' -> in_capacity atm'.
Proof.
  intros [Hok Hn] Hok' [Hlt Heq]. split; [exact Hok'|].
  destruct (Z.eq_dec (tx_count atm) MAX_TX) as [E|E].
  - destruct (Heq E) as (-> & _). unfold MAX_TX. lia.
  - destruct Hlt as (-> & _); lia.
Qed.

(** The four ways [deposit] and [withdraw] end, for a property [P] of the
    record that the commit keeps. *)
Lemma amount_op_ends (P : ATMData -> Prop) (atm : ATMData) (e : Env) :
  array_ok atm -> 0 <= tx_count atm -> P atm ->
  (forall a atm', (a <=? 0)%float = false ->
     balance atm' = (balance atm + a)%float -> pin atm' = pin atm ->
     array_ok atm' -> pushed atm (mkTransaction "Deposit" a) atm' -> P atm') ->
  (forall a atm', (a <=? 0)%float = false -> (balance atm <? a)%float = false ->
     balance atm' = (balance atm - a)%float -> pin atm' = pin atm ->
     array_ok atm' -> pushed atm (mkTransaction "Withdraw" a) atm' -> P atm') ->
  ends_with P (deposit atm e) /\ ends_with P (withdraw atm e).
Proof.
  intros Hok Hn HP Hdep Hwd.
  destruct (scan_lf (stdin e)) as [a rest|rest|] eqn:Hscan.
  - destruct (a <=? 0)%float eqn:Hle.
    + rewrite (deposit_invalid _ _ _ _ Hscan Hle), (withdraw_invalid _ _ _ _ Hscan Hle).
      cbn zeta. destruct (after_newline rest); split; exact HP.
    + split.
      * destruct (deposit_saved atm e a rest Hok Hn Hscan Hle)
          as (atm' & -> & Hb & Hp & Hok' & Hpush).
        cbn [ends_with]. eapply Hdep; eassumption.
      * destruct (balance atm <? a)%float eqn:Hlt.
        -- rewrite (withdraw_insufficient _ _ _ _ Hscan Hle Hlt). exact HP.
        -- destruct (withdraw_saved atm e a rest Hok Hn Hscan Hle Hlt)
             as (atm' & -> & Hb & Hp & Hok' & Hpush).
           cbn [ends_with]. eapply Hwd; eassumption.
  - rewrite (deposit_unread _ _ _ Hscan), (withdraw_unread _ _ _ Hscan).
    cbn zeta. destruct (after_newline rest); split; exact HP.
  - contradiction (scan_lf_stores _ Hscan).
Qed.

End Paths.
Import Paths.

(** *** The ledger as a window on the records pushed *)

Module Ledger.

Lemma ledger_length (atm : ATMData) :
  in_capacity atm -> length (ledger atm) = Z.to_nat (tx_count atm).
Proof.
  intros [Hok Hn]. unfold ledger, array_ok, MAX_TX in *.
  rewrite length_take. lia.
Qed.

Lemma last_n_short (k : nat) (l : list Transaction) :
  (length l <= k)%nat -> last_n k l = l.
Proof.
  intros H. unfold last_n. replace (length l - k)%nat with 0%nat by lia. reflexivity.
Qed.

Lemma last_n_full (x : Transaction) (l r : list Transaction) :
  length (x :: l) = 10%nat -> r <> [] ->
  last_n 10 ((x :: l) ++ r) = last_n 10 (l ++ r).
Proof.
  intros Hlen Hr. unfold last_n. cbn [app length] in *. rewrite !length_app.
  destruct r as [|y r]; [contradiction|]. cbn [length].
  replace (S (length l + S (length r)) - 10)%nat with (S (length r)) by lia.
  replace (length l + S (length r) - 10)%nat with (length r) by lia.
  reflexivity.
Qed.

End Ledger.
Import Ledger.

(** *** The listing of [mini_statement] *)

Module Listing.

Lemma print_txs_spec (k : nat) : forall (i : Z) (atm : ATMData) (e : Env),
  0 <= i -> i + Z.of_nat k <= Z.of_nat (length (txs atm)) ->
  print_txs (seqZ i (Z.of_nat k)) atm e =
  Ret tt atm
    (mkEnv (stdin e)
       (stdout e ++ statement_lines i (take k (drop (Z.to_nat i) (txs atm))))
       (disk e) (writable e)).
Proof.
  induction k as [|k IH]; intros i atm e Hi Hlen.
  - simpl. unfold ret. rewrite append_nil_r. destruct e; reflexivity.
  - rewrite Nat2Z.inj_succ, seqZ_cons by lia.
    replace (Z.pred (Z.succ (Z.of_nat k))) with (Z.of_nat k) by lia.
    cbn [print_txs].
    destruct (slot_Some i (txs atm)) as (t & Hs & Hl); [lia|].
    unfold bind at 1, read_tx at 1. rewrite Hs.
    unfold bind at 1, printf at 1.
    rewrite IH by (cbn [txs]; lia). cbn [stdin stdout disk writable].
    rewrite (drop_S _ t (Z.to_nat i)) by exact Hl.
    cbn [take statement_lines].
    replace (S (Z.to_nat i)) with (Z.to_nat (Z.succ i)) by lia.
    replace (i + 1) with (Z.succ i) by lia.
    rewrite !append_assoc. reflexivity.
Qed.

Lemma mini_statement_spec (atm : ATMData) (e : Env) :
  in_capacity atm ->
  mini_statement atm e =
  Ret tt atm
    (mkEnv (stdin e)
       (stdout e ++ "----- Mini Statement (last " ++ fmt_d (tx_count atm)
        ++ ") -----" ++ nl ++ statement_lines 0 (ledger atm)
        ++ (if tx_count atm =? 0 then "No transactions yet." ++ nl else ""))
       (disk e) (writable e)).
Proof.
  intros [Hok Hn]. unfold array_ok, MAX_TX in *.
  unfold mini_statement, bind at 1, get_atm at 1, bind at 1, printf at 1.
  unfold bind at 1.
  replace (seqZ 0 (tx_count atm))
    with (seqZ 0 (Z.of_nat (Z.to_nat (tx_count atm)))) by (f_equal; lia).
  rewrite print_txs_spec by (cbn [txs]; lia).
  cbn [stdin stdout disk writable]. simpl drop. fold (ledger atm).
  destruct (tx_count atm =? 0); unfold printf, ret; cbn [stdin stdout disk writable];
    rewrite ?append_nil_r, !append_assoc; reflexivity.
Qed.

End Listing.
Import Listing.

(** *** What [load_data] leaves *)

Module Loading.

Lemma load_txs_env (idx : list Z) : forall (f : string) (atm : ATMData) (e : Env) v atm' e',
  load_txs idx f atm e = Ret v atm' e' -> e' = e.
Proof.
  induction idx as [|i idx IH]; intros f atm e v atm' e'; cbn [load_txs].
  - intros [= _ _ <-]. reflexivity.
  - unfold bind at 1, get_atm at 1.
    destruct (i <? tx_count atm); [|intros [= _ _ <-]; reflexivity].
    destruct (scan_s TYPE_LENGTH f) as [ty f1| |];
      [| intros [= _ _ <-]; reflexivity | discriminate].
    destruct (scan_lf (skip_ws f1)) as [amt f2| |];
      [| intros [= _ _ <-]; reflexivity | discriminate].
    unfold bind at 1, store_tx.
    destruct (TYPE_LENGTH <=? _); [discriminate|].
    unfold write_tx, bind at 1, get_atm at 1.
    destruct (slot i (txs atm)); [|discriminate].
    unfold set_txs. apply IH.
Qed.

(** The three ways the header fails, and what each has stored by then. *)
Lemma load_data_fails (atm : ATMData) (e : Env) (f : string) :
  disk e = Some f ->
  (forall r, scan_lf f = NoConv r -> load_data atm e = Ret 0 atm e) /\
  (forall b f1 r,
     scan_lf f = Conv b f1 ->
     scan_s PIN_LENGTH (skip_ws f1) = NoConv r ->
     load_data atm e = Ret 0 (mkATMData b (pin atm) (txs atm) (tx_count atm)) e) /\
  (forall b f1 p f2 r,
     scan_lf f = Conv b f1 ->
     scan_s PIN_LENGTH (skip_ws f1) = Conv p f2 ->
     scan_d (skip_ws f2) = NoConv r ->
     load_data atm e = Ret 0 (mkATMData b p (txs atm) (tx_count atm)) e).
Proof.
  intros Hd. unfold load_data, fscanf_header. rewrite Hd. split; [|split].
  - intros r ->. destruct atm; reflexivity.
  - intros b f1 r -> H. unfold bind at 1, bind at 1, set_balance at 1.
    rewrite H. reflexivity.
  - intros b f1 p f2 r -> Hp Hn. unfold bind at 1, bind at 1, set_balance at 1.
    rewrite Hp. unfold bind at 1, strcpy_pin at 1. apply scan_s_fits in Hp.
    destruct (Z.leb_spec PIN_LENGTH (Z.of_nat (String.length p))); [lia|].
    rewrite Hn. reflexivity.
Qed.

(** [load_data] reads: it leaves the input, the output and the file; and
    when it returns 0 the transactions and the count are as they were. *)
Lemma load_data_frame (atm : ATMData) (e : Env) (v : Z) (atm' : ATMData) (e' : Env) :
  load_data atm e = Ret v atm' e' ->
  e' = e /\ (v = 0 \/ v = 1) /\
  (v = 0 -> txs atm' = txs atm /\ tx_count atm' = tx_count atm).
Proof.
  unfold load_data. destruct (disk e) as [f|]; [|intros [= <- <- <-]; auto].
  unfold fscanf_header.
  destruct (scan_lf f) as [b f1|r|];
    [| intros [= <- <- <-]; auto | discriminate].
  unfold bind at 1, bind at 1, set_balance at 1.
  destruct (scan_s PIN_LENGTH (skip_ws f1)) as [p f2|r|];
    [| intros [= <- <- <-]; auto | discriminate].
  unfold bind at 1, strcpy_pin at 1.
  destruct (PIN_LENGTH <=? _); [discriminate|].
  destruct (scan_d (skip_ws f2)) as [n f3|r|];
    [| intros [= <- <- <-]; auto | discriminate].
  unfold bind at 1, set_tx_count at 1, ret at 1.
  cbn [fst snd Z.eqb negb Pos.eqb]. unfold bind at 1.
  destruct (load_txs _ f3 _ e) as [u atm2 e2| |] eqn:Hl; try discriminate.
  apply load_txs_env in Hl. subst e2.
  intros [= <- _ <-]. split; [reflexivity|]. split; [auto|]. discriminate.
Qed.

End Loading.
Import Loading.

(** *** The attempts of [verify_pin] *)

Module Pin.

(** One attempt of [verify_pin] that fails, with [k] attempts left. *)
Lemma verify_pin_tries_wrong (k : nat) (atm : ATMData) (e : Env) (t r : string) :
  scan_s PIN_LENGTH (stdin e) = Conv t r ->
  t <> pin atm ->
  verify_pin_tries (S k) atm e =
  verify_pin_tries k atm
    (mkEnv r
       (stdout e ++ "Enter PIN: " ++ "Incorrect PIN. " ++ fmt_d (Z.of_nat k)
        ++ " attempt(s) left." ++ nl)
       (disk e) (writable e)).
Proof.
  intros Hscan Hne. cbn [verify_pin_tries].
  unfold bind at 1, printf at 1, bind at 1, scanf at 1.
  cbn [stdin stdout disk writable]. rewrite Hscan.
  unfold bind at 1, get_atm at 1.
  destruct (String.eqb_spec t (pin atm)) as [|_]; [contradiction|].
  unfold bind at 1, printf at 1. cbn [stdin stdout disk writable].
  rewrite !append_assoc. reflexivity.
Qed.

Lemma verify_pin_tries_right (k : nat) (atm : ATMData) (e : Env) (r : string) :
  scan_s PIN_LENGTH (stdin e) = Conv (pin atm) r ->
  verify_pin_tries (S k) atm e =
  Ret 1 atm (mkEnv r (stdout e ++ "Enter PIN: ") (disk e) (writable e)).
Proof.
  intros Hscan. cbn [verify_pin_tries].
  unfold bind, printf, scanf, get_atm. cbn [stdin stdout disk writable].
  rewrite Hscan, String.eqb_refl. reflexivity.
Qed.

Lemma verify_pin_strikes (atm : ATMData) (e : Env) (t1 t2 t3 r1 r2 r3 : string) :
  scan_s PIN_LENGTH (stdin e) = Conv t1 r1 -> t1 <> pin atm ->
  scan_s PIN_LENGTH r1 = Conv t2 r2 -> t2 <> pin atm ->
  scan_s PIN_LENGTH r2 = Conv t3 r3 -> t3 <> pin atm ->
  verify_pin atm e =
  Ret 0 atm
    (mkEnv r3
       (stdout e
        ++ "Enter PIN: " ++ "Incorrect PIN. 2 attempt(s) left." ++ nl
        ++ "Enter PIN: " ++ "Incorrect PIN. 1 attempt(s) left." ++ nl
        ++ "Enter PIN: " ++ "Incorrect PIN. 0 attempt(s) left." ++ nl)
       (disk e) (writable e)).
Proof.
  intros H1 N1 H2 N2 H3 N3. unfold verify_pin.
  rewrite (verify_pin_tries_wrong 2 atm e t1 r1 H1 N1).
  rewrite (verify_pin_tries_wrong 1 atm (mkEnv r1 _ _ _) t2 r2 H2 N2).
  rewrite (verify_pin_tries_wrong 0 atm (mkEnv r2 _ _ _) t3 r3 H3 N3).
  cbn [verify_pin_tries stdin stdout disk writable]. unfold ret.
  rewrite !append_assoc. reflexivity.
Qed.

Lemma verify_pin_tries_frame (n : nat) : forall (atm : ATMData) (e : Env),
  tokens_fit n (stdin e) = true ->
  exists v e',
    verify_pin_tries n atm e = Ret v atm e' /\ (v = 0 \/ v = 1) /\
    disk e' = disk e /\ writable e' = writable e /\
    (String.length (stdin e') <= String.length (stdin e))%nat.
Proof.
  induction n as [|n IH]; intros atm e Hfit.
  - exists 0, e. cbn. auto 6.
  - cbn [verify_pin_tries tokens_fit] in *.
    unfold bind at 1, printf at 1, bind at 1, scanf at 1.
    cbn [stdin stdout disk writable].
    pose proof (scan_s_le PIN_LENGTH (stdin e)) as Hle.
    destruct (scan_s PIN_LENGTH (stdin e)) as [t r|r|]; [| |discriminate].
    + unfold bind at 1, get_atm at 1. cbn [rest_le] in Hle.
      destruct (String.eqb t (pin atm)).
      * eexists 1, _. unfold ret. split; [reflexivity|]. cbn. auto.
      * unfold bind at 1, printf at 1.
        match goal with |- context [verify_pin_tries n atm ?x] =>
          destruct (IH atm x Hfit) as (v & e' & -> & Hv & Hd & Hw & Hl) end.
        cbn [stdin stdout disk writable] in *.
        exists v, e'. split; [reflexivity|]. repeat split; auto; lia.
    + eexists 0, _. unfold ret. split; [reflexivity|]. cbn in *. auto.
Qed.

End Pin.
Import Pin.

(** *** A round of the menu *)

Module Rounds.

(** A round of the menu, after its text is printed and the choice read. *)
Lemma menu_once_choice (atm : ATMData) (e : Env) :
  menu_once atm e =
  match scan_d (stdin e) with
  | Conv choice r =>
      let e1 := mkEnv r (stdout e ++ menu_text) (disk e) (writable e) in
      match choice with
      | 1 => (check_balance ;; ret None) atm e1
      | 2 => (deposit ;; ret None) atm e1
      | 3 => (withdraw ;; ret None) atm e1
      | 4 => (mini_statement ;; ret None) atm e1
      | 5 => (change_pin ;; ret None) atm e1
      | 6 => Ret (Some 0) atm
               (mkEnv r (stdout e ++ menu_text ++ "Thank you. Goodbye." ++ nl)
                  (disk e) (writable e))
      | _ => Ret None atm
               (mkEnv r (stdout e ++ menu_text ++ "Invalid choice. Try again." ++ nl)
                  (disk e) (writable e))
      end
  | NoConv r =>
      Ret (Some 0) atm
        (mkEnv r (stdout e ++ menu_text ++ "Invalid input. Exiting." ++ nl)
           (disk e) (writable e))
  | Overrun => Undef
  end.
Proof.
  unfold menu_once. do 8 (unfold bind at 1, printf at 1).
  cbn [stdin stdout disk writable].
  unfold bind at 1, scanf at 1. cbn [stdin stdout disk writable].
  assert (Hout : forall t : string,
            (((((((((stdout e ++ nl ++ "--- ATM Menu ---" ++ nl)
              ++ "1. Check Balance" ++ nl) ++ "2. Deposit" ++ nl)
              ++ "3. Withdraw" ++ nl) ++ "4. Mini Statement" ++ nl)
              ++ "5. Change PIN" ++ nl) ++ "6. Exit" ++ nl)
              ++ "Enter choice: ") ++ t)%string
            = stdout e ++ menu_text ++ t).
  { intros t. unfold menu_text. rewrite !append_assoc. reflexivity. }
  assert (Hout0 :
            ((((((((stdout e ++ nl ++ "--- ATM Menu ---" ++ nl)
              ++ "1. Check Balance" ++ nl) ++ "2. Deposit" ++ nl)
              ++ "3. Withdraw" ++ nl) ++ "4. Mini Statement" ++ nl)
              ++ "5. Change PIN" ++ nl) ++ "6. Exit" ++ nl)
              ++ "Enter choice: ")%string
            = stdout e ++ menu_text).
  { specialize (Hout ""). rewrite !append_nil_r in Hout. exact Hout. }
  destruct (scan_d (stdin e)) as [choice r|r|]; [| |reflexivity].
  - cbn zeta. rewrite <- Hout0, <- !Hout.
    destruct choice as [|[[[p|p|]|[p|p|]|]|[[p|p|]|[p|p|]|]|]|p]; reflexivity.
  - rewrite <- Hout. reflexivity.
Qed.

Lemma menu_more_le (rounds rounds' : nat) (atm : ATMData) (e : Env) (o : outcome Z) :
  menu rounds atm e = Some o -> (rounds <= rounds')%nat -> menu rounds' atm e = Some o.
Proof.
  intros H Hle. induction Hle as [|k _ IH]; [exact H|]. now apply menu_more.
Qed.

End Rounds.
Import Rounds.

(** *** The paths of [change_pin] *)

Module ChangePin.

Lemma change_pin_right_old (atm : ATMData) (e : Env) (r1 : string) :
  scan_s PIN_LENGTH (stdin e) = Conv (pin atm) r1 ->
  change_pin atm e =
  (r <- scanf (scan_s PIN_LENGTH) ;;
   match r with
   | None => ret tt
   | Some newpin =>
       printf "Confirm new PIN: " ;;
       r <- scanf (scan_s PIN_LENGTH) ;;
       match r with
       | None => ret tt
       | Some confirm =>
           if negb (String.eqb newpin confirm) then
             printf ("PINs do not match. Aborting." ++ nl)
           else
             strcpy_pin newpin ;;
             save_data ;;
             printf ("PIN changed successfully." ++ nl)
       end
   end) atm
    (mkEnv r1 (stdout e ++ "Enter current PIN: " ++ "Enter new PIN: ")
       (disk e) (writable e)).
Proof.
  intros H1. unfold change_pin, bind at 1, printf at 1, bind at 1, scanf at 1.
  cbn [stdin stdout disk writable]. rewrite H1.
  unfold bind at 1, get_atm at 1. rewrite String.eqb_refl. cbn [negb].
  unfold bind at 1, printf at 1. cbn [stdin stdout disk writable].
  rewrite append_assoc. reflexivity.
Qed.

Lemma save_txs_same (idx : list Z) : forall (atm : ATMData) (e : Env),
  unless_undefined (fun atm' => atm' = atm) (save_txs idx atm e).
Proof.
  induction idx as [|i idx IH]; intros atm e; cbn [save_txs]; [reflexivity|].
  unfold bind at 1, get_atm at 1.
  destruct (i <? _); [|reflexivity].
  unfold bind at 1, read_tx at 1.
  destruct (slot i (txs atm)); [|exact I].
  unfold bind at 1, fprintf at 1. apply IH.
Qed.

(** [save_data] leaves the record as it is. *)
Lemma save_data_same (atm : ATMData) (e : Env) :
  unless_undefined (fun atm' => atm' = atm) (save_data atm e).
Proof.
  unfold save_data, bind at 1, fopen_w.
  destruct (writable e); cbn [negb]; [|reflexivity].
  unfold bind at 1, get_atm at 1, bind at 1, fprintf at 1.
  apply save_txs_same.
Qed.

(** [change_pin] changes the PIN or nothing. *)
Lemma change_pin_keeps (atm : ATMData) (e : Env) :
  unless_undefined
    (fun atm' => balance atm' = balance atm /\ txs atm' = txs atm /\
                 tx_count atm' = tx_count atm)
    (change_pin atm e).
Proof.
  unfold change_pin, bind at 1, printf at 1, bind at 1, scanf at 1.
  cbn [stdin stdout disk writable].
  destruct (scan_s PIN_LENGTH (stdin e)) as [old r1| |]; [| cbn; auto | exact I].
  unfold bind at 1, get_atm at 1.
  destruct (String.eqb old (pin atm)); cbn [negb]; [| cbn; auto].
  unfold bind at 1, printf at 1, bind at 1, scanf at 1.
  cbn [stdin stdout disk writable].
  destruct (scan_s PIN_LENGTH r1) as [new r2| |]; [| cbn; auto | exact I].
  unfold bind at 1, printf at 1, bind at 1, scanf at 1.
  cbn [stdin stdout disk writable].
  destruct (scan_s PIN_LENGTH r2) as [confirm r3| |]; [| cbn; auto | exact I].
  destruct (String.eqb new confirm); cbn [negb]; [| cbn; auto].
  unfold bind at 1, strcpy_pin at 1.
  destruct (PIN_LENGTH <=? _); [exact I|].
  unfold bind at 1.
  match goal with |- context [save_data ?a ?x] =>
    pose proof (save_data_same a x) as Hs end.
  destruct (save_data _ _) as [u a1 x1| |a1 x1]; cbn in Hs |- *; try exact I;
    subst a1; cbn; auto.
Qed.

End ChangePin.
Import ChangePin.

(** *** What every round keeps *)

Module Invariant.

Lemma unless_mono {A} (P Q : ATMData -> Prop) (o : outcome A) :
  (forall atm, P atm -> Q atm) -> unless_undefined P o -> unless_undefined Q o.
Proof. intros H. destruct o; cbn; auto. Qed.

Lemma ends_unless {A} (P : ATMData -> Prop) (o : outcome A) :
  ends_with P o -> unless_undefined P o.
Proof. destruct o; cbn; auto. Qed.

Lemma then_none (P : ATMData -> Prop) (m : M unit) (atm : ATMData) (e : Env) :
  unless_undefined P (m atm e) ->
  unless_undefined P ((m ;; ret (@None Z)) atm e).
Proof. unfold bind. destruct (m atm e); cbn; auto. Qed.

Lemma amount_ops_sound (atm : ATMData) (e : Env) :
  sound atm -> ends_with sound (deposit atm e) /\ ends_with sound (withdraw atm e).
Proof.
  intros Hs. pose proof Hs as [Hcap Hb]. pose proof Hcap as [Hok Hn].
  apply amount_op_ends; try assumption; try lia.
  - intros a atm' Ha Hb' _ Hok' Hpush. split.
    + exact (pushed_in_capacity _ _ _ Hcap Hok' Hpush).
    + rewrite Hb'. now apply add_not_below.
  - intros a atm' Ha Hlt Hb' _ Hok' Hpush. split.
    + exact (pushed_in_capacity _ _ _ Hcap Hok' Hpush).
    + rewrite Hb'. now apply sub_not_below.
Qed.

Lemma change_pin_sound (atm : ATMData) (e : Env) :
  sound atm -> unless_undefined sound (change_pin atm e).
Proof.
  intros [[Hok Hn] Hbal]. eapply unless_mono; [|apply change_pin_keeps].
  intros atm' (Hb & Ht & Hc).
  unfold sound, in_capacity, array_ok in *. rewrite Hb, Ht, Hc. auto.
Qed.

Lemma menu_once_sound (atm : ATMData) (e : Env) :
  sound atm -> unless_undefined sound (menu_once atm e).
Proof.
  intros Hs. rewrite menu_once_choice.
  destruct (scan_d (stdin e)) as [choice r|r|]; [| exact Hs | exact I].
  cbn zeta.
  destruct choice as [|[[[p|p|]|[p|p|]|]|[[p|p|]|[p|p|]|]|]|p]; try exact Hs;
    apply then_none;
    first [ apply change_pin_sound, Hs
          | apply ends_unless, amount_ops_sound, Hs
          | rewrite mini_statement_spec by apply Hs; exact Hs ].
Qed.

Lemma menu_sound (rounds : nat) : forall (atm : ATMData) (e : Env) (o : outcome Z),
  sound atm -> menu rounds atm e = Some o -> unless_undefined sound o.
Proof.
  induction rounds as [|rounds IH]; intros atm e o Hs; [discriminate|].
  cbn [menu]. pose proof (menu_once_sound atm e Hs) as H1.
  destruct (menu_once atm e) as [[v|] atm' e'| |atm' e'].
  - intros [= <-]. exact H1.
  - apply IH. exact H1.
  - intros [= <-]. exact I.
  - intros [= <-]. exact H1.
Qed.

Lemma verify_pin_tries_same (n : nat) : forall (atm : ATMData) (e : Env),
  unless_undefined (fun atm' => atm' = atm) (verify_pin_tries n atm e).
Proof.
  induction n as [|n IH]; intros atm e; cbn [verify_pin_tries]; [reflexivity|].
  unfold bind at 1, printf at 1, bind at 1, scanf at 1.
  cbn [stdin stdout disk writable].
  destruct (scan_s PIN_LENGTH (stdin e)) as [t r|r|]; [| reflexivity | exact I].
  unfold bind at 1, get_atm at 1.
  destruct (String.eqb t (pin atm)); [reflexivity|].
  unfold bind at 1, printf at 1. apply IH.
Qed.

(** A run of [main] from a record that [main_startup] leaves sound. *)
Lemma main_sound (atm : ATMData) (e : Env) (atm1 : ATMData) (e1 : Env) (o : outcome Z) :
  main_startup atm e = Ret tt atm1 e1 -> sound atm1 ->
  main atm e = Some o -> unless_undefined sound o.
Proof.
  intros Hstart Hs. unfold main, bind at 1. rewrite Hstart.
  unfold bind at 1, printf at 1.
  match goal with |- context [verify_pin ?a ?x] =>
    pose proof (verify_pin_tries_same 3 a x) as Hv;
    fold verify_pin in Hv;
    destruct (verify_pin a x) as [ok atm2 e2| |atm2 e2] end.
  - cbn in Hv. subst atm2. destruct (ok =? 0).
    + intros [= <-]. exact Hs.
    + apply menu_sound, Hs.
  - intros [= <-]. exact I.
  - cbn in Hv. subst atm2. intros [= <-]. exact Hs.
Qed.

End Invariant.
Import Invariant.

(** *** Counts outside the array *)

Module Bounds.

Lemma print_txs_app (l1 l2 : list Z) (atm : ATMData) (e : Env) :
  print_txs (l1 ++ l2) atm e = (print_txs l1 ;; print_txs l2) atm e.
Proof.
  revert atm e. induction l1 as [|i l1 IH]; intros atm e; [reflexivity|].
  cbn [app print_txs]. unfold bind in *.
  destruct (read_tx i atm e) as [t atm1 e1| |]; try reflexivity.
  destruct (printf _ atm1 e1) as [u atm2 e2| |]; try reflexivity.
  apply IH.
Qed.

End Bounds.
Import Bounds.

(** *** Rounds without undefined behaviour *)

Module Safe.

Lemma change_pin_returns (atm : ATMData) (e : Env) :
  array_ok atm -> tokens_fit 3 (stdin e) = true ->
  exists atm' e', change_pin atm e = Ret tt atm' e'.
Proof.
  intros Hok Hfit. cbn [tokens_fit] in Hfit.
  destruct (scan_s PIN_LENGTH (stdin e)) as [old r1|r|] eqn:H1; [| |discriminate].
  2:{ unfold change_pin, bind, printf, scanf. cbn [stdin stdout disk writable].
      rewrite H1. eexists _, _. reflexivity. }
  destruct (String.eqb_spec old (pin atm)) as [->|Hne].
  2:{ unfold change_pin, bind, printf, scanf, get_atm.
      cbn [stdin stdout disk writable]. rewrite H1.
      destruct (String.eqb_spec old (pin atm)) as [|_]; [contradiction|].
      eexists _, _. reflexivity. }
  rewrite (change_pin_right_old atm e r1 H1).
  unfold bind at 1, scanf at 1. cbn [stdin stdout disk writable].
  destruct (scan_s PIN_LENGTH r1) as [new r2|r|] eqn:H2;
    [| eexists _, _; reflexivity | discriminate].
  unfold bind at 1, printf at 1, bind at 1, scanf at 1.
  cbn [stdin stdout disk writable].
  destruct (scan_s PIN_LENGTH r2) as [confirm r3|r|];
    [| eexists _, _; reflexivity | discriminate].
  destruct (String.eqb new confirm); cbn [negb]; [| eexists _, _; reflexivity].
  unfold bind at 1, strcpy_pin at 1.
  apply scan_s_fits in H2.
  destruct (Z.leb_spec PIN_LENGTH (Z.of_nat (String.length new))); [lia|].
  unfold bind at 1. rewrite save_data_spec by exact Hok.
  eexists _, _. reflexivity.
Qed.

Lemma then_none_defined (m : M unit) (atm : ATMData) (e : Env) :
  m atm e <> Undef -> (m ;; ret (@None Z)) atm e <> Undef.
Proof. unfold bind. destruct (m atm e); [discriminate | congruence | discriminate]. Qed.

Lemma ends_defined {A} (P : ATMData -> Prop) (o : outcome A) :
  ends_with P o -> o <> Undef.
Proof. destruct o; [discriminate | contradiction | discriminate]. Qed.

End Safe.
Import Safe.

(** *** The properties *)

(** X1: whatever is typed at the prompt, [deposit] and [withdraw] end (they
    return, or stay in the loop that skips the line) with a balance that is
    not below zero, when the balance was not below zero before. A NaN is not
    below zero: the balance may become NaN, never negative. The array has
    its slots and the count is not negative. *)
Theorem balance_never_below_zero (atm : ATMData) (e : Env) :
  array_ok atm -> 0 <= tx_count atm ->
  (balance atm <? 0)%float = false ->
  ends_with (fun atm' => (balance atm' <? 0)%float = false) (deposit atm e) /\
  ends_with (fun atm' => (balance atm' <? 0)%float = false) (withdraw atm e).
Proof.
  intros Hok Hn Hb. apply amount_op_ends; try assumption.
  - intros a atm' Ha -> _ _ _. now apply add_not_below.
  - intros a atm' Ha Hlt -> _ _ _. now apply sub_not_below.
Qed.

(** X1, instances: [nan] deposited, and the whole balance withdrawn. *)
Lemma balance_never_below_zero_witness :
  ends_with (fun atm' => (balance atm' <? 0)%float = false)
    (deposit default_atm (typed ("nan" ++ nl))) /\
  ends_with (fun atm' => (balance atm' <? 0)%float = false)
    (withdraw default_atm (typed ("1000" ++ nl))).
Proof.
  split; apply (balance_never_below_zero default_atm);
    first [reflexivity | vm_compute; discriminate].
Defined.

(** X2: on a record within its capacity, whatever is typed, [deposit] and
    [withdraw] have no undefined behaviour and end with a record within its
    capacity ([tx_count] one of 0 to 10) and the same PIN. *)
Theorem amount_ops_keep_capacity (atm : ATMData) (e : Env) :
  in_capacity atm ->
  ends_with (fun atm' => in_capacity atm' /\ pin atm' = pin atm) (deposit atm e) /\
  ends_with (fun atm' => in_capacity atm' /\ pin atm' = pin atm) (withdraw atm e).
Proof.
  intros Hcap. pose proof Hcap as [Hok Hn].
  apply amount_op_ends; try assumption; try lia; [now split | |].
  - intros a atm' _ _ Hp Hok' Hpush. split; [|exact Hp].
    exact (pushed_in_capacity _ _ _ Hcap Hok' Hpush).
  - intros a atm' _ _ _ Hp Hok' Hpush. split; [|exact Hp].
    exact (pushed_in_capacity _ _ _ Hcap Hok' Hpush).
Qed.

(** X2, an instance: 5 deposited and withdrawn on a full ledger. *)
Lemma amount_ops_keep_capacity_witness :
  ends_with (fun atm' => in_capacity atm' /\ pin atm' = pin stale_atm)
    (deposit stale_atm (typed ("5" ++ nl))) /\
  ends_with (fun atm' => in_capacity atm' /\ pin atm' = pin stale_atm)
    (withdraw stale_atm (typed ("5" ++ nl))).
Proof.
  apply (amount_ops_keep_capacity stale_atm (typed ("5" ++ nl))).
  split; [reflexivity | unfold MAX_TX; simpl; lia].
Defined.

(** X3: when what is typed at the prompt is no number ([scanf] does not
    return 1), [deposit] and [withdraw] say "Invalid amount." and skip the
    rest of the line, from where the conversion stopped; the record and the
    data file are as they were. At the end of input the skipping loop does
    not end. *)
Theorem unreadable_amount_rejected (atm : ATMData) (e : Env) (rest : string) :
  scan_lf (stdin e) = NoConv rest ->
  deposit atm e =
    (let out := stdout e ++ "Enter amount to deposit: " ++ "Invalid amount." ++ nl in
     match after_newline rest with
     | Some r => Ret tt atm (mkEnv r out (disk e) (writable e))
     | None => Hang atm (mkEnv "" out (disk e) (writable e))
     end) /\
  withdraw atm e =
    (let out := stdout e ++ "Enter amount to withdraw: " ++ "Invalid amount." ++ nl in
     match after_newline rest with
     | Some r => Ret tt atm (mkEnv r out (disk e) (writable e))
     | None => Hang atm (mkEnv "" out (disk e) (writable e))
     end).
Proof.
  intros Hscan. split.
  - apply (deposit_unread atm e rest Hscan).
  - apply (withdraw_unread atm e rest Hscan).
Qed.

(** X3, instances: a word typed, with the next line left to read; and no input. *)
Lemma unreadable_amount_rejected_witness :
  (deposit default_atm (typed ("ten 3" ++ nl ++ "6" ++ nl)) =
     Ret tt default_atm
       (mkEnv ("6" ++ nl) ("Enter amount to deposit: " ++ "Invalid amount." ++ nl)
          None true) /\
   withdraw default_atm (typed ("ten 3" ++ nl ++ "6" ++ nl)) =
     Ret tt default_atm
       (mkEnv ("6" ++ nl) ("Enter amount to withdraw: " ++ "Invalid amount." ++ nl)
          None true)) /\
  (deposit default_atm (typed "") =
     Hang default_atm
       (mkEnv "" ("Enter amount to deposit: " ++ "Invalid amount." ++ nl) None true) /\
   withdraw default_atm (typed "") =
     Hang default_atm
       (mkEnv "" ("Enter amount to withdraw: " ++ "Invalid amount." ++ nl) None true)).
Proof.
  split.
  - apply (unreadable_amount_rejected default_atm
             (typed ("ten 3" ++ nl ++ "6" ++ nl)) ("ten 3" ++ nl ++ "6" ++ nl)).
    reflexivity.
  - apply (unreadable_amount_rejected default_atm (typed "") ""). reflexivity.
Defined.

(** X4: a deposit, or a withdrawal below the balance, of an amount that is
    not [<= 0], prints its success and then saves: the data file holds the
    text of the new record when it can be written; when it cannot, the
    balance is changed in memory all the same, the warning follows the
    message of success, and the file is as it was. *)
Theorem commit_is_saved (atm : ATMData) (e : Env) (a : float) (rest : string) :
  array_ok atm -> 0 <= tx_count atm ->
  scan_lf (stdin e) = Conv a rest ->
  (a <=? 0)%float = false ->
  (exists atm',
     deposit atm e =
       Ret tt atm'
         (saved atm'
            (mkEnv rest
               (stdout e ++ "Enter amount to deposit: "
                ++ "Deposited " ++ fmt_2f a ++ " successfully." ++ nl)
               (disk e) (writable e))) /\
     balance atm' = (balance atm + a)%float) /\
  ((balance atm <? a)%float = false ->
   exists atm',
     withdraw atm e =
       Ret tt atm'
         (saved atm'
            (mkEnv rest
               (stdout e ++ "Enter amount to withdraw: "
                ++ "Withdrawn " ++ fmt_2f a ++ " successfully." ++ nl)
               (disk e) (writable e))) /\
     balance atm' = (balance atm - a)%float).
Proof.
  intros Hok Hn Hscan Hpos. split.
  - destruct (deposit_saved atm e a rest Hok Hn Hscan Hpos) as (atm' & H & Hb & _).
    eauto.
  - intros Hle.
    destruct (withdraw_saved atm e a rest Hok Hn Hscan Hpos Hle) as (atm' & H & Hb & _).
    eauto.
Qed.

(** X4, instances: 250.5 deposited and saved; 250.5 withdrawn where the file cannot be written. *)
Lemma commit_is_saved_witness :
  (exists atm',
     deposit default_atm (typed ("250.5" ++ nl)) =
       Ret tt atm'
         (mkEnv nl
            ("Enter amount to deposit: " ++ "Deposited 250.50 successfully." ++ nl)
            (Some ("1250.50 1234 1" ++ nl ++ "Deposit 250.50" ++ nl)) true)) /\
  (exists atm',
     withdraw default_atm (mkEnv ("250.5" ++ nl) "" (Some "old") false) =
       Ret tt atm'
         (mkEnv nl
            ("Enter amount to withdraw: " ++ "Withdrawn 250.50 successfully." ++ nl
             ++ "Warning: Could not save data." ++ nl)
            (Some "old") false) /\
     balance atm' = 749.5%float).
Proof.
  split.
  - destruct (commit_is_saved default_atm (typed ("250.5" ++ nl)) 250.5%float nl)
      as [(atm' & H & Hb) _];
      [reflexivity | vm_compute; discriminate | reflexivity | reflexivity |].
    exists atm'. rewrite H. f_equal.
    vm_compute in H. injection H as <-. vm_compute. reflexivity.
  - destruct (commit_is_saved default_atm
                (mkEnv ("250.5" ++ nl) "" (Some "old") false) 250.5%float nl)
      as [_ Hwd];
      [reflexivity | vm_compute; discriminate | reflexivity | reflexivity |].
    destruct (Hwd eq_refl) as (atm' & H & Hb).
    exists atm'. split; [rewrite H; reflexivity|]. rewrite Hb. reflexivity.
Defined.

(** X5: an amount equal to the balance (finite, above zero) is not refused
    as insufficient: [withdraw] commits it and the balance is exactly zero. *)
Theorem withdraw_whole_balance (atm : ATMData) (e : Env) (rest : string) :
  array_ok atm -> 0 <= tx_count atm ->
  scan_lf (stdin e) = Conv (balance atm) rest ->
  (0 <? balance atm)%float = true ->
  (balance atm <? infinity)%float = true ->
  exists atm' e',
    withdraw atm e = Ret tt atm' e' /\
    balance atm' = 0%float /\
    pushed atm (mkTransaction "Withdraw" (balance atm)) atm'.
Proof.
  intros Hok Hn Hscan Hpos Hfin.
  assert (Hlt : (balance atm <? balance atm)%float = false).
  { rewrite ltb_spec. unfold SFltb.
    destruct (Prim2SF (balance atm)) as [s|s| |s m ex]; try destruct s; simpl;
      rewrite ?Z.compare_refl, ?Pos.compare_cont_refl; reflexivity. }
  destruct (withdraw_saved atm e _ rest Hok Hn Hscan (ltb_leb_false _ _ Hpos) Hlt)
    as (atm' & H & Hb & _ & _ & Hpush).
  eexists atm', _. split; [exact H|]. split; [|exact Hpush].
  rewrite Hb. now apply sub_diag.
Qed.

(** X5, an instance: 1000 withdrawn from the default record. *)
Lemma withdraw_whole_balance_witness :
  exists atm' e',
    withdraw default_atm (typed ("1000" ++ nl)) = Ret tt atm' e' /\
    balance atm' = 0%float /\
    pushed default_atm (mkTransaction "Withdraw" (balance default_atm)) atm'.
Proof.
  apply (withdraw_whole_balance default_atm (typed ("1000" ++ nl)) nl);
    first [reflexivity | vm_compute; discriminate].
Defined.

(** X6: [add_transaction] called for each record of a list [l] in turn, on
    a record within its capacity, never fails; the ledger is then the last
    ten records of the old ledger followed by [l], in their order, the count
    is [min(10, count + length l)], and the balance and the PIN are as they
    were. *)
Theorem add_all_keeps_last_ten (l : list Transaction) (atm : ATMData) (e : Env) :
  in_capacity atm ->
  Forall (fun t => Z.of_nat (String.length (type t)) < TYPE_LENGTH) l ->
  exists atm',
    add_all l atm e = Ret tt atm' e /\
    in_capacity atm' /\
    balance atm' = balance atm /\ pin atm' = pin atm /\
    tx_count atm' = Z.min MAX_TX (tx_count atm + Z.of_nat (length l)) /\
    ledger atm' = last_n 10 (ledger atm ++ l).
Proof.
  revert atm e. induction l as [|t l IH]; intros atm e Hcap Hty.
  - exists atm. cbn [add_all length]. split; [reflexivity|]. split; [exact Hcap|].
    split; [reflexivity|]. split; [reflexivity|].
    pose proof (ledger_length atm Hcap) as Hlen. destruct Hcap as [_ Hn].
    unfold MAX_TX in *. split; [lia|].
    rewrite app_nil_r, last_n_short; [reflexivity | lia].
  - apply Forall_cons in Hty as [Ht Hty]. pose proof Hcap as [Hok Hn].
    destruct (add_transaction_pushed (type t) (amount t) atm e Ht Hok)
      as (atm1 & Hadd & Hb1 & Hp1 & Hok1 & Hpush); [lia|].
    replace (mkTransaction (type t) (amount t)) with t in Hpush by (now destruct t).
    pose proof (pushed_in_capacity _ _ _ Hcap Hok1 Hpush) as Hcap1.
    destruct (IH atm1 e Hcap1 Hty) as (atm' & Hall & Hcap' & Hb & Hp & Hc & Hl).
    exists atm'. cbn [add_all]. unfold bind. rewrite Hadd.
    split; [exact Hall|]. split; [exact Hcap'|].
    split; [congruence|]. split; [congruence|].
    pose proof (ledger_length atm Hcap) as Hlen.
    destruct Hpush as [Hlt Heq]. cbn [length]. unfold MAX_TX in *.
    destruct (Z.eq_dec (tx_count atm) 10) as [E|E].
    + destruct (Heq E) as (Hc1 & Hl1 & _). split; [lia|].
      rewrite Hl, Hl1.
      destruct (ledger atm) as [|x L] eqn:EL; [simpl in Hlen; lia|].
      cbn [drop]. rewrite drop_0, <- app_assoc. cbn [app].
      symmetry. apply last_n_full; [rewrite Hlen, E; reflexivity | discriminate].
    + destruct Hlt as (Hc1 & Hl1); [lia|]. split; [lia|].
      rewrite Hl, Hl1, <- app_assoc. reflexivity.
Qed.

(** X6, an instance: twelve records pushed on the empty ledger leave the third to the twelfth. *)
Lemma add_all_keeps_last_ten_witness :
  exists atm',
    add_all (map (mkTransaction "Deposit")
               [1%float; 2%float; 3%float; 4%float; 5%float; 6%float; 7%float;
                8%float; 9%float; 10%float; 11%float; 12%float])
      default_atm (typed "") = Ret tt atm' (typed "") /\
    tx_count atm' = 10 /\
    ledger atm' =
      map (mkTransaction "Deposit")
        [3%float; 4%float; 5%float; 6%float; 7%float; 8%float; 9%float;
         10%float; 11%float; 12%float].
Proof.
  destruct (add_all_keeps_last_ten
              (map (mkTransaction "Deposit")
                 [1%float; 2%float; 3%float; 4%float; 5%float; 6%float; 7%float;
                  8%float; 9%float; 10%float; 11%float; 12%float])
              default_atm (typed ""))
    as (atm' & H & _ & _ & _ & Hc & Hl).
  - split; [reflexivity | unfold MAX_TX; simpl; lia].
  - repeat constructor.
  - exists atm'. split; [exact H|]. split; [rewrite Hc; reflexivity|].
    rewrite Hl. reflexivity.
Defined.

(** X7: on a record within its capacity [mini_statement] prints the header
    with the count, then the records of the ledger numbered from 1, oldest
    first, with two decimals, and "No transactions yet." when the count is 0;
    it changes neither the record nor the data file nor the input. *)
Theorem mini_statement_lists_ledger (atm : ATMData) (e : Env) :
  in_capacity atm ->
  mini_statement atm e =
  Ret tt atm
    (mkEnv (stdin e)
       (stdout e ++ "----- Mini Statement (last " ++ fmt_d (tx_count atm)
        ++ ") -----" ++ nl ++ statement_lines 0 (ledger atm)
        ++ (if tx_count atm =? 0 then "No transactions yet." ++ nl else ""))
       (disk e) (writable e)).
Proof. apply mini_statement_spec. Qed.

(** X7, instances: a ledger of two records, and the empty ledger. *)
Lemma mini_statement_lists_ledger_witness :
  mini_statement
    (mkATMData 1200 "1234"
       (<[1%nat := mkTransaction "Withdraw" 300]>
          (<[0%nat := mkTransaction "Deposit" 500]> empty_slots)) 2)
    (typed "") =
  Ret tt
    (mkATMData 1200 "1234"
       (<[1%nat := mkTransaction "Withdraw" 300]>
          (<[0%nat := mkTransaction "Deposit" 500]> empty_slots)) 2)
    (mkEnv ""
       ("----- Mini Statement (last 2) -----" ++ nl
        ++ "1. Deposit : 500.00" ++ nl ++ "2. Withdraw : 300.00" ++ nl)
       None true) /\
  mini_statement default_atm (typed "") =
  Ret tt default_atm
    (mkEnv ""
       ("----- Mini Statement (last 0) -----" ++ nl ++ "No transactions yet." ++ nl)
       None true).
Proof.
  split.
  - rewrite (mini_statement_lists_ledger
               (mkATMData 1200 "1234"
                  (<[1%nat := mkTransaction "Withdraw" 300]>
                     (<[0%nat := mkTransaction "Deposit" 500]> empty_slots)) 2)
               (typed ""))
      by (split; [reflexivity | unfold MAX_TX; simpl; lia]).
    vm_compute. reflexivity.
  - rewrite (mini_statement_lists_ledger default_atm (typed ""))
      by (split; [reflexivity | unfold MAX_TX; simpl; lia]).
    vm_compute. reflexivity.
Defined.

(** X8: whatever the count, [save_data] reads no slot outside the array: it
    returns with the record as it was, and the file (emptied first) holds
    the header and at most ten transaction lines; where the file cannot be
    opened it prints the warning and leaves the file. Saving again gives the
    same file. *)
Theorem save_data_any_count (atm : ATMData) (e : Env) :
  array_ok atm ->
  save_data atm e = Ret tt atm (saved atm e) /\
  (length (saved_txs atm) <= 10)%nat /\
  (forall e1, save_data atm e = Ret tt atm e1 -> save_data atm e1 = Ret tt atm
     (if writable e then e1
      else mkEnv (stdin e1) (stdout e1 ++ "Warning: Could not save data." ++ nl)
             (disk e1) false)).
Proof.
  intros Hok. rewrite (save_data_spec atm e Hok). fold (saved atm e).
  split; [reflexivity|]. split.
  - rewrite (saved_txs_length atm Hok). unfold MAX_TX. lia.
  - intros e1 [= <-]. rewrite (save_data_spec atm _ Hok). unfold saved.
    destruct (writable e); reflexivity.
Qed.

(** X8, an instance: a count of 15 is written in the header, followed by ten lines. *)
Lemma save_data_any_count_witness :
  save_data (mkATMData 7 "0000" (replicate 10 (mkTransaction "Stale" 1)) 15)
    (typed "") =
  Ret tt (mkATMData 7 "0000" (replicate 10 (mkTransaction "Stale" 1)) 15)
    (mkEnv "" ""
       (Some ("7.00 0000 15" ++ nl
              ++ tx_lines (replicate 10 (mkTransaction "Stale" 1)))) true).
Proof.
  destruct (save_data_any_count
              (mkATMData 7 "0000" (replicate 10 (mkTransaction "Stale" 1)) 15)
              (typed "")) as (H & _); [reflexivity|].
  rewrite H. vm_compute. reflexivity.
Defined.

(** X9: the first statement of [main]. When [load_data] returns 0 (no
    file, or a header that does not parse), the record is set to the
    defaults (balance 1000, PIN 1234, count 0) whatever the load stored, and
    saved: the data file is replaced by the line "1000.00 1234 0". When it
    returns 1, the record is the one loaded and nothing is written. *)
Theorem startup_after_load (atm : ATMData) (e : Env) (v : Z) (atm1 : ATMData) (e1 : Env) :
  array_ok atm ->
  load_data atm e = Ret v atm1 e1 ->
  (v = 0 ->
   main_startup atm e =
     Ret tt (mkATMData 1000 "1234" (txs atm) 0)
       (saved (mkATMData 1000 "1234" (txs atm) 0) e) /\
   file_text (mkATMData 1000 "1234" (txs atm) 0) = "1000.00 1234 0" ++ nl) /\
  (v <> 0 -> main_startup atm e = Ret tt atm1 e).
Proof.
  intros Hok Hload.
  destruct (load_data_frame _ _ _ _ _ Hload) as (-> & Hv & Hkeep).
  split.
  - intros ->. destruct (Hkeep eq_refl) as (Htxs & _).
    unfold main_startup, bind at 1. rewrite Hload.
    cbn [Z.eqb]. unfold bind at 1, init_default at 1.
    rewrite save_data_spec by (unfold array_ok; cbn [txs]; rewrite Htxs; exact Hok).
    rewrite Htxs. split; reflexivity.
  - intros Hne. unfold main_startup, bind at 1. rewrite Hload.
    destruct Hv as [->| ->]; [contradiction|]. reflexivity.
Qed.

(** X9, instances: a file without a count is replaced by the defaults; a file with a full header is kept. *)
Lemma startup_after_load_witness :
  main_startup stale_atm (on_disk ("12.50 1234" ++ nl)) =
    Ret tt (mkATMData 1000 "1234" (txs stale_atm) 0)
      (on_disk ("1000.00 1234 0" ++ nl)) /\
  main_startup stale_atm (on_disk ("12.50 1234 0" ++ nl)) =
    Ret tt (mkATMData 12.5 "1234" (txs stale_atm) 0)
      (on_disk ("12.50 1234 0" ++ nl)).
Proof.
  split.
  - destruct (startup_after_load stale_atm (on_disk ("12.50 1234" ++ nl)) 0
                (mkATMData 12.5 "1234" (txs stale_atm) 10)
                (on_disk ("12.50 1234" ++ nl)))
      as [H0 _]; [reflexivity | vm_compute; reflexivity |].
    destruct (H0 eq_refl) as [H _]. rewrite H. vm_compute. reflexivity.
  - destruct (startup_after_load stale_atm (on_disk ("12.50 1234 0" ++ nl)) 1
                (mkATMData 12.5 "1234" (txs stale_atm) 0)
                (on_disk ("12.50 1234 0" ++ nl)))
      as [_ H1]; [reflexivity | vm_compute; reflexivity |].
    apply H1. discriminate.
Defined.

(** X10: [load_data] returns 0 when there is no file, and when one of the
    three fields of the header does not parse; by then it has stored the
    fields before that one in the record (the balance; the balance and the
    PIN), and left the transactions and the count. *)
Theorem load_failure_stores_fields (atm : ATMData) (e : Env) :
  (disk e = None -> load_data atm e = Ret 0 atm e) /\
  (forall f, disk e = Some f ->
     (forall r, scan_lf f = NoConv r -> load_data atm e = Ret 0 atm e) /\
     (forall b f1 r,
        scan_lf f = Conv b f1 ->
        scan_s PIN_LENGTH (skip_ws f1) = NoConv r ->
        load_data atm e =
          Ret 0 (mkATMData b (pin atm) (txs atm) (tx_count atm)) e) /\
     (forall b f1 p f2 r,
        scan_lf f = Conv b f1 ->
        scan_s PIN_LENGTH (skip_ws f1) = Conv p f2 ->
        scan_d (skip_ws f2) = NoConv r ->
        load_data atm e = Ret 0 (mkATMData b p (txs atm) (tx_count atm)) e)).
Proof.
  split.
  - intros Hd. unfold load_data. rewrite Hd. reflexivity.
  - intros f Hd. apply (load_data_fails atm e f Hd).
Qed.

(** X10, instances: no file, a word, a balance alone, a balance and a PIN and a word. *)
Lemma load_failure_stores_fields_witness :
  load_data stale_atm (typed "") = Ret 0 stale_atm (typed "") /\
  load_data stale_atm (on_disk "balance") = Ret 0 stale_atm (on_disk "balance") /\
  load_data stale_atm (on_disk "12.50") =
    Ret 0 (mkATMData 12.5 "0000" (txs stale_atm) 10) (on_disk "12.50") /\
  load_data stale_atm (on_disk "12.50 4321 many") =
    Ret 0 (mkATMData 12.5 "4321" (txs stale_atm) 10) (on_disk "12.50 4321 many").
Proof.
  split; [apply (load_failure_stores_fields stale_atm (typed "")); reflexivity|].
  split; [|split].
  - destruct (load_failure_stores_fields stale_atm (on_disk "balance")) as [_ H].
    destruct (H "balance" eq_refl) as (H0 & _). apply (H0 "balance"). reflexivity.
  - destruct (load_failure_stores_fields stale_atm (on_disk "12.50")) as [_ H].
    destruct (H "12.50" eq_refl) as (_ & H1 & _).
    apply (H1 12.5%float "" ""); reflexivity.
  - destruct (load_failure_stores_fields stale_atm (on_disk "12.50 4321 many")) as [_ H].
    destruct (H "12.50 4321 many" eq_refl) as (_ & _ & H2).
    apply (H2 12.5%float " 4321 many" "4321" " many" "many"); reflexivity.
Defined.

(** X11: a file whose header parses with a count [n] of 0 to 10, followed by
    [n] transaction lines that parse, is loaded into any record: [load_data]
    returns 1 with the balance, the PIN and the count of the header, a
    ledger that is exactly the records of those lines, and a record within
    its capacity. *)
Theorem load_complete_file
    (atm : ATMData) (e : Env) (f f1 f2 f3 : string)
    (b : float) (p : string) (n : Z) (recs : list Transaction) :
  array_ok atm ->
  disk e = Some f ->
  scan_lf f = Conv b f1 ->
  scan_s PIN_LENGTH (skip_ws f1) = Conv p f2 ->
  scan_d (skip_ws f2) = Conv n f3 ->
  0 <= n <= MAX_TX ->
  parse_txs (Z.to_nat n) f3 = Some recs ->
  length recs = Z.to_nat n ->
  exists atm',
    load_data atm e = Ret 1 atm' e /\
    in_capacity atm' /\
    balance atm' = b /\ pin atm' = p /\ tx_count atm' = n /\
    ledger atm' = recs.
Proof.
  intros Hok Hd Hb Hp Hn Hrange Hrecs Hlen.
  eexists. split.
  { eapply load_data_parsed; try eassumption.
    rewrite Z.min_l by lia. exact Hrecs. }
  unfold in_capacity, array_ok, ledger, overwrite, MAX_TX in *. cbn [txs tx_count balance pin].
  rewrite take_0. cbn [app Nat.add].
  split; [split; [|lia]|].
  - rewrite length_app, length_drop. lia.
  - do 3 (split; [reflexivity|]).
    rewrite <- Hlen. apply take_app_length.
Qed.

(** X11, an instance: a header that says 2, and two lines. *)
Lemma load_complete_file_witness :
  exists atm',
    load_data stale_atm
      (on_disk ("100.00 1234 2" ++ nl ++ "Deposit 5.00" ++ nl ++ "Withdraw 7" ++ nl)) =
      Ret 1 atm'
        (on_disk ("100.00 1234 2" ++ nl ++ "Deposit 5.00" ++ nl ++ "Withdraw 7" ++ nl)) /\
    in_capacity atm' /\
    balance atm' = 100%float /\ pin atm' = "1234" /\ tx_count atm' = 2 /\
    ledger atm' = [mkTransaction "Deposit" 5; mkTransaction "Withdraw" 7].
Proof.
  apply (load_complete_file stale_atm
           (on_disk ("100.00 1234 2" ++ nl ++ "Deposit 5.00" ++ nl ++ "Withdraw 7" ++ nl))
           ("100.00 1234 2" ++ nl ++ "Deposit 5.00" ++ nl ++ "Withdraw 7" ++ nl)
           (" 1234 2" ++ nl ++ "Deposit 5.00" ++ nl ++ "Withdraw 7" ++ nl)
           (" 2" ++ nl ++ "Deposit 5.00" ++ nl ++ "Withdraw 7" ++ nl)
           (nl ++ "Deposit 5.00" ++ nl ++ "Withdraw 7" ++ nl)
           100%float "1234" 2);
    first [reflexivity | vm_compute; reflexivity | unfold MAX_TX; lia].
Defined.

(** X12: after a first wrong PIN, [verify_pin] counts down: it returns 1 at
    the second or the third token when that is the stored PIN, with the
    attempts left (2, 1) printed after each wrong one; after three wrong
    tokens it returns 0 and reads no more, so a right PIN typed fourth is
    left on the input. The record and the data file are as they were. *)
Theorem verify_pin_three_attempts
    (atm : ATMData) (e : Env) (t1 t2 t3 r1 r2 r3 : string) :
  scan_s PIN_LENGTH (stdin e) = Conv t1 r1 -> t1 <> pin atm ->
  scan_s PIN_LENGTH r1 = Conv t2 r2 ->
  scan_s PIN_LENGTH r2 = Conv t3 r3 ->
  (t2 = pin atm ->
   verify_pin atm e =
   Ret 1 atm
     (mkEnv r2
        (stdout e ++ "Enter PIN: " ++ "Incorrect PIN. 2 attempt(s) left." ++ nl
         ++ "Enter PIN: ")
        (disk e) (writable e))) /\
  (t2 <> pin atm -> t3 = pin atm ->
   verify_pin atm e =
   Ret 1 atm
     (mkEnv r3
        (stdout e ++ "Enter PIN: " ++ "Incorrect PIN. 2 attempt(s) left." ++ nl
         ++ "Enter PIN: " ++ "Incorrect PIN. 1 attempt(s) left." ++ nl
         ++ "Enter PIN: ")
        (disk e) (writable e))) /\
  (t2 <> pin atm -> t3 <> pin atm ->
   verify_pin atm e =
   Ret 0 atm
     (mkEnv r3
        (stdout e
         ++ "Enter PIN: " ++ "Incorrect PIN. 2 attempt(s) left." ++ nl
         ++ "Enter PIN: " ++ "Incorrect PIN. 1 attempt(s) left." ++ nl
         ++ "Enter PIN: " ++ "Incorrect PIN. 0 attempt(s) left." ++ nl)
        (disk e) (writable e))).
Proof.
  intros H1 N1 H2 H3. split; [|split].
  - intros E2. subst t2. unfold verify_pin.
    rewrite (verify_pin_tries_wrong 2 atm e t1 r1 H1 N1).
    rewrite (verify_pin_tries_right 1 atm (mkEnv r1 _ _ _) r2 H2).
    cbn [stdin stdout disk writable]. rewrite !append_assoc. reflexivity.
  - intros N2 E3. subst t3. unfold verify_pin.
    rewrite (verify_pin_tries_wrong 2 atm e t1 r1 H1 N1).
    rewrite (verify_pin_tries_wrong 1 atm (mkEnv r1 _ _ _) t2 r2 H2 N2).
    rewrite (verify_pin_tries_right 0 atm (mkEnv r2 _ _ _) r3 H3).
    cbn [stdin stdout disk writable]. rewrite !append_assoc. reflexivity.
  - intros N2 N3. apply (verify_pin_strikes atm e t1 t2 t3 r1 r2 r3); assumption.
Qed.

(** X12, instances: the PIN typed second, third, and fourth. *)
Lemma verify_pin_three_attempts_witness :
  verify_pin default_atm (typed ("1 1234 6" ++ nl)) =
    Ret 1 default_atm
      (mkEnv (" 6" ++ nl)
         ("Enter PIN: " ++ "Incorrect PIN. 2 attempt(s) left." ++ nl ++ "Enter PIN: ")
         None true) /\
  verify_pin default_atm (typed ("1 2 1234 6" ++ nl)) =
    Ret 1 default_atm
      (mkEnv (" 6" ++ nl)
         ("Enter PIN: " ++ "Incorrect PIN. 2 attempt(s) left." ++ nl
          ++ "Enter PIN: " ++ "Incorrect PIN. 1 attempt(s) left." ++ nl
          ++ "Enter PIN: ")
         None true) /\
  verify_pin default_atm (typed ("1 2 3 1234" ++ nl)) =
    Ret 0 default_atm
      (mkEnv (" 1234" ++ nl)
         ("Enter PIN: " ++ "Incorrect PIN. 2 attempt(s) left." ++ nl
          ++ "Enter PIN: " ++ "Incorrect PIN. 1 attempt(s) left." ++ nl
          ++ "Enter PIN: " ++ "Incorrect PIN. 0 attempt(s) left." ++ nl)
         None true).
Proof.
  split; [|split].
  - apply (verify_pin_three_attempts default_atm (typed ("1 1234 6" ++ nl))
             "1" "1234" "6" (" 1234 6" ++ nl) (" 6" ++ nl) nl);
      first [reflexivity | discriminate].
  - apply (verify_pin_three_attempts default_atm (typed ("1 2 1234 6" ++ nl))
             "1" "2" "1234" (" 2 1234 6" ++ nl) (" 1234 6" ++ nl) (" 6" ++ nl));
      first [reflexivity | discriminate].
  - apply (verify_pin_three_attempts default_atm (typed ("1 2 3 1234" ++ nl))
             "1" "2" "3" (" 2 3 1234" ++ nl) (" 3 1234" ++ nl) (" 1234" ++ nl));
      first [reflexivity | discriminate].
Defined.

(** X13: whatever is typed (tokens that fit the buffer), [verify_pin]
    returns 0 or 1, with the record as it was, the data file untouched, and
    no more input than before. *)
Theorem verify_pin_frame (atm : ATMData) (e : Env) :
  tokens_fit 3 (stdin e) = true ->
  exists v e',
    verify_pin atm e = Ret v atm e' /\ (v = 0 \/ v = 1) /\
    disk e' = disk e /\ writable e' = writable e /\
    (String.length (stdin e') <= String.length (stdin e))%nat.
Proof. apply verify_pin_tries_frame. Qed.

(** X13, an instance: the PIN typed second, on a file that cannot be written. *)
Lemma verify_pin_frame_witness :
  exists v e',
    verify_pin stale_atm (mkEnv ("12 0000" ++ nl) "" (Some "kept") false) =
      Ret v stale_atm e' /\ (v = 0 \/ v = 1) /\
    disk e' = Some "kept" /\ writable e' = false /\
    (String.length (stdin e') <= 8)%nat.
Proof.
  apply (verify_pin_frame stale_atm (mkEnv ("12 0000" ++ nl) "" (Some "kept") false)).
  reflexivity.
Defined.

(** X14: when the three tokens typed after the start are all different
    from the PIN, [main] says "Too many incorrect attempts. Exiting." and
    returns 0 without a round of the menu: the record and the data file are
    those that the start left, and what was typed after the third token is
    not read. *)
Theorem main_locked_out
    (atm : ATMData) (e : Env) (atm1 : ATMData) (e1 : Env)
    (t1 t2 t3 r1 r2 r3 : string) :
  main_startup atm e = Ret tt atm1 e1 ->
  scan_s PIN_LENGTH (stdin e1) = Conv t1 r1 -> t1 <> pin atm1 ->
  scan_s PIN_LENGTH r1 = Conv t2 r2 -> t2 <> pin atm1 ->
  scan_s PIN_LENGTH r2 = Conv t3 r3 -> t3 <> pin atm1 ->
  main atm e =
  Some (Ret 0 atm1
          (mkEnv r3
             (stdout e1 ++ "Welcome to Simple ATM Simulation" ++ nl
              ++ "Enter PIN: " ++ "Incorrect PIN. 2 attempt(s) left." ++ nl
              ++ "Enter PIN: " ++ "Incorrect PIN. 1 attempt(s) left." ++ nl
              ++ "Enter PIN: " ++ "Incorrect PIN. 0 attempt(s) left." ++ nl
              ++ "Too many incorrect attempts. Exiting." ++ nl)
             (disk e1) (writable e1))).
Proof.
  intros Hstart H1 N1 H2 N2 H3 N3. unfold main, bind at 1. rewrite Hstart.
  unfold bind at 1, printf at 1.
  rewrite (verify_pin_strikes atm1 (mkEnv (stdin e1) _ _ _) t1 t2 t3 r1 r2 r3) by assumption.
  cbn [Z.eqb stdin stdout disk writable]. unfold bind, printf, ret.
  cbn [stdin stdout disk writable]. rewrite !append_assoc. reflexivity.
Qed.

(** X14, an instance: three wrong PINs, then the right one and a deposit, which are not read. *)
Lemma main_locked_out_witness :
  main stale_atm (typed ("1 2 3 1234 2 500 6" ++ nl)) =
  Some (Ret 0 (mkATMData 1000 "1234" (txs stale_atm) 0)
          (mkEnv (" 1234 2 500 6" ++ nl)
             ("Welcome to Simple ATM Simulation" ++ nl
              ++ "Enter PIN: " ++ "Incorrect PIN. 2 attempt(s) left." ++ nl
              ++ "Enter PIN: " ++ "Incorrect PIN. 1 attempt(s) left." ++ nl
              ++ "Enter PIN: " ++ "Incorrect PIN. 0 attempt(s) left." ++ nl
              ++ "Too many incorrect attempts. Exiting." ++ nl)
             (Some ("1000.00 1234 0" ++ nl)) true)).
Proof.
  apply (main_locked_out stale_atm (typed ("1 2 3 1234 2 500 6" ++ nl))
           (mkATMData 1000 "1234" (txs stale_atm) 0)
           (mkEnv ("1 2 3 1234 2 500 6" ++ nl) "" (Some ("1000.00 1234 0" ++ nl)) true)
           "1" "2" "3" (" 2 3 1234 2 500 6" ++ nl) (" 3 1234 2 500 6" ++ nl)
           (" 1234 2 500 6" ++ nl));
    first [reflexivity | discriminate | vm_compute; reflexivity].
Defined.

(** X15: when the input ends at one of the three prompts of [change_pin]
    ([scanf] does not return 1), the function returns at once: the record,
    PIN included, and the data file are as they were, and no message is
    printed after the prompt. *)
Theorem change_pin_out_of_input (atm : ATMData) (e : Env) :
  (forall r,
     scan_s PIN_LENGTH (stdin e) = NoConv r ->
     change_pin atm e =
     Ret tt atm (mkEnv r (stdout e ++ "Enter current PIN: ") (disk e) (writable e))) /\
  (forall r1 r,
     scan_s PIN_LENGTH (stdin e) = Conv (pin atm) r1 ->
     scan_s PIN_LENGTH r1 = NoConv r ->
     change_pin atm e =
     Ret tt atm
       (mkEnv r (stdout e ++ "Enter current PIN: " ++ "Enter new PIN: ")
          (disk e) (writable e))) /\
  (forall r1 new r2 r,
     scan_s PIN_LENGTH (stdin e) = Conv (pin atm) r1 ->
     scan_s PIN_LENGTH r1 = Conv new r2 ->
     scan_s PIN_LENGTH r2 = NoConv r ->
     change_pin atm e =
     Ret tt atm
       (mkEnv r
          (stdout e ++ "Enter current PIN: " ++ "Enter new PIN: "
           ++ "Confirm new PIN: ")
          (disk e) (writable e))).
Proof.
  split; [|split].
  - intros r H. unfold change_pin, bind, printf, scanf.
    cbn [stdin stdout disk writable]. rewrite H. reflexivity.
  - intros r1 r H1 H2. rewrite (change_pin_right_old atm e r1 H1).
    unfold bind, scanf. cbn [stdin stdout disk writable]. rewrite H2. reflexivity.
  - intros r1 new r2 r H1 H2 H3. rewrite (change_pin_right_old atm e r1 H1).
    unfold bind, scanf, printf. cbn [stdin stdout disk writable]. rewrite H2.
    cbn [stdin stdout disk writable]. rewrite H3.
    unfold ret. rewrite !append_assoc. reflexivity.
Qed.

(** X15, instances: the input ends at the first, the second and the third prompt. *)
Lemma change_pin_out_of_input_witness :
  change_pin default_atm (typed "") =
    Ret tt default_atm (mkEnv "" "Enter current PIN: " None true) /\
  change_pin default_atm (typed ("1234" ++ nl)) =
    Ret tt default_atm
      (mkEnv "" ("Enter current PIN: " ++ "Enter new PIN: ") None true) /\
  change_pin default_atm (typed ("1234 5678" ++ nl)) =
    Ret tt default_atm
      (mkEnv "" ("Enter current PIN: " ++ "Enter new PIN: " ++ "Confirm new PIN: ")
         None true).
Proof.
  destruct (change_pin_out_of_input default_atm (typed "")) as (H0 & _).
  destruct (change_pin_out_of_input default_atm (typed ("1234" ++ nl))) as (_ & H1 & _).
  destruct (change_pin_out_of_input default_atm (typed ("1234 5678" ++ nl)))
    as (_ & _ & H2).
  split; [apply (H0 ""); reflexivity|]. split.
  - apply (H1 nl ""); reflexivity.
  - apply (H2 (" 5678" ++ nl) "5678" nl ""); reflexivity.
Defined.

(** X16: with the stored PIN typed and a new PIN typed twice, [change_pin]
    stores the new PIN, saves the record and says
    "PIN changed successfully."; where the file cannot be written the
    warning comes first, the message of success is printed all the same, the
    PIN is changed in memory and the file is as it was. *)
Theorem change_pin_saved (atm : ATMData) (e : Env) (new r1 r2 r3 : string) :
  array_ok atm ->
  scan_s PIN_LENGTH (stdin e) = Conv (pin atm) r1 ->
  scan_s PIN_LENGTH r1 = Conv new r2 ->
  scan_s PIN_LENGTH r2 = Conv new r3 ->
  let atm' := mkATMData (balance atm) new (txs atm) (tx_count atm) in
  let e1 :=
    saved atm'
      (mkEnv r3
         (stdout e ++ "Enter current PIN: " ++ "Enter new PIN: "
          ++ "Confirm new PIN: ")
         (disk e) (writable e)) in
  change_pin atm e =
  Ret tt atm'
    (mkEnv (stdin e1) (stdout e1 ++ "PIN changed successfully." ++ nl)
       (disk e1) (writable e1)).
Proof.
  intros Hok H1 H2 H3 atm' e1. rewrite (change_pin_right_old atm e r1 H1).
  unfold bind at 1, scanf at 1. cbn [stdin stdout disk writable]. rewrite H2.
  unfold bind at 1, printf at 1, bind at 1, scanf at 1.
  cbn [stdin stdout disk writable]. rewrite H3.
  rewrite String.eqb_refl. cbn [negb]. unfold bind at 1, strcpy_pin at 1.
  apply scan_s_fits in H2.
  destruct (Z.leb_spec PIN_LENGTH (Z.of_nat (String.length new))); [lia|].
  unfold bind at 1. rewrite save_data_spec by exact Hok.
  unfold printf. subst e1 atm'. unfold saved. cbn [stdin stdout disk writable].
  rewrite !append_assoc. reflexivity.
Qed.

(** X16, instances: the PIN changed to 5678, where the file can be written and where it cannot. *)
Lemma change_pin_saved_witness :
  change_pin default_atm (typed ("1234 5678 5678" ++ nl)) =
    Ret tt (mkATMData 1000 "5678" empty_slots 0)
      (mkEnv nl
         ("Enter current PIN: " ++ "Enter new PIN: " ++ "Confirm new PIN: "
          ++ "PIN changed successfully." ++ nl)
         (Some ("1000.00 5678 0" ++ nl)) true) /\
  change_pin default_atm (mkEnv ("1234 5678 5678" ++ nl) "" (Some "old") false) =
    Ret tt (mkATMData 1000 "5678" empty_slots 0)
      (mkEnv nl
         ("Enter current PIN: " ++ "Enter new PIN: " ++ "Confirm new PIN: "
          ++ "Warning: Could not save data." ++ nl
          ++ "PIN changed successfully." ++ nl)
         (Some "old") false).
Proof.
  split.
  - rewrite (change_pin_saved default_atm (typed ("1234 5678 5678" ++ nl)) "5678"
               (" 5678 5678" ++ nl) (" 5678" ++ nl) nl); reflexivity.
  - rewrite (change_pin_saved default_atm
               (mkEnv ("1234 5678 5678" ++ nl) "" (Some "old") false) "5678"
               (" 5678 5678" ++ nl) (" 5678" ++ nl) nl); reflexivity.
Defined.

(** X17: a round of the menu. When no number can be read at the prompt (a
    word, the end of input), the round says "Invalid input. Exiting." and
    [main] returns 0; a number outside 1 to 6 gives
    "Invalid choice. Try again." and the loop goes round again; 6 gives
    "Thank you. Goodbye." and [main] returns 0. In all three the record and
    the data file are as they were. *)
Theorem menu_rejects_choice (atm : ATMData) (e : Env) (r : string) :
  (scan_d (stdin e) = NoConv r ->
   menu_once atm e =
   Ret (Some 0) atm
     (mkEnv r (stdout e ++ menu_text ++ "Invalid input. Exiting." ++ nl)
        (disk e) (writable e))) /\
  (forall choice : Z,
     scan_d (stdin e) = Conv choice r ->
     (choice < 1 \/ 6 < choice ->
      menu_once atm e =
      Ret None atm
        (mkEnv r (stdout e ++ menu_text ++ "Invalid choice. Try again." ++ nl)
           (disk e) (writable e))) /\
     (choice = 6 ->
      menu_once atm e =
      Ret (Some 0) atm
        (mkEnv r (stdout e ++ menu_text ++ "Thank you. Goodbye." ++ nl)
           (disk e) (writable e)))).
Proof.
  rewrite menu_once_choice. split.
  - intros ->. reflexivity.
  - intros choice ->. cbn zeta. split.
    + intros Hout.
      destruct choice as [|[[[p|p|]|[p|p|]|]|[[p|p|]|[p|p|]|]|]|p];
        first [reflexivity | lia].
    + intros ->. reflexivity.
Qed.

(** X17, instances: a word, no input, 7, -2 and 6. *)
Lemma menu_rejects_choice_witness :
  menu_once default_atm (typed ("seven" ++ nl)) =
    Ret (Some 0) default_atm
      (mkEnv ("seven" ++ nl) (menu_text ++ "Invalid input. Exiting." ++ nl) None true) /\
  menu_once default_atm (typed "") =
    Ret (Some 0) default_atm
      (mkEnv "" (menu_text ++ "Invalid input. Exiting." ++ nl) None true) /\
  menu_once default_atm (typed ("7" ++ nl)) =
    Ret None default_atm
      (mkEnv nl (menu_text ++ "Invalid choice. Try again." ++ nl) None true) /\
  menu_once default_atm (typed ("-2" ++ nl)) =
    Ret None default_atm
      (mkEnv nl (menu_text ++ "Invalid choice. Try again." ++ nl) None true) /\
  menu_once default_atm (typed ("6" ++ nl)) =
    Ret (Some 0) default_atm
      (mkEnv nl (menu_text ++ "Thank you. Goodbye." ++ nl) None true).
Proof.
  split; [|split; [|split; [|split]]].
  - apply (menu_rejects_choice default_atm (typed ("seven" ++ nl)) ("seven" ++ nl)).
    reflexivity.
  - apply (menu_rejects_choice default_atm (typed "") ""). reflexivity.
  - destruct (menu_rejects_choice default_atm (typed ("7" ++ nl)) nl) as [_ H].
    apply (H 7); [reflexivity | lia].
  - destruct (menu_rejects_choice default_atm (typed ("-2" ++ nl)) nl) as [_ H].
    apply (H (-2)); [reflexivity | lia].
  - destruct (menu_rejects_choice default_atm (typed ("6" ++ nl)) nl) as [_ H].
    apply (H 6); reflexivity.
Defined.

(** X18: the menu loop does not spin. A round that goes round again has
    read a character or more, so [main] has an outcome for every input (a
    return, undefined behaviour, or the [getchar] loop of [deposit] and
    [withdraw] at the end of input), reached within one round more than
    there are characters typed; more rounds give the same outcome. *)
Theorem main_ends_on_any_input (atm : ATMData) (e : Env) :
  (exists o, main atm e = Some o) /\
  (forall rounds, (String.length (stdin e) < rounds)%nat ->
     exists o, menu (S (String.length (stdin e))) atm e = Some o /\
               menu rounds atm e = Some o).
Proof.
  split; [apply main_ends|]. intros rounds Hlt.
  destruct (menu_ends (S (String.length (stdin e))) atm e) as [o Ho]; [lia|].
  exists o. split; [exact Ho|]. apply (menu_more_le _ _ _ _ _ Ho). lia.
Qed.

(** X19: from a sound record (within its capacity, the balance not below
    zero), any number of rounds of the menu, whatever is typed, end with a
    sound record, unless the input overruns a buffer (undefined
    behaviour). *)
Theorem menu_keeps_sound (rounds : nat) (atm : ATMData) (e : Env) (o : outcome Z) :
  sound atm -> menu rounds atm e = Some o -> unless_undefined sound o.
Proof. apply menu_sound. Qed.

(** X19, an instance: [nan] deposited, 50 withdrawn, then exit. *)
Lemma menu_keeps_sound_witness :
  exists o,
    menu 4 default_atm
      (typed ("2" ++ nl ++ "nan" ++ nl ++ "3" ++ nl ++ "50" ++ nl ++ "6" ++ nl)) = Some o /\
    unless_undefined sound o.
Proof.
  eexists. split; [vm_compute; reflexivity|].
  apply (menu_keeps_sound 4 default_atm
           (typed ("2" ++ nl ++ "nan" ++ nl ++ "3" ++ nl ++ "50" ++ nl ++ "6" ++ nl))).
  - split; [split; [reflexivity | unfold MAX_TX; simpl; lia] | reflexivity].
  - vm_compute. reflexivity.
Defined.

(** X20: a run of [main] that finds no data file ends, whatever is typed,
    with a record within its capacity and a balance that is not below zero,
    unless the input overruns a buffer. *)
Theorem fresh_run_stays_sound (atm : ATMData) (e : Env) (o : outcome Z) :
  array_ok atm -> disk e = None ->
  main atm e = Some o -> unless_undefined sound o.
Proof.
  intros Hok Hd.
  apply (main_sound atm e (mkATMData 1000 "1234" (txs atm) 0)
           (saved (mkATMData 1000 "1234" (txs atm) 0) e)).
  - unfold main_startup, bind at 1, load_data. rewrite Hd. cbn [Z.eqb].
    unfold bind at 1, init_default at 1.
    rewrite save_data_spec by exact Hok. reflexivity.
  - split; [split; [exact Hok | unfold MAX_TX; cbn; lia] | reflexivity].
Qed.

(** X20, an instance: a deposit, a withdrawal refused, a withdrawal of all, exit. *)
Lemma fresh_run_stays_sound_witness :
  exists o,
    main stale_atm
      (typed ("1234" ++ nl ++ "2" ++ nl ++ "100" ++ nl ++ "3" ++ nl ++ "2000" ++ nl
              ++ "3" ++ nl ++ "1100" ++ nl ++ "6" ++ nl)) = Some o /\
    unless_undefined sound o.
Proof.
  eexists. split; [vm_compute; reflexivity|].
  apply (fresh_run_stays_sound stale_atm
           (typed ("1234" ++ nl ++ "2" ++ nl ++ "100" ++ nl ++ "3" ++ nl ++ "2000" ++ nl
                   ++ "3" ++ nl ++ "1100" ++ nl ++ "6" ++ nl)));
    [reflexivity | reflexivity | vm_compute; reflexivity].
Defined.

(** X21: on a record whose count is negative (a header can say so, and
    [load_data] stores it), [add_transaction] writes before the array: it
    has undefined behaviour, and so has every deposit or withdrawal that
    passes the tests on the amount. *)
Theorem negative_count_breaks_push (atm : ATMData) (e : Env) :
  tx_count atm < 0 ->
  (forall ty amt, add_transaction ty amt atm e = Undef) /\
  (forall a rest,
     scan_lf (stdin e) = Conv a rest -> (a <=? 0)%float = false ->
     deposit atm e = Undef /\
     ((balance atm <? a)%float = false -> withdraw atm e = Undef)).
Proof.
  intros Hneg.
  assert (Hadd : forall ty amt b e', add_transaction ty amt
                   (mkATMData b (pin atm) (txs atm) (tx_count atm)) e' = Undef).
  { intros ty amt b e'. unfold add_transaction, bind at 1, get_atm at 1.
    cbn [tx_count]. destruct (Z.ltb_spec (tx_count atm) MAX_TX); [|unfold MAX_TX in *; lia].
    unfold bind at 1, store_tx.
    destruct (TYPE_LENGTH <=? _); [reflexivity|].
    unfold write_tx, bind at 1, get_atm at 1, slot. cbn [txs].
    destruct (Z.ltb_spec (tx_count atm) 0); [reflexivity | lia]. }
  split.
  - intros ty amt. specialize (Hadd ty amt (balance atm) e).
    destruct atm; exact Hadd.
  - intros a rest Hscan Hpos. split.
    + unfold deposit, bind at 1, printf at 1, bind at 1, scanf at 1.
      cbn [stdin stdout disk writable]. rewrite Hscan, Hpos.
      unfold bind at 1, get_atm at 1, bind at 1, set_balance at 1, bind at 1.
      rewrite Hadd. reflexivity.
    + intros Hle. unfold withdraw, bind at 1, printf at 1, bind at 1, scanf at 1.
      cbn [stdin stdout disk writable]. rewrite Hscan, Hpos.
      unfold bind at 1, get_atm at 1. rewrite Hle.
      unfold bind at 1, set_balance at 1, bind at 1.
      rewrite Hadd. reflexivity.
Qed.

(** X21, an instance: a header with the count -3 is loaded; then 5 is deposited or withdrawn. *)
Lemma negative_count_breaks_push_witness :
  load_data stale_atm (on_disk ("50.00 1234 -3" ++ nl)) =
    Ret 1 (mkATMData 50 "1234" (txs stale_atm) (-3)) (on_disk ("50.00 1234 -3" ++ nl)) /\
  deposit (mkATMData 50 "1234" (txs stale_atm) (-3)) (typed ("5" ++ nl)) = Undef /\
  withdraw (mkATMData 50 "1234" (txs stale_atm) (-3)) (typed ("5" ++ nl)) = Undef.
Proof.
  split; [vm_compute; reflexivity|].
  destruct (negative_count_breaks_push
              (mkATMData 50 "1234" (txs stale_atm) (-3)) (typed ("5" ++ nl)))
    as [_ H]; [reflexivity|].
  destruct (H 5%float nl) as [Hdep Hwd]; [reflexivity | reflexivity |].
  split; [exact Hdep | apply Hwd; reflexivity].
Defined.

(** X22: on a record whose count is above 10, [mini_statement] reads past
    the array (undefined behaviour), whatever the count and the records;
    [add_transaction] does not: it moves the slots one down (the first
    record leaves), stores the new record in the last slot, and leaves the
    count, the balance and the PIN as they are. *)
Theorem statement_past_capacity (atm : ATMData) (e : Env) :
  array_ok atm -> MAX_TX < tx_count atm ->
  mini_statement atm e = Undef /\
  (forall ty amt,
     Z.of_nat (String.length ty) < TYPE_LENGTH ->
     add_transaction ty amt atm e =
       Ret tt
         (mkATMData (balance atm) (pin atm)
            (drop 1 (txs atm) ++ [mkTransaction ty amt])%list
            (tx_count atm)) e /\
     length (drop 1 (txs atm) ++ [mkTransaction ty amt])%list = 10%nat).
Proof.
  intros Hok Hgt. split.
  - unfold mini_statement, bind at 1, get_atm at 1, bind at 1, printf at 1.
    unfold bind at 1.
    assert (Hseq : seqZ 0 (tx_count atm) =
                   (seqZ 0 (Z.of_nat 10) ++ seqZ 10 (tx_count atm - 10))%list).
    { unfold MAX_TX in Hgt.
      replace (tx_count atm) with (10 + (tx_count atm - 10)) at 1 by lia.
      rewrite seqZ_app by lia. reflexivity. }
    rewrite Hseq, print_txs_app. unfold bind at 1.
    unfold array_ok, MAX_TX in *.
    rewrite print_txs_spec by (cbn [txs]; lia).
    rewrite seqZ_cons by lia. cbn [print_txs].
    unfold bind at 1, read_tx at 1, slot. cbn [txs Z.ltb Z.compare].
    rewrite lookup_ge_None_2 by (rewrite Hok; simpl; lia). reflexivity.
  - intros ty amt Hty. split.
    + apply add_transaction_full; [exact Hty | exact Hok | lia].
    + unfold array_ok in Hok. rewrite length_app, length_drop, Hok. reflexivity.
Qed.

(** X22, an instance: a count of 11 over ten records; a withdrawal of 5 is
    pushed, the first record leaves and the others move one slot down. *)
Lemma statement_past_capacity_witness :
  mini_statement
    (mkATMData 0 "1234"
       (map (mkTransaction "Deposit")
          [1%float; 2%float; 3%float; 4%float; 5%float; 6%float; 7%float;
           8%float; 9%float; 10%float]) 11)
    (typed "") = Undef /\
  add_transaction "Withdraw" 5
    (mkATMData 0 "1234"
       (map (mkTransaction "Deposit")
          [1%float; 2%float; 3%float; 4%float; 5%float; 6%float; 7%float;
           8%float; 9%float; 10%float]) 11)
    (typed "") =
  Ret tt
    (mkATMData 0 "1234"
       (map (mkTransaction "Deposit")
          [2%float; 3%float; 4%float; 5%float; 6%float; 7%float; 8%float;
           9%float; 10%float] ++ [mkTransaction "Withdraw" 5])%list 11)
    (typed "").
Proof.
  destruct (statement_past_capacity
              (mkATMData 0 "1234"
                 (map (mkTransaction "Deposit")
                    [1%float; 2%float; 3%float; 4%float; 5%float; 6%float;
                     7%float; 8%float; 9%float; 10%float]) 11)
              (typed ""))
    as [Hmini Hadd]; [reflexivity | unfold MAX_TX; simpl; lia |].
  split; [exact Hmini|].
  destruct (Hadd "Withdraw" 5%float) as [H _]; [vm_compute; reflexivity|].
  rewrite H. reflexivity.
Defined.

(** X23: on a sound record, a round of the menu has no undefined behaviour
    when the choice typed is a numeral within [int] and, for the choice 5,
    the tokens typed for the PINs fit their buffers: no amount typed,
    whatever it is, and no state of the ledger leads outside the array. *)
Theorem sound_round_is_defined (atm : ATMData) (e : Env) :
  sound atm ->
  scan_d (stdin e) <> Overrun ->
  (forall r, scan_d (stdin e) = Conv 5 r -> tokens_fit 3 r = true) ->
  menu_once atm e <> Undef.
Proof.
  intros Hs Hd Hfit. rewrite menu_once_choice.
  destruct (scan_d (stdin e)) as [choice r|r|]; [| discriminate | contradiction].
  cbn zeta.
  destruct choice as [|[[[p|p|]|[p|p|]|]|[[p|p|]|[p|p|]|]|]|p]; try discriminate;
    apply then_none_defined;
    first [ eapply ends_defined, amount_ops_sound, Hs
          | rewrite mini_statement_spec by apply Hs; discriminate
          | idtac ].
  destruct (change_pin_returns atm
              (mkEnv r (stdout e ++ menu_text) (disk e) (writable e)))
    as (atm' & e' & H); [apply Hs | exact (Hfit r eq_refl) |].
  rewrite H. discriminate.
Qed.

(** X23, instances: a PIN change, and a deposit of a numeral that overflows to infinity. *)
Lemma sound_round_is_defined_witness :
  menu_once default_atm (typed ("5 1234 4321 4321" ++ nl)) <> Undef /\
  menu_once default_atm (typed ("2 1e999" ++ nl)) <> Undef.
Proof.
  split.
  - apply (sound_round_is_defined default_atm (typed ("5 1234 4321 4321" ++ nl))).
    + split; [split; [reflexivity | unfold MAX_TX; simpl; lia] | reflexivity].
    + discriminate.
    + intros r [= <-]. reflexivity.
  - apply (sound_round_is_defined default_atm (typed ("2 1e999" ++ nl))).
    + split; [split; [reflexivity | unfold MAX_TX; simpl; lia] | reflexivity].
    + discriminate.
    + intros r H. discriminate H.
Defined.
